(** * The transaction appender of the state package (gowaves)

    A shallow embedding of [txAppender] and of its methods: the duplicate-ID
    check, the script checks and their limits, the fallible path of Exchange
    and Invoke transactions, the commit, [appendTx], [validateNextTx] and
    [reset]; then [appendBlock], which calls [appendTx] on each transaction of
    a block with [validatingUtx] unset, and the miner of package miner, which
    makes a block of the transactions that [ValidateNextTx] accepts.

    The appender drives collaborators whose code lives in other files of the
    package (the script caller, the transaction handler, the block differ, the
    diff applier, the block read-writer, the features storage).  A call to one
    of them is modelled as: the call is appended to a log kept in the state,
    with the reply it got, and the reply is read from a record of reply
    functions, [Collaborators].  A reply may depend on all the calls made so
    far and on their replies. *)

From Stdlib Require Import ZArith Lia.
From stdpp Require Import base gmap strings list.

Local Open Scope Z_scope.

(** ** Errors and results *)

(** Go's [error] values, by the constructor that builds them in the source.
    Messages keep their format string and arguments; they are not rendered. *)
Inductive error : Type :=
| Errorf (format : string) (args : list fmtArg)   (* errors.Errorf, errors.New *)
| NewInfoMsg (e : error)                          (* proto.NewInfoMsg *)
| NewAliasTaken (text : error)                    (* errs.NewAliasTaken(err.Error()) *)
| Extend (e : error) (msg : string)               (* errs.Extend *)
| Wrap (e : error) (msg : string)                 (* errors.Wrap, errors.Wrapf *)
| TxCommitmentError (e : error)                   (* wrapErr(TxCommitmentError, e) *)
with fmtArg : Type :=
| ArgS (s : string)
| ArgZ (z : Z)
| ArgE (e : error).

Inductive result (A : Type) : Type :=
| Ok (x : A)
| Err (e : error).
Arguments Ok {A} x.
Arguments Err {A} e.

Definition is_ok {A} (r : result A) : bool :=
  match r with Ok _ => true | Err _ => false end.

(** [uint64] arithmetic wraps around. *)
Definition uint64 (z : Z) : Z := z mod 2 ^ 64.

(** ** Transactions *)

(** proto.TransactionType *)
Inductive TransactionType : Type :=
| GenesisTransaction
| PaymentTransaction
| IssueTransaction
| TransferTransaction
| ReissueTransaction
| BurnTransaction
| ExchangeTransaction
| LeaseTransaction
| LeaseCancelTransaction
| CreateAliasTransaction
| MassTransferTransaction
| DataTransaction
| SetScriptTransaction
| SponsorshipTransaction
| SetAssetScriptTransaction
| InvokeScriptTransaction
| UpdateAssetInfoTransaction
| EthereumMetamaskTransaction
| InvokeExpressionTransaction.

#[global] Instance TransactionType_eq_dec : EqDecision TransactionType.
Proof. solve_decision. Defined.

(** proto.EthereumTxKind has three implementations. *)
Inductive EthereumTxKind : Type :=
| EthereumTransferWavesTxKind
| EthereumTransferAssetsErc20TxKind
| EthereumInvokeScriptTxKind.

Record Order : Type := { orderID : string }.

(** The dynamic Go type behind the [proto.Transaction] interface, as far as
    the appender's type assertions and type switches tell types apart. *)
Inductive TxBody : Type :=
| ExchangeBody (order1 order2 : Order)            (* implements proto.Exchange *)
| InvokeScriptWithProofs
| InvokeExpressionTransactionWithProofs
| EthereumTransaction (TxKind : option EthereumTxKind)
| OtherBody.

Record Transaction : Type := {
  txType : TransactionType;       (* GetTypeInfo().Type *)
  txBody : TxBody;
  GetID : result string;          (* GetID(scheme) *)
  GetSender : result string;      (* GetSender(scheme) *)
  IsProtobufTx : bool;            (* proto.IsProtobufTx(tx) *)
  GetVersion : Z
}.

(** [tx.(proto.Exchange)] *)
Definition asExchange (tx : Transaction) : option (Order * Order) :=
  match txBody tx with
  | ExchangeBody o1 o2 => Some (o1, o2)
  | _ => None
  end.

(** [ethTx.TxKind = kind] *)
Definition setTxKind (tx : Transaction) (kind : EthereumTxKind) : Transaction :=
  {| txType := txType tx; txBody := EthereumTransaction (Some kind);
     GetID := GetID tx; GetSender := GetSender tx;
     IsProtobufTx := IsProtobufTx tx; GetVersion := GetVersion tx |}.

(** ** Balance diffs, results, parameters *)

(** A balance diff: signed deltas by balance key. *)
Definition txDiff : Type := list (string * Z).

(** Modelled from the spec: the diff storage, "the in-memory accumulation of
    uncommitted diffs for the batch currently being processed"; a diff that
    is saved is accumulated into it ("commit(diff) -> accumulate into
    workingSet"), and its reset empties it. *)
Definition diffStorage : Type := list txDiff.

Record txBalanceChanges : Type := {
  addrs : list string;
  diff : txDiff
}.

Record txCheckerData : Type := { smartAssets : list string }.

Record txSnapshot : Type := { regular : list (string * Z) }.

Record invocationResult : Type := { invocationID : string }.

Record applicationResult : Type := {
  status : bool;
  resTotalScriptsRuns : Z;        (* the field totalScriptsRuns *)
  changes : txBalanceChanges;
  checkerData : txCheckerData
}.

Definition newApplicationResult (status : bool) (totalScriptsRuns : Z)
    (changes : txBalanceChanges) (checkerData : txCheckerData) : applicationResult :=
  {| status := status; resTotalScriptsRuns := totalScriptsRuns;
     changes := changes; checkerData := checkerData |}.

Record BlockHeader : Type := {
  Timestamp : Z;
  BlockID : string;
  Version : Z;
  GeneratorPublicKey : string
}.

Record BlockInfo : Type := {
  biTimestamp : Z;
  biHeight : Z
}.

Record checkerInfo : Type := {
  currentTimestamp : Z;
  parentTimestamp : Z;
  blockID : string;
  blockVersion : Z;
  height : Z;
  ciRideV5Activated : bool;
  ciRideV6Activated : bool;
  blockRewardDistribution : bool
}.

Record appendTxParams : Type := {
  chans : bool;                   (* whether the verifier channels are set *)
  checkerInfoOf : checkerInfo;
  blockInfo : BlockInfo;
  block : BlockHeader;
  acceptFailed : bool;
  blockV5Activated : bool;
  rideV5Activated : bool;
  rideV6Activated : bool;
  consensusImprovementsActivated : bool;
  blockRewardDistributionActivated : bool;
  invokeExpressionActivated : bool;
  validatingUtx : bool;
  currentMinerPK : string
}.

(** [info.acceptFailed = b] *)
Definition setAcceptFailed (b : bool) (p : appendTxParams) : appendTxParams :=
  {| chans := chans p; checkerInfoOf := checkerInfoOf p; blockInfo := blockInfo p;
     block := block p; acceptFailed := b; blockV5Activated := blockV5Activated p;
     rideV5Activated := rideV5Activated p; rideV6Activated := rideV6Activated p;
     consensusImprovementsActivated := consensusImprovementsActivated p;
     blockRewardDistributionActivated := blockRewardDistributionActivated p;
     invokeExpressionActivated := invokeExpressionActivated p;
     validatingUtx := validatingUtx p; currentMinerPK := currentMinerPK p |}.

(** [fallibleValidationParams] embeds a pointer to the caller's
    [appendTxParams]: what a callee assigns through it, the caller sees. *)
Record fallibleValidationParams : Type := {
  appendTxParamsOf : appendTxParams;
  senderScripted : bool;
  senderAddress : string
}.

Record verifyTask : Type := {
  taskTx : Transaction;
  checkTxSig : bool;
  checkOrder1 : bool;
  checkOrder2 : bool
}.

Record performerInfo : Type := {
  piHeight : Z;
  piBlockID : string;
  piCurrentMinerAddress : string;
  piCheckerData : txCheckerData
}.

(** settings.Feature, the ones the appender asks about. *)
Inductive Feature : Type :=
| SmartAccounts
| SmartAccountTrading
| Ride4DApps
| BlockV5
| RideV5
| RideV6
| ConsensusImprovements
| BlockRewardDistribution
| InvokeExpression.

Record BlockchainSettings : Type := {
  AddressSchemeCharacter : Z;
  StolenAliasesWindowTimeStart : Z;
  StolenAliasesWindowTimeEnd : Z
}.

(** ** Calls to collaborators *)

(** A call, with its arguments and, last, the reply it got. *)
Inductive Call : Type :=
| CallReadTransaction (id : string) (reply : result unit)
| CallNewestIsActivated (f : Feature) (reply : result bool)
| CallOrderScriptedAccount (o : Order) (reply : result bool)
| CallReadNewestBlockHeaderByHeight (reply : result BlockHeader)
| CallNewestBlockInfoByHeight (reply : result BlockInfo)
| CallNewestAccountHasVerifier (addr : string) (reply : result bool)
| CallCreateDiffForExchangeFeeValidation (tx : Transaction) (reply : result txBalanceChanges)
| CallCreateFeeDiffInvokeScriptWithProofs (tx : Transaction) (reply : result txBalanceChanges)
| CallCreateFeeDiffInvokeExpressionWithProofs (tx : Transaction)
    (reply : result txBalanceChanges)
| CallCreateFeeDiffEthereumInvokeScriptWithProofs (tx : Transaction)
    (reply : result txBalanceChanges)
| CallValidateTxDiff (d : txDiff) (stor : diffStorage) (reply : result unit)
| CallAccountScriptWithTx (tx : Transaction) (reply : result unit)
| CallAccountScriptWithOrder (o : Order) (reply : result unit)
| CallAssetScript (tx : Transaction) (asset : string) (reply : result bool)
| CallCheckTx (tx : Transaction) (reply : result txCheckerData)
| CallCreateTransactionDiff (tx : Transaction) (reply : result txBalanceChanges)
| CallCreateFailedTransactionDiff (tx : Transaction) (reply : result txBalanceChanges)
| CallApplyInvokeScript (tx : Transaction)
    (reply : result (bool * invocationResult * applicationResult))
| CallResolveTxKind (tx : Transaction) (reply : result EthereumTxKind)
| CallVerifyCheckTx (task : verifyTask) (reply : result unit)
    (* checkTx(tx, checkTxSig, checkOrder1, checkOrder2, scheme) *)
| CallTrySend (task : verifyTask) (reply : result unit)
| CallSaveTxDiff (d : txDiff) (reply : result unit)
| CallPerformTx (tx : Transaction) (d : txDiff) (reply : result txSnapshot)
| CallWriteTransactionToMem (tx : Transaction) (failed : bool) (reply : result unit)
| CallCountMinerFee (tx : Transaction) (reply : result unit)
| CallWriteTransaction (tx : Transaction) (failed : bool) (reply : result unit)
| CallSaveTxIdByAddress (addr txID blockID : string) (reply : result unit)
| CallSetApplierInfo (ci : checkerInfo)
| CallDropUncertain
| CallBlockDifferReset
| CallLog (level format : string).                (* zap.S().Warnf, Errorf, Debugf *)

(** The replies of the collaborators, and the constants declared in other
    files.  The first argument of a reply function is the log of the calls
    made before this one.  A script run replies with its outcome and with the
    cost it consumed.  [applyInvokeScript] gets the parameters through the
    pointer that [handleExchange] writes [acceptFailed] through, and its code
    is in another file: its reply comes with the [acceptFailed] that it
    leaves in them, which [appendTx] reads afterwards.  The other fields, and
    the parameters that the other collaborators are given, are taken to be
    left as they are. *)
Record Collaborators : Type := {
  settings : BlockchainSettings;
  maxScriptsRunsInBlock : Z;
  GetMaxScriptsComplexityInBlock : bool → Z;
  MustAddressFromPublicKey : string → string;
  ToWavesAddress : string → result string;
  newestIsActivated : list Call → Feature → result bool;
  readTransaction : list Call → string → result unit;
  orderScriptedAccount : list Call → Order → result bool;
  readNewestBlockHeaderByHeight : list Call → result BlockHeader;
  NewestBlockInfoByHeight : list Call → result BlockInfo;
  newestAccountHasVerifier : list Call → string → result bool;
  createDiffForExchangeFeeValidation : list Call → Transaction → result txBalanceChanges;
  createFeeDiffInvokeScriptWithProofs : list Call → Transaction → result txBalanceChanges;
  createFeeDiffInvokeExpressionWithProofs : list Call → Transaction → result txBalanceChanges;
  createFeeDiffEthereumInvokeScriptWithProofs : list Call → Transaction → result txBalanceChanges;
  validateTxDiff : list Call → txDiff → diffStorage → result unit;
  callAccountScriptWithTx : list Call → Transaction → appendTxParams → result unit * Z;
  callAccountScriptWithOrder : list Call → Order → appendTxParams → result unit * Z;
  callAssetScript : list Call → Transaction → string → appendTxParams → result bool * Z;
  checkTx : list Call → Transaction → checkerInfo → result txCheckerData;
  createTransactionDiff : list Call → Transaction → BlockHeader → result txBalanceChanges;
  createFailedTransactionDiff : list Call → Transaction → BlockHeader → result txBalanceChanges;
  applyInvokeScript :
    list Call → Transaction → fallibleValidationParams →
    result (bool * invocationResult * applicationResult) * Z;
  ResolveTxKind : list Call → Transaction → bool → result EthereumTxKind;
  verifyCheckTx : list Call → verifyTask → result unit;
  trySend : list Call → verifyTask → result unit;
  saveTxDiff : list Call → txDiff → diffStorage → result unit;
  performTx :
    list Call → Transaction → performerInfo → option invocationResult → txDiff →
    result txSnapshot;
  writeTransactionToMem : list Call → Transaction → bool → result unit;
  countMinerFee : list Call → Transaction → result unit;
  writeTransaction : list Call → Transaction → bool → result unit;
  saveTxIdByAddress : list Call → string → string → string → result unit
}.

(** ** The appender's state *)

(** Modelled from the spec: the script caller's complexity accumulator, "a
    running total of computational cost consumed by script executions in the
    current block", kept as the total of the committed transactions and the
    cost of the transaction at hand; the source names its four operations. *)
Record scriptCaller : Type := {
  totalComplexity : Z;
  recentTxComplexity : Z
}.

Definition getTotalComplexity (s : scriptCaller) : Z :=
  uint64 (totalComplexity s + recentTxComplexity s).

Definition addCost (cost : Z) (s : scriptCaller) : scriptCaller :=
  {| totalComplexity := totalComplexity s;
     recentTxComplexity := uint64 (recentTxComplexity s + cost) |}.

Definition addRecentTxComplexity (s : scriptCaller) : scriptCaller :=
  {| totalComplexity := uint64 (totalComplexity s + recentTxComplexity s);
     recentTxComplexity := 0 |}.

Definition resetRecentTxComplexity (s : scriptCaller) : scriptCaller :=
  {| totalComplexity := totalComplexity s; recentTxComplexity := 0 |}.

Definition resetComplexity (s : scriptCaller) : scriptCaller :=
  {| totalComplexity := 0; recentTxComplexity := 0 |}.

(** The fields of [txAppender] that change, and the log of the calls. *)
Record txAppender : Type := {
  sc : scriptCaller;
  diffStor : diffStorage;
  recentTxIds : gset string;
  totalScriptsRuns : Z;
  buildApiData : bool;
  calls : list Call
}.

Definition withSc (f : scriptCaller → scriptCaller) (a : txAppender) : txAppender :=
  {| sc := f (sc a); diffStor := diffStor a; recentTxIds := recentTxIds a;
     totalScriptsRuns := totalScriptsRuns a; buildApiData := buildApiData a;
     calls := calls a |}.

Definition withDiffStor (f : diffStorage → diffStorage) (a : txAppender) : txAppender :=
  {| sc := sc a; diffStor := f (diffStor a); recentTxIds := recentTxIds a;
     totalScriptsRuns := totalScriptsRuns a; buildApiData := buildApiData a;
     calls := calls a |}.

Definition withRecentTxIds (f : gset string → gset string) (a : txAppender) : txAppender :=
  {| sc := sc a; diffStor := diffStor a; recentTxIds := f (recentTxIds a);
     totalScriptsRuns := totalScriptsRuns a; buildApiData := buildApiData a;
     calls := calls a |}.

Definition withTotalScriptsRuns (f : Z → Z) (a : txAppender) : txAppender :=
  {| sc := sc a; diffStor := diffStor a; recentTxIds := recentTxIds a;
     totalScriptsRuns := f (totalScriptsRuns a); buildApiData := buildApiData a;
     calls := calls a |}.

Definition logCall (c : Call) (a : txAppender) : txAppender :=
  {| sc := sc a; diffStor := diffStor a; recentTxIds := recentTxIds a;
     totalScriptsRuns := totalScriptsRuns a; buildApiData := buildApiData a;
     calls := calls a ++ [c] |}.

(** ** The monad of the methods: state and errors

    A method gets the appender, and returns a value or an error together with
    the appender as it left it: what a method changed before it failed stays
    changed. *)
Definition M (A : Type) : Type := txAppender → result A * txAppender.

#[global] Instance M_ret : MRet M := λ A x a, (Ok x, a).

#[global] Instance M_bind : MBind M := λ A B f m a,
  match m a with
  | (Ok x, a') => f x a'
  | (Err e, a') => (Err e, a')
  end.

Definition fail {A} (e : error) : M A := λ a, (Err e, a).

Definition lift {A} (r : result A) : M A := λ a, (r, a).

(** [if err != nil { return f(err) }] *)
Definition orReturn {A} (m : M A) (f : error → error) : M A := λ a,
  match m a with
  | (Ok x, a') => (Ok x, a')
  | (Err e, a') => (Err (f e), a')
  end.

(** [res, err := m] with the error handled by what follows. *)
Definition attempt {A} (m : M A) : M (result A) := λ a, (Ok (m a).1, (m a).2).

Definition gets {A} (f : txAppender → A) : M A := λ a, (Ok (f a), a).

Definition modify (f : txAppender → txAppender) : M unit := λ a, (Ok tt, f a).

(** A call whose reply is a value or an error. *)
Definition extern {A} (c : result A → Call) (reply : list Call → result A) : M A := λ a,
  (reply (calls a), logCall (c (reply (calls a))) a).

(** A script run.  Modelled from the spec: the cost that the run consumed
    goes to the accumulator, as the cost of the transaction at hand. *)
Definition script {A} (c : result A → Call) (reply : list Call → result A * Z) : M A := λ a,
  ((reply (calls a)).1,
   logCall (c (reply (calls a)).1) (withSc (addCost (reply (calls a)).2) a)).

(** A call with no reply. *)
Definition notify (c : Call) : M unit := λ a, (Ok tt, logCall c a).

(** ** The methods of [txAppender] *)

Section Methods.

Context (env : Collaborators).

Definition alreadyInState (id : string) : error :=
  NewInfoMsg (Errorf "transaction with ID %s already in state" [ArgS id]).

Definition checkDuplicateTxIdsImpl (id : string) (recentIds : gset string) : M unit :=
  (* Check recent. *)
  if decide (id ∈ recentIds) then fail (alreadyInState id)
  else
    (* Check DB. *)
    r ← attempt (extern (CallReadTransaction id) (λ h, readTransaction env h id));
    match r with
    | Ok _ => fail (alreadyInState id)
    | Err _ => mret tt
    end.

Definition checkDuplicateTxIds (tx : Transaction) (recentIds : gset string)
    (timestamp : Z) : M unit :=
  if decide (txType tx = PaymentTransaction) then
    (* Payment transactions are deprecated. *)
    mret tt
  else if bool_decide (txType tx = CreateAliasTransaction)
          && (StolenAliasesWindowTimeStart (settings env) <=? timestamp)
          && (timestamp <=? StolenAliasesWindowTimeEnd (settings env)) then
    mret tt
  else
    txID ← lift (GetID tx);
    orReturn (checkDuplicateTxIdsImpl txID recentIds)
      (λ err, if decide (txType tx = CreateAliasTransaction)
              then NewAliasTaken err else err).

Definition orderIsScripted (order : Order) : M bool :=
  extern (CallOrderScriptedAccount order) (λ h, orderScriptedAccount env h order).

Definition currentBlock : M BlockHeader :=
  extern CallReadNewestBlockHeaderByHeight (readNewestBlockHeaderByHeight env).

Definition currentBlockInfo : M BlockInfo :=
  extern CallNewestBlockInfoByHeight (NewestBlockInfoByHeight env).

Definition isActivated (f : Feature) : M bool :=
  extern (CallNewestIsActivated f) (λ h, newestIsActivated env h f).

Definition checkProtobufVersion (tx : Transaction) (blockV5Activated : bool) : M unit :=
  if negb (IsProtobufTx tx) then mret tt
  else if negb blockV5Activated then
    fail (Errorf "bad transaction version %v before blockV5 activation"
            [ArgZ (GetVersion tx)])
  else mret tt.

Definition diffApplierValidateTxDiff (d : txDiff) : M unit :=
  stor ← gets diffStor;
  extern (CallValidateTxDiff d stor) (λ h, validateTxDiff env h d stor).

Definition checkTxFees (tx : Transaction) (info : fallibleValidationParams) : M unit :=
  feeChanges ←
    match txType tx with
    | ExchangeTransaction =>
        extern (CallCreateDiffForExchangeFeeValidation tx)
               (λ h, createDiffForExchangeFeeValidation env h tx)
    | InvokeScriptTransaction =>
        extern (CallCreateFeeDiffInvokeScriptWithProofs tx)
               (λ h, createFeeDiffInvokeScriptWithProofs env h tx)
    | InvokeExpressionTransaction =>
        extern (CallCreateFeeDiffInvokeExpressionWithProofs tx)
               (λ h, createFeeDiffInvokeExpressionWithProofs env h tx)
    | EthereumMetamaskTransaction =>
        extern (CallCreateFeeDiffEthereumInvokeScriptWithProofs tx)
               (λ h, createFeeDiffEthereumInvokeScriptWithProofs env h tx)
    | _ => fail (Errorf "failed to check tx fees: wrong tx type=%d (%T)" [])
    end;
  diffApplierValidateTxDiff (diff feeChanges).

Definition scCallAccountScriptWithTx (tx : Transaction) (params : appendTxParams) : M unit :=
  script (CallAccountScriptWithTx tx) (λ h, callAccountScriptWithTx env h tx params).

Definition scCallAccountScriptWithOrder (o : Order) (params : appendTxParams) : M unit :=
  script (CallAccountScriptWithOrder o) (λ h, callAccountScriptWithOrder env h o params).

Definition scCallAssetScript (tx : Transaction) (smartAsset : string)
    (params : appendTxParams) : M bool :=
  script (CallAssetScript tx smartAsset) (λ h, callAssetScript env h tx smartAsset params).

Definition txHandlerCheckTx (tx : Transaction) (ci : checkerInfo) : M txCheckerData :=
  extern (CallCheckTx tx) (λ h, checkTx env h tx ci).

(** The loop of [checkTransactionScripts] over the smart assets. *)
Fixpoint checkTransactionScripts_assets (tx : Transaction) (params : appendTxParams)
    (ride4DAppsActivated : bool) (txSmartAssets : list string) (scriptsRuns : Z) : M Z :=
  match txSmartAssets with
  | [] => mret scriptsRuns
  | smartAsset :: rest =>
      (* Check smart asset's script. *)
      r ← orReturn (scCallAssetScript tx smartAsset params)
             (λ err, Extend err "callAssetScript");
      if negb r then
        fail (Extend (Errorf "negative asset script result" []) "callAssetScript")
      else if bool_decide (txType tx = SetAssetScriptTransaction)
              && negb ride4DAppsActivated then
        (* Exception: don't count before Ride4DApps activation. *)
        checkTransactionScripts_assets tx params ride4DAppsActivated rest scriptsRuns
      else
        checkTransactionScripts_assets tx params ride4DAppsActivated rest
          (uint64 (scriptsRuns + 1))
  end.

(** This function is used for script validation of transaction that can't fail. *)
Definition checkTransactionScripts (tx : Transaction) (accountScripted : bool)
    (params : appendTxParams) : M (Z * txCheckerData) :=
  scriptsRuns ←
    (if accountScripted then
       (* Check script. *)
       orReturn (scCallAccountScriptWithTx tx params)
         (λ err, Extend err "callAccountScriptWithTx");;
       mret 1
     else mret 0);
  (* Check against state. *)
  checkerData ← txHandlerCheckTx tx (checkerInfoOf params);
  ride4DAppsActivated ← orReturn (isActivated Ride4DApps) (λ err, Extend err "isActivated");
  scriptsRuns ← checkTransactionScripts_assets tx params ride4DAppsActivated
                   (smartAssets checkerData) scriptsRuns;
  mret (scriptsRuns, checkerData).

Definition checkScriptsLimits (scriptsRuns : Z) (blockID : string) : M unit :=
  smartAccountsActivated ← isActivated SmartAccounts;
  ride4DAppsActivated ← isActivated Ride4DApps;
  if ride4DAppsActivated : bool then
    rideV5Activated ← orReturn (isActivated RideV5)
      (λ err, Wrap err "failed to check if feature %d is activated");
    let maxBlockComplexity := GetMaxScriptsComplexityInBlock env rideV5Activated in
    complexity ← gets (λ a, getTotalComplexity (sc a));
    if uint64 maxBlockComplexity <? complexity then
      rideV6Activated ← orReturn (isActivated RideV6)
        (λ err, Wrap err "failed to check if feature %d is activated");
      if rideV6Activated : bool then
        fail (Errorf "complexity of scripts (%d) in block '%s' exceeds limit of %d"
                [ArgZ complexity; ArgS blockID; ArgZ maxBlockComplexity])
      else
        notify (CallLog "warn" "Complexity of scripts (%d) in block '%s' exceeds limit of %d")
    else mret tt
  else if smartAccountsActivated : bool then
    if maxScriptsRunsInBlock env <? scriptsRuns then
      fail (Errorf "more scripts runs in block than allowed: %d > %d"
              [ArgZ scriptsRuns; ArgZ (maxScriptsRunsInBlock env)])
    else mret tt
  else mret tt.

Definition needToCheckOrdersSignatures (transaction : Transaction) : M (bool * bool) :=
  match asExchange transaction with
  | None => mret (false, false)
  | Some (o1, o2) =>
      o1Scripted ← orderIsScripted o1;
      o2Scripted ← orderIsScripted o2;
      mret (negb o1Scripted, negb o2Scripted)
  end.

Fixpoint saveTransactionIdByAddresses (addresses : list string) (txID blockID : string)
    : M unit :=
  match addresses with
  | [] => mret tt
  | addr :: rest =>
      extern (CallSaveTxIdByAddress addr txID blockID)
             (λ h, saveTxIdByAddress env h addr txID blockID);;
      saveTransactionIdByAddresses rest txID blockID
  end.

Definition commitTxApplication (tx : Transaction) (params : appendTxParams)
    (invocationRes : option invocationResult) (applicationRes : applicationResult)
    : M txSnapshot :=
  (* Add transaction ID to recent IDs. *)
  txID ← orReturn (lift (GetID tx))
    (λ err, TxCommitmentError (Errorf "failed to get tx id: %v" [ArgE err]));
  modify (withRecentTxIds (λ ids, {[ txID ]} ∪ ids));;
  (* Update script runs. *)
  modify (withTotalScriptsRuns (λ n, uint64 (n + resTotalScriptsRuns applicationRes)));;
  (* Update complexity. *)
  modify (withSc addRecentTxComplexity);;
  (* Save balance diff. *)
  stor ← gets diffStor;
  orReturn
    (extern (CallSaveTxDiff (diff (changes applicationRes)))
       (λ h, saveTxDiff env h (diff (changes applicationRes)) stor))
    (λ err, TxCommitmentError (Errorf "failed to save balance diff: %v" [ArgE err]));;
  modify (withDiffStor (λ ds, ds ++ [diff (changes applicationRes)]));;
  let currentMinerAddress := MustAddressFromPublicKey env (currentMinerPK params) in
  snapshot ←
    (if status applicationRes then
       (* We only perform tx in case it has not failed. *)
       let performerInfo :=
         {| piHeight := height (checkerInfoOf params);
            piBlockID := blockID (checkerInfoOf params);
            piCurrentMinerAddress := currentMinerAddress;
            piCheckerData := checkerData applicationRes |} in
       orReturn
         (extern (CallPerformTx tx (diff (changes applicationRes)))
            (λ h, performTx env h tx performerInfo invocationRes
                    (diff (changes applicationRes))))
         (λ err, TxCommitmentError (Errorf "failed to perform: %v" [ArgE err]))
     else mret {| regular := [] |});
  (if validatingUtx params then
     (* Save transaction to in-mem storage. *)
     orReturn
       (extern (CallWriteTransactionToMem tx (negb (status applicationRes)))
          (λ h, writeTransactionToMem env h tx (negb (status applicationRes))))
       (λ err, TxCommitmentError
                 (Errorf "failed to write transaction to in mem stor: %v" [ArgE err]))
   else
     (* Count tx fee. *)
     orReturn (extern (CallCountMinerFee tx) (λ h, countMinerFee env h tx))
       (λ err, TxCommitmentError (Errorf "failed to count miner fee: %v" [ArgE err]));;
     (* Save transaction to storage. *)
     orReturn
       (extern (CallWriteTransaction tx (negb (status applicationRes)))
          (λ h, writeTransaction env h tx (negb (status applicationRes))))
       (λ err, TxCommitmentError
                 (Errorf "failed to write transaction to storage: %v" [ArgE err])));;
  mret snapshot.

Definition verifyWavesTxSigAndData (tx : Transaction) (params : appendTxParams)
    (accountHasVerifierScript : bool) : M unit :=
  (* For transaction with SmartAccount we don't check signature. *)
  let checkTxSig := negb accountHasVerifierScript in
  '(checkOrder1, checkOrder2) ← needToCheckOrdersSignatures tx;
  let task := {| taskTx := tx; checkTxSig := checkTxSig;
                 checkOrder1 := checkOrder1; checkOrder2 := checkOrder2 |} in
  if validatingUtx params then
    extern (CallVerifyCheckTx task) (λ h, verifyCheckTx env h task)
  else
    extern (CallTrySend task) (λ h, trySend env h task).

Definition blockDifferCreateTransactionDiff (tx : Transaction) (b : BlockHeader)
    : M txBalanceChanges :=
  extern (CallCreateTransactionDiff tx) (λ h, createTransactionDiff env h tx b).

Definition blockDifferCreateFailedTransactionDiff (tx : Transaction) (b : BlockHeader)
    : M txBalanceChanges :=
  extern (CallCreateFailedTransactionDiff tx) (λ h, createFailedTransactionDiff env h tx b).

(** The result comes with the parameters as [applyInvokeScript] leaves
    them. *)
Definition handleInvoke (tx : Transaction) (info : fallibleValidationParams)
    : M (appendTxParams * invocationResult * applicationResult) :=
  (match txBody tx with
   | InvokeScriptWithProofs
   | InvokeExpressionTransactionWithProofs
   | EthereumTransaction (Some EthereumInvokeScriptTxKind) => mret tt
   | EthereumTransaction _ => fail (Errorf "unexpected ethereum tx kind (%T)" [])
   | _ => fail (Errorf "failed to handle invoke: wrong type of transaction (%T)" [])
   end : M unit);;
  r ← attempt (script (CallApplyInvokeScript tx) (λ h, applyInvokeScript env h tx info));
  match r with
  | Err err =>
      notify (CallLog "debug" "failed to apply InvokeScript transaction %s to state: %v");;
      fail err
  | Ok (acceptFailedLeft, invocationRes, applicationRes) =>
      mret (setAcceptFailed acceptFailedLeft (appendTxParamsOf info),
            invocationRes, applicationRes)
  end.

Definition countExchangeScriptsRuns (scriptsRuns : Z) : M Z :=
  (* Some bug in historical blockchain, no logic here. *)
  ride4DAppsActivated ← isActivated Ride4DApps;
  if negb ride4DAppsActivated then
    (* Don't count before Ride4DApps activation. *)
    mret 0
  else mret scriptsRuns.

(** The loop of [handleExchange] over the smart assets: [true] when every
    script passed, [false] when the loop returned the failed diff. *)
Fixpoint handleExchange_assets (tx : Transaction) (params : appendTxParams)
    (txSmartAssets : list string) : M bool :=
  match txSmartAssets with
  | [] => mret true
  | smartAsset :: rest =>
      r ← attempt (scCallAssetScript tx smartAsset params);
      match r with
      | Err err =>
          if negb (acceptFailed params) then fail err
          else (* Smart asset script failed, return failed diff. *) mret false
      | Ok res =>
          if negb res then mret false
          else handleExchange_assets tx params rest
      end
  end.

(** The result comes with the parameters as the method leaves them: the
    assignment to [info.acceptFailed] goes through the embedded pointer. *)
Definition handleExchange (tx : Transaction) (info : fallibleValidationParams)
    : M (appendTxParams * applicationResult) :=
  match asExchange tx with
  | None => fail (Errorf "failed to convert transaction to Exchange" [])
  | Some (o1, o2) =>
      (* If BlockV5 feature is not activated, we never accept failed transactions. *)
      let params :=
        setAcceptFailed (blockV5Activated (appendTxParamsOf info)
                         && acceptFailed (appendTxParamsOf info))
                        (appendTxParamsOf info) in
      (* At first, we call accounts and orders scripts which must not fail. *)
      scriptsRuns ←
        (if senderScripted info then
           (* Check script on account. *)
           scCallAccountScriptWithTx tx params;;
           mret 1
         else mret 0);
      (* Smart account trading. *)
      smartAccountTradingActivated ← isActivated SmartAccountTrading;
      scriptsRuns ←
        (if smartAccountTradingActivated : bool then
           (* Check orders scripts. *)
           o1Scripted ← orderIsScripted o1;
           o2Scripted ← orderIsScripted o2;
           scriptsRuns ←
             (if o1Scripted : bool then
                orReturn (scCallAccountScriptWithOrder o1 params)
                  (λ err, Wrap err "script failure on first order");;
                mret (uint64 (scriptsRuns + 1))
              else mret scriptsRuns);
           (if o2Scripted : bool then
              orReturn (scCallAccountScriptWithOrder o2 params)
                (λ err, Wrap err "script failure on second order");;
              mret (uint64 (scriptsRuns + 1))
            else mret scriptsRuns)
         else mret scriptsRuns);
      (* Validate transaction, orders and extract smart assets. *)
      checkerData ← txHandlerCheckTx tx (checkerInfoOf params);
      let txSmartAssets := smartAssets checkerData in
      (* Count total scripts runs. *)
      let scriptsRuns := uint64 (scriptsRuns + Z.of_nat (length txSmartAssets)) in
      scriptsRuns ← countExchangeScriptsRuns scriptsRuns;
      (* Create balance changes for both failure and success. *)
      failedChanges ← blockDifferCreateFailedTransactionDiff tx (block params);
      successfulChanges ← blockDifferCreateTransactionDiff tx (block params);
      (* Check smart assets' scripts. *)
      passed ← handleExchange_assets tx params txSmartAssets;
      if negb passed then
        mret (params, newApplicationResult false scriptsRuns failedChanges checkerData)
      else if acceptFailed params then
        (* If accepting failed, we must also check resulting balances. *)
        r ← attempt (diffApplierValidateTxDiff (diff successfulChanges));
        match r with
        | Err _ =>
            (* Not enough balance for successful diff = fail, return failed diff. *)
            mret (params, newApplicationResult false scriptsRuns failedChanges checkerData)
        | Ok _ =>
            mret (params, newApplicationResult true scriptsRuns successfulChanges checkerData)
        end
      else
        (* Return successful diff. *)
        mret (params, newApplicationResult true scriptsRuns successfulChanges checkerData)
  end.

Definition handleFallible (tx : Transaction) (info : fallibleValidationParams)
    : M (appendTxParams * option invocationResult * applicationResult) :=
  (if acceptFailed (appendTxParamsOf info) then checkTxFees tx info else mret tt);;
  match txType tx with
  | InvokeScriptTransaction | InvokeExpressionTransaction | EthereumMetamaskTransaction =>
      '(params, invocationRes, applicationRes) ← handleInvoke tx info;
      mret (params, Some invocationRes, applicationRes)
  | ExchangeTransaction =>
      '(params, applicationRes) ← handleExchange tx info;
      mret (params, None, applicationRes)
  | _ => fail (Errorf "transaction is not fallible" [])
  end.

Definition handleInvokeOrExchangeTransaction (tx : Transaction)
    (fallibleInfo : fallibleValidationParams)
    : M (appendTxParams * option invocationResult * applicationResult) :=
  orReturn (handleFallible tx fallibleInfo)
    (λ err,
       let msg :=
         match GetID tx with
         | Ok txID => "fallible validation failed for transaction '" +:+ txID +:+ "'"
         | Err _ => "fallible validation failed"
         end in
       Extend err msg).

Definition handleDefaultTransaction (tx : Transaction) (params : appendTxParams)
    (accountHasVerifierScript : bool) : M applicationResult :=
  (* Execute transaction's scripts, check against state. *)
  '(txScriptsRuns, checkerData) ← checkTransactionScripts tx accountHasVerifierScript params;
  (* Create balance diff of this tx. *)
  txChanges ← orReturn (blockDifferCreateTransactionDiff tx (block params))
                 (λ err, Extend err "create transaction diff");
  mret (newApplicationResult true txScriptsRuns txChanges checkerData).

(** What the switch of [appendTx] over the transaction type leaves behind. *)
Record dispatched : Type := {
  dTx : Transaction;
  dParams : appendTxParams;
  dApplicationRes : applicationResult;
  dInvocationResult : option invocationResult;
  needToValidateBalanceDiff : bool
}.

(** Check tx against state, check tx scripts, calculate balance changes:
    the switch of [appendTx]. *)
Definition appendTx_dispatch (tx : Transaction) (params : appendTxParams)
    (accountHasVerifierScript : bool) (senderAddr : string) : M dispatched :=
  let fallibleInfo :=
    {| appendTxParamsOf := params; senderScripted := accountHasVerifierScript;
       senderAddress := senderAddr |} in
  match txType tx with
  | InvokeScriptTransaction | InvokeExpressionTransaction | ExchangeTransaction =>
      (* Invoke and Exchange transactions should be handled differently.
         They may fail, and will be saved to blockchain anyway. *)
      '(params', invocationResult, applicationRes) ←
        orReturn (handleInvokeOrExchangeTransaction tx fallibleInfo)
          (λ err, Wrap err "failed to handle invoke or exchange transaction");
      (* Exchange and Invoke balances are validated in UTX when acceptFailed is false.
         When acceptFailed is true, balances are validated inside handleFallible(). *)
      mret {| dTx := tx; dParams := params'; dApplicationRes := applicationRes;
              dInvocationResult := invocationResult;
              needToValidateBalanceDiff :=
                validatingUtx params' && negb (acceptFailed params') |}
  | EthereumMetamaskTransaction =>
      match txBody tx with
      | EthereumTransaction _ =>
          kind ← orReturn
                   (extern (CallResolveTxKind tx)
                      (λ h, ResolveTxKind env h tx (blockRewardDistributionActivated params)))
                   (λ err, Wrap err "failed to guess ethereum transaction kind");
          let tx := setTxKind tx kind in
          match kind with
          | EthereumTransferWavesTxKind | EthereumTransferAssetsErc20TxKind =>
              applicationRes ←
                orReturn (handleDefaultTransaction tx params accountHasVerifierScript)
                  (λ err, Wrap err
                     "failed to handle ethereum transaction (type %s) with id %s, on height %d");
              (* In UTX balances are always validated. *)
              mret {| dTx := tx; dParams := params; dApplicationRes := applicationRes;
                      dInvocationResult := None;
                      needToValidateBalanceDiff := validatingUtx params |}
          | EthereumInvokeScriptTxKind =>
              let fallibleInfo :=
                {| appendTxParamsOf := params; senderScripted := accountHasVerifierScript;
                   senderAddress := senderAddr |} in
              '(params', invocationResult, applicationRes) ←
                orReturn (handleInvokeOrExchangeTransaction tx fallibleInfo)
                  (λ err, Wrap err
                     "failed to handle ethereum invoke script transaction (type %s) with id %s, on height %d");
              mret {| dTx := tx; dParams := params'; dApplicationRes := applicationRes;
                      dInvocationResult := invocationResult;
                      needToValidateBalanceDiff := false |}
          end
      | _ =>
          fail (Errorf
                  "failed to cast interface transaction to ethereum transaction structure" [])
      end
  | _ =>
      applicationRes ←
        orReturn (handleDefaultTransaction tx params accountHasVerifierScript)
          (λ err,
             match GetID tx with
             | Err _ => Wrap err "failed to generate transaction ID"
             | Ok id => Wrap err ("failed to handle transaction '" +:+ id +:+ "'")
             end);
      (* In UTX balances are always validated. *)
      mret {| dTx := tx; dParams := params; dApplicationRes := applicationRes;
              dInvocationResult := None;
              needToValidateBalanceDiff := validatingUtx params |}
  end.

(** The body of [appendTx], before its deferred calls. *)
Definition appendTx_body (tx : Transaction) (params : appendTxParams) : M unit :=
  let blockID := blockID (checkerInfoOf params) in
  (* Check that Protobuf transactions are accepted. *)
  checkProtobufVersion tx (blockV5Activated params);;
  (* Check transaction for duplication of its ID. *)
  recentIds ← gets recentTxIds;
  orReturn (checkDuplicateTxIds tx recentIds (Timestamp (block params)))
    (λ err, Extend err "check duplicate tx ids");;
  (* Verify tx signature and internal data correctness. *)
  senderAddr ← orReturn (lift (GetSender tx))
                  (λ err, Extend err "failed to get sender addr by pk");
  senderWavesAddr ← orReturn (lift (ToWavesAddress env senderAddr))
    (λ err, Wrap err "failed to transform (%T) address type to WavesAddress type");
  accountHasVerifierScript ←
    orReturn (extern (CallNewestAccountHasVerifier senderWavesAddr)
                (λ h, newestAccountHasVerifier env h senderWavesAddr))
      (λ err, Extend err "account has verifier");
  orReturn (verifyWavesTxSigAndData tx params accountHasVerifierScript)
    (λ err, Extend err "tx signature or data verification failed");;
  (* Check tx against state, check tx scripts, calculate balance changes. *)
  d ← appendTx_dispatch tx params accountHasVerifierScript senderAddr;
  let tx := dTx d in
  let params := dParams d in
  let applicationRes := dApplicationRes d in
  (if needToValidateBalanceDiff d then
     (* Validate balance diff for negative balances. *)
     orReturn (diffApplierValidateTxDiff (diff (changes applicationRes)))
       (λ err, Extend err "validate transaction diff")
   else mret tt);;
  (* Check complexity limits and scripts runs limits. *)
  total ← gets totalScriptsRuns;
  orReturn
    (checkScriptsLimits (uint64 (total + resTotalScriptsRuns applicationRes)) blockID)
    (λ err, Extend (Errorf "%s: %v" [ArgS blockID; ArgE err]) "check scripts limits");;
  (* Perform state changes, save balance changes, write tx to storage. *)
  txID ← orReturn (lift (GetID tx)) (λ err, Extend err "get transaction id");
  r ← attempt (commitTxApplication tx params (dInvocationResult d) applicationRes);
  match r with
  | Err err =>
      notify
        (CallLog "error"
           "failed to commit transaction (id %s) after successful validation; this should NEVER happen");;
      fail err
  | Ok _ => mret tt
  end;;
  (* Store additional data for API: transaction by address. *)
  buildApiData ← gets buildApiData;
  if negb (validatingUtx params) && buildApiData then
    orReturn (saveTransactionIdByAddresses (addrs (changes applicationRes)) txID blockID)
      (λ err, Extend err "save transaction id by addresses")
  else mret tt.

Definition appendTx (tx : Transaction) (params : appendTxParams) : M unit :=
  r ← attempt (appendTx_body tx params);
  (* The deferred calls. *)
  modify (withSc resetRecentTxComplexity);;
  notify CallDropUncertain;;
  lift r.

(** For UTX validation. *)
Definition validateNextTx (tx : Transaction) (currentTimestamp parentTimestamp : Z)
    (version : Z) (acceptFailed : bool) : M unit :=
  block ← orReturn currentBlock (λ err, Extend err "failed get currentBlock");
  blockInfo ← orReturn currentBlockInfo (λ err, Extend err "failed get currentBlockInfo");
  rideV5Activated ← orReturn (isActivated RideV5)
    (λ err, Extend err "failed to check 'RideV5' is activated");
  rideV6Activated ← orReturn (isActivated RideV6)
    (λ err, Extend err "failed to check 'RideV6' is activated");
  blockRewardDistribution ← orReturn (isActivated BlockRewardDistribution)
    (λ err, Extend err "failed to check 'BlockRewardDistribution' is activated");
  let blockInfo := {| biTimestamp := currentTimestamp; biHeight := biHeight blockInfo |} in
  let checkerInfo :=
    {| currentTimestamp := currentTimestamp;
       parentTimestamp := parentTimestamp;
       blockID := BlockID block;
       blockVersion := version;
       height := biHeight blockInfo;
       ciRideV5Activated := rideV5Activated;
       ciRideV6Activated := rideV6Activated;
       blockRewardDistribution := blockRewardDistribution |} in
  blockV5Activated ← orReturn (isActivated BlockV5)
    (λ err, Extend err "failed to check 'BlockV5' is activated");
  consensusImprovementsActivated ← orReturn (isActivated ConsensusImprovements)
    (λ err, Extend err "failed to check 'ConsensusImprovements' is activated");
  blockRewardDistributionActivated ← orReturn (isActivated BlockRewardDistribution)
    (λ err, Extend err "failed to check 'BlockRewardDistribution' is activated");
  invokeExpressionActivated ← orReturn (isActivated InvokeExpression)
    (λ err, Extend err "failed to check 'InvokeExpression' is activated");
  notify (CallSetApplierInfo checkerInfo);;
  let appendTxArgs :=
    {| chans := false; (* nil because validatingUtx == true *)
       checkerInfoOf := checkerInfo;
       blockInfo := blockInfo;
       block := block;
       acceptFailed := acceptFailed;
       blockV5Activated := blockV5Activated;
       rideV5Activated := rideV5Activated;
       rideV6Activated := rideV6Activated;
       consensusImprovementsActivated := consensusImprovementsActivated;
       blockRewardDistributionActivated := blockRewardDistributionActivated;
       invokeExpressionActivated := invokeExpressionActivated;
       validatingUtx := true;
       currentMinerPK := "" |} in
  orReturn (appendTx tx appendTxArgs) NewInfoMsg.

Definition reset : M unit :=
  modify (withSc resetComplexity);;
  modify (withTotalScriptsRuns (λ _, 0));;
  modify (withRecentTxIds (λ _, ∅));;
  modify (withDiffStor (λ _, []));;
  notify CallBlockDifferReset.

End Methods.

(** ** A concrete chain state, for the examples

    Every collaborator succeeds, but for the replies the arguments set: the
    activated features, the IDs in durable storage, the outcome of every asset
    script, the validation of a diff, the smart assets of a transaction. *)

Definition feeOnly : txBalanceChanges := {| addrs := ["alice"]; diff := [("alice", -1)] |}.

Definition transfer : txBalanceChanges :=
  {| addrs := ["alice"; "bob"]; diff := [("alice", -11); ("bob", 10)] |}.

Definition chain (features : Feature → bool) (stored : list string)
    (assetScript : string → result bool) (validate : txDiff → result unit)
    (assets : list string) : Collaborators :=
  {| settings := {| AddressSchemeCharacter := 87;
                    StolenAliasesWindowTimeStart := 100;
                    StolenAliasesWindowTimeEnd := 200 |};
     maxScriptsRunsInBlock := 100;
     GetMaxScriptsComplexityInBlock :=
       λ rideV5Activated, if rideV5Activated then 2500000 else 1000000;
     MustAddressFromPublicKey := λ pk, pk;
     ToWavesAddress := λ addr, Ok addr;
     newestIsActivated := λ _ f, Ok (features f);
     readTransaction := λ _ id,
       if bool_decide (id ∈ stored) then Ok tt else Err (Errorf "not found" []);
     orderScriptedAccount := λ _ _, Ok true;
     readNewestBlockHeaderByHeight := λ _,
       Ok {| Timestamp := 50; BlockID := "block"; Version := 5;
             GeneratorPublicKey := "miner" |};
     NewestBlockInfoByHeight := λ _, Ok {| biTimestamp := 50; biHeight := 7 |};
     newestAccountHasVerifier := λ _ _, Ok true;
     createDiffForExchangeFeeValidation := λ _ _, Ok feeOnly;
     createFeeDiffInvokeScriptWithProofs := λ _ _, Ok feeOnly;
     createFeeDiffInvokeExpressionWithProofs := λ _ _, Ok feeOnly;
     createFeeDiffEthereumInvokeScriptWithProofs := λ _ _, Ok feeOnly;
     validateTxDiff := λ _ d _, validate d;
     callAccountScriptWithTx := λ _ _ _, (Ok tt, 10);
     callAccountScriptWithOrder := λ _ _ _, (Ok tt, 10);
     callAssetScript := λ _ _ asset _, (assetScript asset, 10);
     checkTx := λ _ _ _, Ok {| smartAssets := assets |};
     createTransactionDiff := λ _ _ _, Ok transfer;
     createFailedTransactionDiff := λ _ _ _, Ok feeOnly;
     applyInvokeScript := λ _ _ info,
       (Ok (blockV5Activated (appendTxParamsOf info) && acceptFailed (appendTxParamsOf info),
            {| invocationID := "inv" |},
            newApplicationResult true 1 transfer {| smartAssets := [] |}), 10);
     ResolveTxKind := λ _ _ _, Ok EthereumTransferWavesTxKind;
     verifyCheckTx := λ _ _, Ok tt;
     trySend := λ _ _, Ok tt;
     saveTxDiff := λ _ _ _, Ok tt;
     performTx := λ _ _ _ _ _, Ok {| regular := [] |};
     writeTransactionToMem := λ _ _ _, Ok tt;
     countMinerFee := λ _ _, Ok tt;
     writeTransaction := λ _ _ _, Ok tt;
     saveTxIdByAddress := λ _ _ _ _, Ok tt |}.

Definition allFeatures : Feature → bool := λ _, true.

Definition passes : string → result bool := λ _, Ok true.

Definition enough : txDiff → result unit := λ _, Ok tt.

Definition insufficient : txDiff → result unit :=
  λ _, Err (Errorf "negative balance" []).

Definition txOf (type : TransactionType) (body : TxBody) (id : string) : Transaction :=
  {| txType := type; txBody := body; GetID := Ok id; GetSender := Ok "alice";
     IsProtobufTx := false; GetVersion := 2 |}.

Definition paramsOf (validatingUtx acceptFailed blockV5Activated : bool) : appendTxParams :=
  {| chans := negb validatingUtx;
     checkerInfoOf :=
       {| currentTimestamp := 50; parentTimestamp := 40; blockID := "block";
          blockVersion := 5; height := 7; ciRideV5Activated := true;
          ciRideV6Activated := true; blockRewardDistribution := true |};
     blockInfo := {| biTimestamp := 50; biHeight := 7 |};
     block := {| Timestamp := 50; BlockID := "block"; Version := 5;
                 GeneratorPublicKey := "miner" |};
     acceptFailed := acceptFailed;
     blockV5Activated := blockV5Activated;
     rideV5Activated := true;
     rideV6Activated := true;
     consensusImprovementsActivated := true;
     blockRewardDistributionActivated := true;
     invokeExpressionActivated := true;
     validatingUtx := validatingUtx;
     currentMinerPK := "miner" |}.

Definition newTxAppender : txAppender :=
  {| sc := {| totalComplexity := 0; recentTxComplexity := 0 |};
     diffStor := []; recentTxIds := ∅; totalScriptsRuns := 0;
     buildApiData := true; calls := [] |}.

Definition exchangeTx : Transaction :=
  txOf ExchangeTransaction
    (ExchangeBody {| orderID := "buy" |} {| orderID := "sell" |}) "ex1".

Definition fallibleOf (p : appendTxParams) : fallibleValidationParams :=
  {| appendTxParamsOf := p; senderScripted := true; senderAddress := "alice" |}.

Definition seenAppender (id : string) : txAppender :=
  {| sc := {| totalComplexity := 500; recentTxComplexity := 20 |};
     diffStor := [diff transfer]; recentTxIds := {[ id ]}; totalScriptsRuns := 3;
     buildApiData := true; calls := [] |}.

Definition busyAppender : txAppender :=
  {| sc := {| totalComplexity := 2499990; recentTxComplexity := 20 |};
     diffStor := []; recentTxIds := ∅; totalScriptsRuns := 3;
     buildApiData := true; calls := [] |}.

Definition setAssetScriptTx : Transaction :=
  txOf SetAssetScriptTransaction OtherBody "sas1".

Definition beforeRide4DApps : Feature → bool :=
  λ f, match f with Ride4DApps => false | _ => true end.

Definition beforeBlockV5 : Feature → bool :=
  λ f, match f with BlockV5 | RideV5 | RideV6 => false | _ => true end.

(** The script of asset "A1" returns a negative result, every other passes. *)
Definition rejectsA1 : string → result bool :=
  λ asset, if String.eqb asset "A1" then Ok false else Ok true.

(** The script of asset "A1" fails with an error, every other passes. *)
Definition failsA1 : string → result bool :=
  λ asset, if String.eqb asset "A1" then Err (Errorf "script failure" []) else Ok true.

(** ** The vocabulary of the statements *)

(** How many of the calls of a log satisfy [p]. *)
Fixpoint countCalls (p : Call → bool) (cs : list Call) : Z :=
  match cs with
  | [] => 0
  | c :: cs => (if p c then 1 else 0) + countCalls p cs
  end.

Definition made (p : Call → bool) (a : txAppender) : Z := countCalls p (calls a).

(** Kinds of calls. *)
Definition isScriptRun (c : Call) : bool :=
  match c with
  | CallAccountScriptWithTx _ _ | CallAccountScriptWithOrder _ _ | CallAssetScript _ _ _ => true
  | _ => false
  end.

Definition isAccountScriptRun (c : Call) : bool :=
  match c with
  | CallAccountScriptWithTx _ _ | CallAccountScriptWithOrder _ _ => true
  | _ => false
  end.

Definition isAssetScriptRun (c : Call) : bool :=
  match c with CallAssetScript _ _ _ => true | _ => false end.

(** A script run that did not pass: an error, or a negative result. *)
Definition isFailedScriptRun (c : Call) : bool :=
  match c with
  | CallAccountScriptWithTx _ (Err _) | CallAccountScriptWithOrder _ (Err _)
  | CallAssetScript _ _ (Err _) | CallAssetScript _ _ (Ok false) => true
  | _ => false
  end.

Definition isValidateTxDiff (c : Call) : bool :=
  match c with CallValidateTxDiff _ _ _ => true | _ => false end.

Definition isReadTransaction (c : Call) : bool :=
  match c with CallReadTransaction _ _ => true | _ => false end.

Definition isPerformTx (c : Call) : bool :=
  match c with CallPerformTx _ _ _ => true | _ => false end.

Definition isDurableWrite (c : Call) : bool :=
  match c with CallWriteTransaction _ _ _ | CallCountMinerFee _ _ => true | _ => false end.

(** A successful write to the in-memory storage of a transaction with the ID
    of [tx]. *)
Definition isWriteToMemOf (tx : Transaction) (c : Call) : bool :=
  match c with
  | CallWriteTransactionToMem tx' _ (Ok _) =>
      match GetID tx', GetID tx with
      | Ok id', Ok id => String.eqb id' id
      | _, _ => false
      end
  | _ => false
  end.

(** Relations between the log before a run and the log after it. *)
Definition keeps (p : Call → bool) : relation (list Call) :=
  λ l l', countCalls p l' = countCalls p l.

Definition more (p : Call → bool) : relation (list Call) :=
  λ l l', countCalls p l < countCalls p l'.

(** [always R m]: whatever [m] returns, the log after it is [R]-related to
    the log before. *)
Definition always {A} (R : relation (list Call)) (m : M A) : Prop :=
  ∀ a, R (calls a) (calls (m a).2).

(** [onOk R m]: the same when [m] returns no error. *)
Definition onOk {A} (R : relation (list Call)) (m : M A) : Prop :=
  ∀ a x a', m a = (Ok x, a') → R (calls a) (calls a').

(** [returns Q m]: a value that [m] returns satisfies [Q]. *)
Definition returns {A} (Q : A → Prop) (m : M A) : Prop :=
  ∀ a x a', m a = (Ok x, a') → Q x.

Definition inStolenAliasesWindow (env : Collaborators) (timestamp : Z) : bool :=
  (StolenAliasesWindowTimeStart (settings env) <=? timestamp)
  && (timestamp <=? StolenAliasesWindowTimeEnd (settings env)).

(** The duplicate-ID error of [id], as [checkDuplicateTxIds] returns it for
    a transaction of type [type]: CreateAlias gets it as "alias taken". *)
Definition duplicateIDError (type : TransactionType) (id : string) : error :=
  if decide (type = CreateAliasTransaction)
  then NewAliasTaken (alreadyInState id)
  else alreadyInState id.

(** The features storage answers that [f] is activated, or is not. *)
Definition activated (env : Collaborators) (f : Feature) (b : bool) : Prop :=
  ∀ h, newestIsActivated env h f = Ok b.

Definition isFallibleType (type : TransactionType) : bool :=
  match type with
  | InvokeScriptTransaction | InvokeExpressionTransaction | ExchangeTransaction => true
  | _ => false
  end.

(** The types that go through [handleDefaultTransaction] whatever they hold. *)
Definition isDefaultType (type : TransactionType) : bool :=
  match type with
  | InvokeScriptTransaction | InvokeExpressionTransaction | ExchangeTransaction
  | EthereumMetamaskTransaction => false
  | _ => true
  end.

Definition isDropUncertain (c : Call) : bool :=
  match c with CallDropUncertain => true | _ => false end.

Definition isAssetScriptRunOf (tx : Transaction) (c : Call) : Prop :=
  ∃ asset reply, c = CallAssetScript tx asset reply.

(** Two appenders that differ in the log and in the script caller only. *)
Definition sameStores (a a' : txAppender) : Prop :=
  diffStor a' = diffStor a ∧ recentTxIds a' = recentTxIds a
  ∧ totalScriptsRuns a' = totalScriptsRuns a ∧ buildApiData a' = buildApiData a.

(** The calls that [a'] has and [a] has not, counted. *)
Definition madeSince (p : Call → bool) (a a' : txAppender) : Z := made p a' - made p a.

(** The outcome of [handleExchange]: a result with the failed diff, a result
    with the successful diff, or an error. *)
Definition failedResult (r : result (appendTxParams * applicationResult)) : Prop :=
  ∃ p res, r = Ok (p, res) ∧ status res = false.

Definition successfulResult (r : result (appendTxParams * applicationResult)) : Prop :=
  ∃ p res, r = Ok (p, res) ∧ status res = true.

(** What [handleExchange] returns, by the last call it made and its reply;
    [effective] is the flag [acceptFailed] after the override. *)
Definition exchangeOutcome (effective : bool)
    (r : result (appendTxParams * applicationResult)) (c : Call) : Prop :=
  match c with
  | CallAccountScriptWithTx _ (Err e) => r = Err e
  | CallAccountScriptWithOrder _ (Err e) => ∃ msg, r = Err (Wrap e msg)
  | CallAssetScript _ _ (Err e) => if effective then failedResult r else r = Err e
  | CallAssetScript _ _ (Ok false) => failedResult r
  | CallAssetScript _ _ (Ok true) => effective = false ∧ successfulResult r
  | CallValidateTxDiff _ _ (Err _) => effective = true ∧ failedResult r
  | CallValidateTxDiff _ _ (Ok _) => effective = true ∧ successfulResult r
  | _ => True
  end.

Definition effectiveAcceptFailed (info : fallibleValidationParams) : bool :=
  blockV5Activated (appendTxParamsOf info) && acceptFailed (appendTxParamsOf info).

Definition isFeeDiffForExchange (c : Call) : bool :=
  match c with CallCreateDiffForExchangeFeeValidation _ _ => true | _ => false end.

(** What [handleExchange] asks the diff applier to validate: the successful
    diff, against the working set of diffs. *)
Definition validatesSuccessfulDiff (tx : Transaction) (stor : diffStorage) (cs : list Call)
    (c : Call) : Prop :=
  match c with
  | CallValidateTxDiff d stor' _ =>
      stor' = stor
      ∧ ∃ successfulChanges,
          CallCreateTransactionDiff tx (Ok successfulChanges) ∈ cs
          ∧ d = diff successfulChanges
  | _ => True
  end.

(** The contract of [callAssetScript], whose code is in another file: unless
    failed transactions are accepted, a script that returns a negative result
    is reported with an error. *)
Definition rejectsWithError (env : Collaborators) : Prop :=
  ∀ h tx asset params,
    acceptFailed params = false → (callAssetScript env h tx asset params).1 ≠ Ok false.

(** The checks of [appendTx] that come before its switch over the
    transaction type: what they find out about the sender. *)
Definition appendTx_checks (env : Collaborators) (tx : Transaction)
    (params : appendTxParams) : M (bool * string) :=
  (* Check that Protobuf transactions are accepted. *)
  checkProtobufVersion tx (blockV5Activated params);;
  (* Check transaction for duplication of its ID. *)
  recentIds ← gets recentTxIds;
  orReturn (checkDuplicateTxIds env tx recentIds (Timestamp (block params)))
    (λ err, Extend err "check duplicate tx ids");;
  (* Verify tx signature and internal data correctness. *)
  senderAddr ← orReturn (lift (GetSender tx))
                  (λ err, Extend err "failed to get sender addr by pk");
  senderWavesAddr ← orReturn (lift (ToWavesAddress env senderAddr))
    (λ err, Wrap err "failed to transform (%T) address type to WavesAddress type");
  accountHasVerifierScript ←
    orReturn (extern (CallNewestAccountHasVerifier senderWavesAddr)
                (λ h, newestAccountHasVerifier env h senderWavesAddr))
      (λ err, Extend err "account has verifier");
  orReturn (verifyWavesTxSigAndData env tx params accountHasVerifierScript)
    (λ err, Extend err "tx signature or data verification failed");;
  mret (accountHasVerifierScript, senderAddr).

(** The lookups of [validateNextTx], and the parameters that it makes of
    them for [appendTx]. *)
Definition validateNextTx_params (env : Collaborators)
    (currentTimestamp parentTimestamp : Z) (version : Z) (acceptFailed : bool)
    : M appendTxParams :=
  block ← orReturn (currentBlock env) (λ err, Extend err "failed get currentBlock");
  blockInfo ← orReturn (currentBlockInfo env)
                 (λ err, Extend err "failed get currentBlockInfo");
  rideV5Activated ← orReturn (isActivated env RideV5)
    (λ err, Extend err "failed to check 'RideV5' is activated");
  rideV6Activated ← orReturn (isActivated env RideV6)
    (λ err, Extend err "failed to check 'RideV6' is activated");
  blockRewardDistribution ← orReturn (isActivated env BlockRewardDistribution)
    (λ err, Extend err "failed to check 'BlockRewardDistribution' is activated");
  let blockInfo := {| biTimestamp := currentTimestamp; biHeight := biHeight blockInfo |} in
  let checkerInfo :=
    {| currentTimestamp := currentTimestamp;
       parentTimestamp := parentTimestamp;
       blockID := BlockID block;
       blockVersion := version;
       height := biHeight blockInfo;
       ciRideV5Activated := rideV5Activated;
       ciRideV6Activated := rideV6Activated;
       blockRewardDistribution := blockRewardDistribution |} in
  blockV5Activated ← orReturn (isActivated env BlockV5)
    (λ err, Extend err "failed to check 'BlockV5' is activated");
  consensusImprovementsActivated ← orReturn (isActivated env ConsensusImprovements)
    (λ err, Extend err "failed to check 'ConsensusImprovements' is activated");
  blockRewardDistributionActivated ← orReturn (isActivated env BlockRewardDistribution)
    (λ err, Extend err "failed to check 'BlockRewardDistribution' is activated");
  invokeExpressionActivated ← orReturn (isActivated env InvokeExpression)
    (λ err, Extend err "failed to check 'InvokeExpression' is activated");
  notify (CallSetApplierInfo checkerInfo);;
  mret {| chans := false;
          checkerInfoOf := checkerInfo;
          blockInfo := blockInfo;
          block := block;
          acceptFailed := acceptFailed;
          blockV5Activated := blockV5Activated;
          rideV5Activated := rideV5Activated;
          rideV6Activated := rideV6Activated;
          consensusImprovementsActivated := consensusImprovementsActivated;
          blockRewardDistributionActivated := blockRewardDistributionActivated;
          invokeExpressionActivated := invokeExpressionActivated;
          validatingUtx := true;
          currentMinerPK := "" |}.

(** The error of a lookup of [validateNextTx] that failed. *)
Definition lookupError (c : Call) : option error :=
  match c with
  | CallReadNewestBlockHeaderByHeight (Err e)
  | CallNewestBlockInfoByHeight (Err e)
  | CallNewestIsActivated _ (Err e) => Some e
  | _ => None
  end.

(** ** Further vocabulary: the stores of the appender and the commit *)

Definition isSaveTxDiff (c : Call) : bool :=
  match c with CallSaveTxDiff _ _ => true | _ => false end.

Definition isTrySend (c : Call) : bool :=
  match c with CallTrySend _ _ => true | _ => false end.

Definition isVerifyCheckTx (c : Call) : bool :=
  match c with CallVerifyCheckTx _ _ => true | _ => false end.

Definition isWriteToMem (c : Call) : bool :=
  match c with CallWriteTransactionToMem _ _ _ => true | _ => false end.

Definition isSaveTxIdByAddress (c : Call) : bool :=
  match c with CallSaveTxIdByAddress _ _ _ _ => true | _ => false end.

Definition isApplyInvokeScript (c : Call) : bool :=
  match c with CallApplyInvokeScript _ _ => true | _ => false end.

(** The creation of a fee diff, by any of the four functions of [checkTxFees]. *)
Definition isCreateFeeDiff (c : Call) : bool :=
  match c with
  | CallCreateDiffForExchangeFeeValidation _ _
  | CallCreateFeeDiffInvokeScriptWithProofs _ _
  | CallCreateFeeDiffInvokeExpressionWithProofs _ _
  | CallCreateFeeDiffEthereumInvokeScriptWithProofs _ _ => true
  | _ => false
  end.

(** [steady R m]: whatever [m] returns, the appender after it is [R]-related
    to the appender before. *)
Definition steady {A} (R : relation txAppender) (m : M A) : Prop :=
  ∀ a, R a (m a).2.

(** What a method that only checks leaves behind: the stores and the
    complexity of the committed transactions are as they were, and no diff
    was saved. *)
Definition unchanged : relation txAppender := λ a a',
  sameStores a a'
  ∧ totalComplexity (sc a') = totalComplexity (sc a)
  ∧ keeps isSaveTxDiff (calls a) (calls a').

(** Either nothing changed, or the saving of a diff was asked for. *)
Definition unchangedOrSaved : relation txAppender := λ a a',
  unchanged a a' ∨ more isSaveTxDiff (calls a) (calls a').

(** The verification of [tx] that [verifyWavesTxSigAndData] asks for: made
    on the spot in pool mode, sent to the verifier channels in block mode. *)
Definition verification (params : appendTxParams) (task : verifyTask)
    (reply : result unit) : Call :=
  if validatingUtx params then CallVerifyCheckTx task reply else CallTrySend task reply.

(** The error of [appendTx] for a transaction whose ID is in the recent-ID
    set: of the version check if this one fails, of the duplicate check
    otherwise. *)
Definition repeatedError (tx : Transaction) (params : appendTxParams) (id : string) : error :=
  if IsProtobufTx tx && negb (blockV5Activated params)
  then Errorf "bad transaction version %v before blockV5 activation" [ArgZ (GetVersion tx)]
  else Extend (duplicateIDError (txType tx) id) "check duplicate tx ids".

(** The transactions that the duplicate check lets through whatever their ID. *)
Definition exemptFromDuplicateCheck (env : Collaborators) (tx : Transaction)
    (timestamp : Z) : bool :=
  bool_decide (txType tx = PaymentTransaction)
  || bool_decide (txType tx = CreateAliasTransaction) && inStolenAliasesWindow env timestamp.

(** The runs of the asset scripts of [assets] on [tx], all passing. *)
Definition passedAssetScripts (tx : Transaction) (assets : list string) : list Call :=
  map (λ asset, CallAssetScript tx asset (Ok true)) assets.

(** The error of [checkTransactionScripts] for a script run that did not
    pass. *)
Definition scriptError (c : Call) : error :=
  match c with
  | CallAccountScriptWithTx _ (Err e) => Extend e "callAccountScriptWithTx"
  | CallAssetScript _ _ (Err e) => Extend e "callAssetScript"
  | _ => Extend (Errorf "negative asset script result" []) "callAssetScript"
  end.

(** The writes of [commitTxApplication] for [tx], all successful. *)
Definition writesOf (tx : Transaction) (params : appendTxParams) (failed : bool) : list Call :=
  if validatingUtx params
  then [CallWriteTransactionToMem tx failed (Ok tt)]
  else [CallCountMinerFee tx (Ok tt); CallWriteTransaction tx failed (Ok tt)].

Definition isWrite (c : Call) : bool :=
  match c with
  | CallWriteTransactionToMem _ _ _ | CallCountMinerFee _ _ | CallWriteTransaction _ _ _ => true
  | _ => false
  end.

(** The calls of [checkTransactionScripts] before the loop, all successful. *)
Definition checkedAgainstState (tx : Transaction) (accountScripted : bool)
    (cd : txCheckerData) (ride4DAppsActivated : bool) : list Call :=
  (if accountScripted then [CallAccountScriptWithTx tx (Ok tt)] else [])
  ++ [CallCheckTx tx (Ok cd); CallNewestIsActivated Ride4DApps (Ok ride4DAppsActivated)].

(** The script runs that [checkTransactionScripts] counts. *)
Definition countedScriptsRuns (tx : Transaction) (accountScripted : bool)
    (cd : txCheckerData) (ride4DAppsActivated : bool) : Z :=
  (if accountScripted then 1 else 0)
  + (if bool_decide (txType tx = SetAssetScriptTransaction) && negb ride4DAppsActivated
     then 0 else Z.of_nat (length (smartAssets cd))).

(** The lookups of [needToCheckOrdersSignatures] for a task that checks, or
    not, the signatures of the orders of [tx]: none when [tx] is not an
    exchange. *)
Definition orderLookups (tx : Transaction) (task : verifyTask) : list Call :=
  match asExchange tx with
  | None => []
  | Some (o1, o2) =>
      [CallOrderScriptedAccount o1 (Ok (negb (checkOrder1 task)));
       CallOrderScriptedAccount o2 (Ok (negb (checkOrder2 task)))]
  end.

(** The successful savings of [txID] for [addresses], in order. *)
Definition savedByAddresses (addresses : list string) (txID blockID : string) : list Call :=
  map (λ addr, CallSaveTxIdByAddress addr txID blockID (Ok tt)) addresses.

(** A verification of [tx], made on the spot, that passed. *)
Definition isVerificationOnTheSpot (tx : Transaction) (c : Call) : Prop :=
  ∃ task, c = CallVerifyCheckTx task (Ok tt) ∧ taskTx task = tx.

(** [adds P]: the log grew, by calls one of which satisfies [P]. *)
Definition adds (P : Call → Prop) : relation (list Call) :=
  λ l l', ∃ cs, l' = l ++ cs ∧ Exists P cs.

(** The creation of the fee diff of [tx] by the function that [checkTxFees]
    takes for its type; [None] for a type that [checkTxFees] refuses. *)
Definition feeDiffCall (tx : Transaction) (reply : result txBalanceChanges) : option Call :=
  match txType tx with
  | ExchangeTransaction => Some (CallCreateDiffForExchangeFeeValidation tx reply)
  | InvokeScriptTransaction => Some (CallCreateFeeDiffInvokeScriptWithProofs tx reply)
  | InvokeExpressionTransaction => Some (CallCreateFeeDiffInvokeExpressionWithProofs tx reply)
  | EthereumMetamaskTransaction =>
      Some (CallCreateFeeDiffEthereumInvokeScriptWithProofs tx reply)
  | _ => None
  end.

Definition isEthereumTransfer (kind : EthereumTxKind) : bool :=
  match kind with
  | EthereumTransferWavesTxKind | EthereumTransferAssetsErc20TxKind => true
  | EthereumInvokeScriptTxKind => false
  end.

(** ** Appending a block *)

(** [int64(z)]: the low 64 bits of [z], read as a signed integer. *)
Definition int64 (z : Z) : Z := (z + 2 ^ 63) mod 2 ^ 64 - 2 ^ 63.

(** Of a balance profile and of a balance diff, the field that the appender
    reads; both are named [balance] in the source. *)
Record balanceProfile : Type := { balance : Z }.

Record balanceDiff : Type := { diffBalance : Z }.

Module appendBlockParams.

Record t : Type := {
  transactions : list Transaction;
  chans : bool;                   (* whether the verifier channels are set *)
  block : BlockHeader;
  parent : option BlockHeader;
  height : Z
}.

End appendBlockParams.

(** The calls to the collaborators that only [appendBlock] uses, with their
    replies.  The entries of the map that [balanceDiffFromTxDiff] returns come
    in the order in which the loop of [createInitialBlockSnapshot] visits
    them, which Go leaves unspecified. *)
Inductive BlockCall : Type :=
| CallCreateMinerAndRewardDiff (block : BlockHeader) (hasParent : bool) (reply : result txDiff)
| CallBalanceDiffFromTxDiff (d : txDiff) (reply : result (list (string * balanceDiff)))
| CallNewestWavesBalance (addr : string) (reply : result balanceProfile)
| CallSaveCurFeeDistr (block : BlockHeader) (reply : result unit).

(** Their replies may depend on the calls made so far, of both logs. *)
Record BlockCollaborators : Type := {
  createMinerAndRewardDiff :
    list Call → list BlockCall → BlockHeader → bool → result txDiff;
  balanceDiffFromTxDiff :
    list Call → list BlockCall → txDiff → result (list (string * balanceDiff));
  newestWavesBalance : list Call → list BlockCall → string → result balanceProfile;
  saveCurFeeDistr : list Call → list BlockCall → BlockHeader → result unit
}.

(** The appender, with the log of these calls. *)
Record blockAppender : Type := {
  appender : txAppender;
  blockCalls : list BlockCall
}.

(** The monad of [appendBlock]: state and errors, as for the other methods. *)
Definition B (A : Type) : Type := blockAppender → result A * blockAppender.

#[global] Instance B_ret : MRet B := λ A x s, (Ok x, s).

#[global] Instance B_bind : MBind B := λ A C f m s,
  match m s with
  | (Ok x, s') => f x s'
  | (Err e, s') => (Err e, s')
  end.

(** A method of the appender, run on the appender of a block. *)
Definition inAppender {A} (m : M A) : B A := λ s,
  ((m (appender s)).1, {| appender := (m (appender s)).2; blockCalls := blockCalls s |}).

Definition blockExtern {A} (c : result A → BlockCall)
    (reply : list Call → list BlockCall → result A) : B A := λ s,
  (reply (calls (appender s)) (blockCalls s),
   {| appender := appender s;
      blockCalls := blockCalls s ++ [c (reply (calls (appender s)) (blockCalls s))] |}).

(** [if err != nil { return f(err) }] *)
Definition blockOrReturn {A} (m : B A) (f : error → error) : B A := λ s,
  match m s with
  | (Ok x, s') => (Ok x, s')
  | (Err e, s') => (Err (f e), s')
  end.

Definition blockAttempt {A} (m : B A) : B (result A) := λ s, (Ok (m s).1, (m s).2).

Section BlockMethods.

Context (env : Collaborators) (benv : BlockCollaborators).

(** The loop of [createInitialBlockSnapshot] over the entries of the map. *)
Fixpoint createInitialBlockSnapshot_range (addrWavesBalanceDiff : list (string * balanceDiff))
    (snapshot : txSnapshot) : B txSnapshot :=
  match addrWavesBalanceDiff with
  | [] => mret snapshot
  | (wavesAddress, diffAmount) :: rest =>
      fullBalance ←
        blockOrReturn
          (blockExtern (CallNewestWavesBalance wavesAddress)
             (λ h hb, newestWavesBalance benv h hb wavesAddress))
          (λ err, Wrap err "failed to receive sender's waves balance");
      let newBalance :=
        (wavesAddress, uint64 (int64 (int64 (balance fullBalance) + diffBalance diffAmount))) in
      createInitialBlockSnapshot_range rest {| regular := regular snapshot ++ [newBalance] |}
  end.

Definition createInitialBlockSnapshot (minerAndRewardDiff : txDiff) : B txSnapshot :=
  addrWavesBalanceDiff ←
    blockOrReturn
      (blockExtern (CallBalanceDiffFromTxDiff minerAndRewardDiff)
         (λ h hb, balanceDiffFromTxDiff benv h hb minerAndRewardDiff))
      (λ err, Wrap err "failed to create balance diff from tx diff");
  (* add miner address to the diff *)
  createInitialBlockSnapshot_range addrWavesBalanceDiff {| regular := [] |}.

(** [a.diffStor.saveTxDiff(d)], as in [commitTxApplication]. *)
Definition diffStorSaveTxDiff (d : txDiff) : M unit :=
  stor ← gets diffStor;
  extern (CallSaveTxDiff d) (λ h, saveTxDiff env h d stor);;
  modify (withDiffStor (λ ds, ds ++ [d])).

(** The loop of [appendBlock] over the transactions. *)
Fixpoint appendBlock_transactions (txs : list Transaction) (appendTxArgs : appendTxParams)
    : B unit :=
  match txs with
  | [] => mret tt
  | tx :: rest =>
      inAppender (appendTx env tx appendTxArgs);;
      appendBlock_transactions rest appendTxArgs
  end.

(** The body of [appendBlock], before its deferred calls. *)
Definition appendBlock_body (params : appendBlockParams.t) : B unit :=
  let block := appendBlockParams.block params in
  rideV5Activated ← inAppender (isActivated env RideV5);
  rideV6Activated ← inAppender (isActivated env RideV6);
  blockRewardDistribution ← inAppender (isActivated env BlockRewardDistribution);
  let hasParent := bool_decide (is_Some (appendBlockParams.parent params)) in
  let checkerInfo :=
    {| currentTimestamp := Timestamp block;
       parentTimestamp :=
         match appendBlockParams.parent params with
         | Some parent => Timestamp parent
         | None => 0
         end;
       blockID := BlockID block;
       blockVersion := Version block;
       height := appendBlockParams.height params;
       ciRideV5Activated := rideV5Activated;
       ciRideV6Activated := rideV6Activated;
       blockRewardDistribution := blockRewardDistribution |} in
  inAppender (notify (CallSetApplierInfo checkerInfo));;
  (* Create miner balance diff. *)
  minerAndRewardDiff ←
    blockExtern (CallCreateMinerAndRewardDiff block hasParent)
      (λ h hb, createMinerAndRewardDiff benv h hb block hasParent);
  (* create the initial snapshot *)
  blockOrReturn (createInitialBlockSnapshot minerAndRewardDiff)
    (λ err, Wrap err "failed to create initial snapshot");;
  (* Save miner diff first (for validation) *)
  inAppender (diffStorSaveTxDiff minerAndRewardDiff);;
  blockInfo ← inAppender (currentBlockInfo env);
  blockV5Activated ← inAppender (isActivated env BlockV5);
  consensusImprovementsActivated ← inAppender (isActivated env ConsensusImprovements);
  blockRewardDistributionActivated ← inAppender (isActivated env BlockRewardDistribution);
  invokeExpressionActivated ← inAppender (isActivated env InvokeExpression);
  (* Check and append transactions. *)
  let appendTxArgs :=
    {| chans := appendBlockParams.chans params;
       checkerInfoOf := checkerInfo;
       blockInfo := blockInfo;
       block := block;
       acceptFailed := blockV5Activated;
       blockV5Activated := blockV5Activated;
       rideV5Activated := rideV5Activated;
       rideV6Activated := rideV6Activated;
       consensusImprovementsActivated := consensusImprovementsActivated;
       blockRewardDistributionActivated := blockRewardDistributionActivated;
       invokeExpressionActivated := invokeExpressionActivated;
       validatingUtx := false;
       currentMinerPK := GeneratorPublicKey block |} in
  appendBlock_transactions (appendBlockParams.transactions params) appendTxArgs;;
  (* Save fee distribution of this block. *)
  blockExtern (CallSaveCurFeeDistr block) (λ h hb, saveCurFeeDistr benv h hb block).

Definition appendBlock (params : appendBlockParams.t) : B unit :=
  r ← blockAttempt (appendBlock_body params);
  (* Reset block complexity counter: the deferred calls. *)
  inAppender (modify (withSc resetComplexity));;
  inAppender (modify (withTotalScriptsRuns (λ _, 0)));;
  inAppender (lift r).

End BlockMethods.

(** A concrete state for the block-level collaborators: the miner and
    reward diff credits the miner, whose balance is [minerBalance]. *)
Definition minerDiff : txDiff := [("miner", 6)].

Definition blockChain (minerBalance : Z) : BlockCollaborators :=
  {| createMinerAndRewardDiff := λ _ _ _ _, Ok minerDiff;
     balanceDiffFromTxDiff := λ _ _ d, Ok (map (λ kv, (kv.1, {| diffBalance := kv.2 |})) d);
     newestWavesBalance := λ _ _ addr, Ok {| balance := minerBalance |};
     saveCurFeeDistr := λ _ _ _, Ok tt |}.

Definition blockOf (txs : list Transaction) : appendBlockParams.t :=
  {| appendBlockParams.transactions := txs;
     appendBlockParams.chans := true;
     appendBlockParams.block :=
       {| Timestamp := 50; BlockID := "block"; Version := 5; GeneratorPublicKey := "miner" |};
     appendBlockParams.parent :=
       Some {| Timestamp := 40; BlockID := "parent"; Version := 5;
               GeneratorPublicKey := "miner" |};
     appendBlockParams.height := 7 |}.

Definition newBlockAppender : blockAppender :=
  {| appender := newTxAppender; blockCalls := [] |}.

(** [blockSteady R m]: whatever [m] returns, the state after it is
    [R]-related to the state before. *)
Definition blockSteady {A} (R : relation blockAppender) (m : B A) : Prop :=
  ∀ s, R s (m s).2.

(** A relation between appenders, or between logs, as a relation between the
    states of [appendBlock]. *)
Definition onAppender (R : relation txAppender) : relation blockAppender :=
  λ s s', R (appender s) (appender s').

Definition onCalls (R : relation (list Call)) : relation txAppender :=
  λ a a', R (calls a) (calls a').

Definition isSavedCurFeeDistr (c : BlockCall) : bool :=
  match c with CallSaveCurFeeDistr _ (Ok _) => true | _ => false end.

Fixpoint countBlockCalls (p : BlockCall → bool) (cs : list BlockCall) : Z :=
  match cs with
  | [] => 0
  | c :: cs => (if p c then 1 else 0) + countBlockCalls p cs
  end.

(** [savesOnce m]: [m] saves the fee distribution once when it returns no
    error, and not at all when it returns one. *)
Definition savesOnce {A} (m : B A) : Prop :=
  ∀ s, countBlockCalls isSavedCurFeeDistr (blockCalls (m s).2)
       = countBlockCalls isSavedCurFeeDistr (blockCalls s) + (if is_ok (m s).1 then 1 else 0).

(** [m] never saves it. *)
Definition savesNot {A} (m : B A) : Prop :=
  ∀ s, countBlockCalls isSavedCurFeeDistr (blockCalls (m s).2)
       = countBlockCalls isSavedCurFeeDistr (blockCalls s).

(** The parameters that [appendBlock] appends every transaction with. *)
Definition blockModeParams (params : appendBlockParams.t) (appendTxArgs : appendTxParams)
    : Prop :=
  validatingUtx appendTxArgs = false
  ∧ acceptFailed appendTxArgs = blockV5Activated appendTxArgs
  ∧ block appendTxArgs = appendBlockParams.block params
  ∧ chans appendTxArgs = appendBlockParams.chans params
  ∧ currentMinerPK appendTxArgs = GeneratorPublicKey (appendBlockParams.block params).

(** The balance lookups of [createInitialBlockSnapshot], all successful. *)
Definition balanceLookups (entries : list (string * balanceDiff))
    (balances : list balanceProfile) : list BlockCall :=
  zip_with (λ entry fullBalance, CallNewestWavesBalance entry.1 (Ok fullBalance))
    entries balances.

(** The balances of the snapshot: the full balance plus the diff, modulo
    [2 ^ 64]. *)
Definition newBalances (entries : list (string * balanceDiff))
    (balances : list balanceProfile) : list (string * Z) :=
  zip_with (λ entry fullBalance,
              (entry.1, (balance fullBalance + diffBalance entry.2) mod 2 ^ 64))
    entries balances.

(** A step of [appendBlock] that only asks the collaborators of the
    appender: the appender is [unchanged] and no call of [appendBlock]'s own
    was made. *)
Definition blockUnchanged : relation blockAppender := λ s s',
  unchanged (appender s) (appender s') ∧ blockCalls s' = blockCalls s.

(** The calls of [appendBlock]'s own in a run that returns no error. *)
Definition blockCallsOf (params : appendBlockParams.t) (minerAndRewardDiff : txDiff)
    (entries : list (string * balanceDiff)) (balances : list balanceProfile)
    : list BlockCall :=
  CallCreateMinerAndRewardDiff (appendBlockParams.block params)
    (bool_decide (is_Some (appendBlockParams.parent params))) (Ok minerAndRewardDiff)
  :: CallBalanceDiffFromTxDiff minerAndRewardDiff (Ok entries)
  :: balanceLookups entries balances
  ++ [CallSaveCurFeeDistr (appendBlockParams.block params) (Ok tt)].

(** * The miner (package miner)

    [DefaultMiner.Mine] takes transactions from the pool, keeps those that
    the state validates, and makes, signs and applies a block of them.  Its
    collaborators (the state, the pool, the scheduler, the block applier, the
    key pair, the interrupt flag that another goroutine may set) are modelled
    as those of the appender: every call is logged with its reply, and a
    reply may depend on the calls made so far.  Taking the mutex of the state
    and making the buffer and the representation of the transactions are no
    calls of their own; locking and unlocking are. *)

Module miner.

(** settings.Feature, the one the miner asks about. *)
Inductive Feature : Type := BlockReward.

(** proto.BlockVersion, the two that [blockVersion] returns. *)
Inductive BlockVersion : Type :=
| NgBlockVersion
| RewardBlockVersion.

(** types.TransactionWithBytes, the field that [Mine] reads. *)
Record TransactionWithBytes : Type := { T : Transaction }.

Record NxtConsensus : Type := {
  BaseTarget : Z;
  GenSignature : string
}.

(** A block is handled by reference: [Sign] signs it in place. *)
Record Block : Type := { blockRef : Z }.

Inductive MinerCall : Type :=
| CallInterruptStore (v : bool)
| CallInterruptLoad (reply : bool)
| CallReschedule
| CallBlock (parent : string) (reply : result BlockHeader)
| CallIsActivated (feature : Feature) (reply : result bool)
| CallLock
| CallUnlock
| CallPop (reply : option TransactionWithBytes)
| CallResetValidationList
| CallValidateNextTx (tx : Transaction) (currentTimestamp parentTimestamp : Z)
    (v : BlockVersion) (reply : result unit)
| CallWriteTo (transactions : list Transaction) (reply : result unit)
| CallPublic (k : string) (reply : result string)
| CallCreateBlock (transactions : list Transaction) (t : Z) (parent pub : string)
    (nxt : NxtConsensus) (v : BlockVersion) (reply : result Block)
| CallPrivate (k : string) (reply : result string)
| CallSign (b : Block) (priv : string) (reply : result unit)
| CallApply (b : Block) (reply : result unit)
| CallError (err : error).                        (* zap.S().Error(err) *)

Record Collaborators : Type := {
  stateBlock : list MinerCall → string → result BlockHeader;
  IsActivated : list MinerCall → Feature → result bool;
  Pop : list MinerCall → option TransactionWithBytes;
  interruptLoad : list MinerCall → bool;
  ValidateNextTx :
    list MinerCall → Transaction → Z → Z → BlockVersion → result unit;
  WriteTo : list MinerCall → list Transaction → result unit;
  Public : list MinerCall → string → result string;
  CreateBlock :
    list MinerCall → list Transaction → Z → string → string → NxtConsensus →
    BlockVersion → result Block;
  Private : list MinerCall → string → result string;
  Sign : list MinerCall → Block → string → result unit;
  Apply : list MinerCall → Block → result unit
}.

(** What a statement of [Mine] does: go on with a value, or return. *)
Inductive flow (A : Type) : Type :=
| Next (x : A)
| Return.
Arguments Next {A} x.
Arguments Return {A}.

(** The monad of [Mine]: the log of the calls, and the early returns. *)
Definition Mn (A : Type) : Type := list MinerCall → flow A * list MinerCall.

#[global] Instance Mn_ret : MRet Mn := λ A x h, (Next x, h).

#[global] Instance Mn_bind : MBind Mn := λ A C f m h,
  match m h with
  | (Next x, h') => f x h'
  | (Return, h') => (Return, h')
  end.

Definition exit {A} : Mn A := λ h, (Return, h).

(** A call with a reply. *)
Definition call {A} (c : A → MinerCall) (reply : list MinerCall → A) : Mn A := λ h,
  (Next (reply h), h ++ [c (reply h)]).

(** A call with no reply. *)
Definition tell (c : MinerCall) : Mn unit := λ h, (Next tt, h ++ [c]).

(** [if err != nil { zap.S().Error(err); return }] *)
Definition orLogAndReturn {A} (r : result A) : Mn A :=
  match r with
  | Ok x => mret x
  | Err err => tell (CallError err);; exit
  end.

Section Methods.

Context (env : Collaborators).

Definition blockVersion : Mn (result BlockVersion) :=
  blockRewardActivated ← call (CallIsActivated BlockReward) (λ h, IsActivated env h BlockReward);
  match blockRewardActivated with
  | Err err => mret (Err err)
  | Ok true => mret (Ok RewardBlockVersion)
  | Ok false => mret (Ok NgBlockVersion)
  end.

(** The loop of [Mine]: [n] iterations are left. *)
Fixpoint Mine_loop (n : nat) (t : Z) (lastKnownBlock : BlockHeader) (v : BlockVersion)
    (transactions : list Transaction) : Mn (list Transaction) :=
  match n with
  | O => mret transactions
  | S n =>
      tx ← call CallPop (Pop env);
      match tx with
      | None => mret transactions                 (* break *)
      | Some tx =>
          interrupted ← call CallInterruptLoad (interruptLoad env);
          if interrupted : bool then
            tell CallResetValidationList;;
            tell CallUnlock;;
            exit
          else
            err ← call (CallValidateNextTx (T tx) t (Timestamp lastKnownBlock) v)
                    (λ h, ValidateNextTx env h (T tx) t (Timestamp lastKnownBlock) v);
            match err with
            | Ok _ => Mine_loop n t lastKnownBlock v (transactions ++ [T tx])
            | Err _ => Mine_loop n t lastKnownBlock v transactions
            end
      end
  end.

(** The body of [Mine], before its deferred call. *)
Definition Mine_body (t : Z) (k : string) (parent : string) (baseTarget : Z)
    (GenSignature : string) : Mn unit :=
  tell (CallInterruptStore false);;
  lastKnownBlock ← call (CallBlock parent) (λ h, stateBlock env h parent) ≫= orLogAndReturn;
  v ← blockVersion ≫= orLogAndReturn;
  tell CallLock;;
  transactions ← Mine_loop 100 t lastKnownBlock v [];
  tell CallResetValidationList;;
  tell CallUnlock;;
  err ← call (CallWriteTo transactions) (λ h, WriteTo env h transactions);
  (match err with
   | Err _ => exit
   | Ok _ => mret tt
   end : Mn unit);;
  let nxt := {| BaseTarget := baseTarget; GenSignature := GenSignature |} in
  pub ← call (CallPublic k) (λ h, Public env h k) ≫= orLogAndReturn;
  b ← call (CallCreateBlock transactions t parent pub nxt v)
        (λ h, CreateBlock env h transactions t parent pub nxt v) ≫= orLogAndReturn;
  priv ← call (CallPrivate k) (λ h, Private env h k) ≫= orLogAndReturn;
  call (CallSign b priv) (λ h, Sign env h b priv) ≫= orLogAndReturn;;
  err ← call (CallApply b) (λ h, Apply env h b);
  match err with
  | Err err => tell (CallError err)
  | Ok _ => mret tt
  end.

Definition Mine (t : Z) (k : string) (parent : string) (baseTarget : Z)
    (GenSignature : string) : Mn unit := λ h,
  (Next tt, (Mine_body t k parent baseTarget GenSignature h).2 ++ [CallReschedule]).

End Methods.

(** The transactions that the log shows as validated, in order. *)
Fixpoint validated (cs : list MinerCall) : list Transaction :=
  match cs with
  | [] => []
  | CallValidateNextTx tx _ _ _ (Ok _) :: cs => tx :: validated cs
  | _ :: cs => validated cs
  end.

(** The calls made with the state locked. *)
Definition isPoolCall (c : MinerCall) : bool :=
  match c with
  | CallPop _ | CallInterruptLoad _ | CallValidateNextTx _ _ _ _ _ => true
  | _ => false
  end.

(** The calls that concern the lock and what it protects. *)
Definition isLockedCall (c : MinerCall) : bool :=
  match c with
  | CallLock | CallUnlock | CallResetValidationList
  | CallPop _ | CallInterruptLoad _ | CallValidateNextTx _ _ _ _ _ => true
  | _ => false
  end.

(** The calls that make a block of the transactions, or apply it. *)
Definition isBlockCall (c : MinerCall) : bool :=
  match c with
  | CallWriteTo _ _ | CallCreateBlock _ _ _ _ _ _ _ | CallSign _ _ _ | CallApply _ _ => true
  | _ => false
  end.

Definition isPop (c : MinerCall) : bool :=
  match c with CallPop _ => true | _ => false end.

Definition isValidateNextTx (c : MinerCall) : bool :=
  match c with CallValidateNextTx _ _ _ _ _ => true | _ => false end.

(** A pool of [txs], of which the state accepts those that [valid] holds for;
    the interrupt is seen when [interruptAt] validations were made. *)
Definition pool (txs : list Transaction) (valid : Transaction → bool) (interruptAt : nat)
    : Collaborators :=
  {| stateBlock := λ _ _,
       Ok {| Timestamp := 40; BlockID := "parent"; Version := 5;
             GeneratorPublicKey := "miner" |};
     IsActivated := λ _ _, Ok true;
     Pop := λ h,
       match drop (length (List.filter isPop h)) txs with
       | tx :: _ => Some {| T := tx |}
       | [] => None
       end;
     interruptLoad := λ h, Nat.eqb (length (List.filter isValidateNextTx h)) interruptAt;
     ValidateNextTx := λ _ tx _ _ _,
       if valid tx then Ok tt else Err (Errorf "invalid" []);
     WriteTo := λ _ _, Ok tt;
     Public := λ _ k, Ok k;
     CreateBlock := λ _ _ _ _ _ _ _, Ok {| blockRef := 1 |};
     Private := λ _ k, Ok k;
     Sign := λ _ _ _, Ok tt;
     Apply := λ _ _, Ok tt |}.

(** The interrupt, seen. *)
Definition isInterrupt (c : MinerCall) : bool :=
  match c with CallInterruptLoad true => true | _ => false end.

(** A validation made with the arguments that [Mine] passes. *)
Definition validatesWith (t : Z) (lastKnownBlock : BlockHeader) (v : BlockVersion)
    (c : MinerCall) : Prop :=
  ∀ tx currentTimestamp parentTimestamp v' reply,
    c = CallValidateNextTx tx currentTimestamp parentTimestamp v' reply →
    currentTimestamp = t ∧ parentTimestamp = Timestamp lastKnownBlock ∧ v' = v.

End miner.

(** ** Reasoning about runs *)

Lemma countCalls_app p cs1 cs2 :
  countCalls p (cs1 ++ cs2) = countCalls p cs1 + countCalls p cs2.
Proof. induction cs1 as [|c cs1 IH]; simpl; [reflexivity | rewrite IH; lia]. Qed.

Lemma countCalls_nonneg p cs : 0 ≤ countCalls p cs.
Proof. induction cs as [|c cs IH]; simpl; [lia | destruct (p c); lia]. Qed.

Lemma made_logCall p c a : made p (logCall c a) = made p a + (if p c then 1 else 0).
Proof. unfold made; simpl. rewrite countCalls_app; simpl. lia. Qed.

#[global] Instance keeps_preorder p : PreOrder (keeps p).
Proof. split; unfold keeps; [intros l | intros l1 l2 l3 H12 H23]; congruence. Qed.

Lemma keeps_snoc p c l : p c = false → keeps p l (l ++ [c]).
Proof. intros Hc. unfold keeps. rewrite countCalls_app; simpl. rewrite Hc. lia. Qed.

Lemma prefix_snoc (c : Call) l : l `prefix_of` l ++ [c].
Proof. by exists [c]. Qed.

Lemma prefix_countCalls p l l' : l `prefix_of` l' → countCalls p l ≤ countCalls p l'.
Proof.
  intros [k ->]. rewrite countCalls_app. pose proof (countCalls_nonneg p k). lia.
Qed.

Lemma more_prefix p l1 l2 l3 : more p l1 l2 → l2 `prefix_of` l3 → more p l1 l3.
Proof. unfold more. intros H12 H23%(prefix_countCalls p). lia. Qed.

Lemma prefix_more p l1 l2 l3 : l1 `prefix_of` l2 → more p l2 l3 → more p l1 l3.
Proof. unfold more. intros H12%(prefix_countCalls p) H23. lia. Qed.

Section Rules.

Context (R : relation (list Call)) `{!PreOrder R}.

Lemma always_ret {A} (x : A) : always R (mret x).
Proof. intros a. reflexivity. Qed.

Lemma always_fail {A} e : always R (@fail A e).
Proof. intros a. reflexivity. Qed.

Lemma always_lift {A} (r : result A) : always R (lift r).
Proof. intros a. reflexivity. Qed.

Lemma always_gets {A} (f : txAppender → A) : always R (gets f).
Proof. intros a. reflexivity. Qed.

Lemma always_modify f : (∀ a, calls (f a) = calls a) → always R (modify f).
Proof. intros Hf a. simpl. rewrite Hf. reflexivity. Qed.

Lemma always_extern {A} (c : result A → Call) reply :
  (∀ r l, R l (l ++ [c r])) → always R (extern c reply).
Proof. intros Hc a. apply Hc. Qed.

Lemma always_script {A} (c : result A → Call) reply :
  (∀ r l, R l (l ++ [c r])) → always R (script c reply).
Proof. intros Hc a. apply Hc. Qed.

Lemma always_notify c : (∀ l, R l (l ++ [c])) → always R (notify c).
Proof. intros Hc a. apply Hc. Qed.

Lemma always_bind {A B} (m : M A) (f : A → M B) :
  always R m → (∀ x, always R (f x)) → always R (m ≫= f).
Proof.
  intros Hm Hf a. specialize (Hm a). unfold mbind, M_bind.
  destruct (m a) as [[x|e] a1]; simpl in *; [|done].
  etrans; [exact Hm | apply Hf].
Qed.

Lemma always_orReturn {A} (m : M A) f : always R m → always R (orReturn m f).
Proof.
  intros Hm a. specialize (Hm a). unfold orReturn.
  by destruct (m a) as [[x|e] a1].
Qed.

Lemma always_attempt {A} (m : M A) : always R m → always R (attempt m).
Proof. intros Hm a. apply Hm. Qed.

End Rules.

Lemma onOk_bind_l {A B} p (m : M A) (f : A → M B) :
  onOk (more p) m → (∀ x, always prefix (f x)) → onOk (more p) (m ≫= f).
Proof.
  intros Hm Hf a y a' Hrun. unfold mbind, M_bind in Hrun.
  destruct (m a) as [[x|e] a1] eqn:Hma; [|done].
  eapply more_prefix; [by eapply Hm|].
  specialize (Hf x a1). by rewrite Hrun in Hf.
Qed.

Lemma onOk_bind_r {A B} p (m : M A) (f : A → M B) :
  always prefix m → (∀ x, onOk (more p) (f x)) → onOk (more p) (m ≫= f).
Proof.
  intros Hm Hf a y a' Hrun. unfold mbind, M_bind in Hrun.
  specialize (Hm a).
  destruct (m a) as [[x|e] a1] eqn:Hma; [|done].
  eapply prefix_more; [exact Hm | by eapply Hf].
Qed.

Lemma onOk_attempt_bind {A B} p (m : M A) (k : result A → M B) :
  onOk (more p) m → (∀ r, always prefix (k r)) → (∀ e a, is_ok (k (Err e) a).1 = false) →
  onOk (more p) (attempt m ≫= k).
Proof.
  intros Hm Hk Herr a y a' Hrun. unfold mbind, M_bind, attempt in Hrun.
  destruct (m a) as [[x|e] a1] eqn:Hma; simpl in Hrun.
  - eapply more_prefix; [by eapply Hm|].
    specialize (Hk (Ok x) a1). by rewrite Hrun in Hk.
  - specialize (Herr e a1). by rewrite Hrun in Herr.
Qed.

Lemma onOk_orReturn {A} R (m : M A) f : onOk R m → onOk R (orReturn m f).
Proof.
  intros Hm a x a' Hrun. unfold orReturn in Hrun.
  destruct (m a) as [[x'|e] a1] eqn:Hma; [|done].
  injection Hrun as -> ->. by eapply Hm.
Qed.

Lemma returns_ret {A} (Q : A → Prop) x : Q x → returns Q (mret x).
Proof. intros HQ a y a' [= <- _]. exact HQ. Qed.

Lemma returns_fail {A} (Q : A → Prop) e : returns Q (fail e).
Proof. intros a y a' [=]. Qed.

Lemma returns_bind {A B} (Q : B → Prop) (m : M A) (f : A → M B) :
  (∀ x, returns Q (f x)) → returns Q (m ≫= f).
Proof.
  intros Hf a y a' Hrun. unfold mbind, M_bind in Hrun.
  destruct (m a) as [[x|e] a1]; [by eapply Hf | done].
Qed.

Lemma returns_bind_returns {A B} (P : A → Prop) (Q : B → Prop) (m : M A) (f : A → M B) :
  returns P m → (∀ x, P x → returns Q (f x)) → returns Q (m ≫= f).
Proof.
  intros Hm Hf a y a' Hrun. unfold mbind, M_bind in Hrun.
  destruct (m a) as [[x|e] a1] eqn:Hma; [|done].
  eapply Hf; [by eapply Hm | done].
Qed.

Lemma returns_orReturn {A} (Q : A → Prop) (m : M A) f :
  returns Q m → returns Q (orReturn m f).
Proof.
  intros Hm a x a' Hrun. unfold orReturn in Hrun.
  destruct (m a) as [[x'|e] a1] eqn:Hma; [|done].
  injection Hrun as -> ->. by eapply Hm.
Qed.

Lemma always_bind_returns {A B} R `{!PreOrder R} (Q : A → Prop) (m : M A) (f : A → M B) :
  always R m → returns Q m → (∀ x, Q x → always R (f x)) → always R (m ≫= f).
Proof.
  intros Hm HQ Hf a. specialize (Hm a). unfold mbind, M_bind.
  destruct (m a) as [[x|e] a1] eqn:Hma; simpl in *; [|done].
  etrans; [exact Hm | apply Hf; by eapply HQ].
Qed.

Lemma onOk_bind_returns {A B} p (Q : A → Prop) (m : M A) (f : A → M B) :
  always prefix m → returns Q m → (∀ x, Q x → onOk (more p) (f x)) →
  onOk (more p) (m ≫= f).
Proof.
  intros Hm HQ Hf a y a' Hrun. unfold mbind, M_bind in Hrun.
  specialize (Hm a).
  destruct (m a) as [[x|e] a1] eqn:Hma; [|done].
  eapply prefix_more; [exact Hm|]. eapply Hf; [by eapply HQ | done].
Qed.

Create HintDb returns.
#[global] Hint Resolve returns_orReturn : returns.

Ltac split_hyps :=
  repeat match goal with
         | H : _ ∧ _ |- _ => destruct H
         | H : let '(_, _) := ?x in _ |- _ => destruct x
         end.

Ltac returns_step :=
  lazymatch goal with
  | |- returns _ (mbind _ _) =>
      first
        [ eapply returns_bind_returns;
          [solve [eauto with returns] | intros ? ?; simpl in *; split_hyps]
        | apply returns_bind; intros ? ]
  | |- returns _ (mret _) => apply returns_ret
  | |- returns _ (fail _) => apply returns_fail
  | |- returns _ (orReturn _ _) => apply returns_orReturn
  | |- returns _ (if ?b then _ else _) => destruct b
  | |- returns _ (match ?x with _ => _ end) => destruct x
  end.

Ltac returns_steps := repeat (cbv beta zeta; returns_step); simpl; eauto.

Ltac rule H := apply H; try typeclasses eauto.

(** One step of a proof of [always R m], by the shape of [m]. *)
Ltac always_step :=
  lazymatch goal with
  | |- always _ (mbind _ _) =>
      first
        [ eapply always_bind_returns;
          [ typeclasses eauto
          |
          | solve [eauto with returns]
          | intros ? ?; simpl in *; split_hyps ]
        | rule always_bind; [| intros ?] ]
  | |- always _ (mret _) => rule always_ret
  | |- always _ (fail _) => rule always_fail
  | |- always _ (lift _) => rule always_lift
  | |- always _ (gets _) => rule always_gets
  | |- always _ (modify _) => rule always_modify; reflexivity
  | |- always _ (orReturn _ _) => rule always_orReturn
  | |- always _ (attempt _) => rule always_attempt
  | |- always _ (extern _ _) =>
      rule always_extern; intros;
      first [apply keeps_snoc; reflexivity | apply prefix_snoc]
  | |- always _ (script _ _) =>
      rule always_script; intros;
      first [apply keeps_snoc; reflexivity | apply prefix_snoc]
  | |- always _ (notify _) =>
      rule always_notify; intros;
      first [apply keeps_snoc; reflexivity | apply prefix_snoc]
  | |- always _ (if ?b then _ else _) =>
      first [ match goal with H : b = _ |- _ => rewrite H end | destruct b ]
  | |- always _ (match ?x with _ => _ end) => destruct x
  | |- always _ _ => solve [eauto with runs]
  end.

(** ** What the methods add to the log *)

Section Logs.

Context (env : Collaborators).

(** The loops, for any relation that admits the call of the loop. *)
Lemma always_checkTransactionScripts_assets R `{!PreOrder R} tx params r4 assets n :
  (∀ x r l, R l (l ++ [CallAssetScript tx x r])) →
  always R (checkTransactionScripts_assets env tx params r4 assets n).
Proof.
  intros HR. revert n.
  induction assets as [|x rest IH]; intros n; simpl.
  - apply always_ret; done.
  - apply always_bind; [done| |].
    + apply always_orReturn, always_script; done.
    + intros r. destruct (negb r); [apply always_fail; done|].
      destruct (_ && _); apply IH.
Qed.

Lemma always_handleExchange_assets R `{!PreOrder R} tx params assets :
  (∀ x r l, R l (l ++ [CallAssetScript tx x r])) →
  always R (handleExchange_assets env tx params assets).
Proof.
  intros HR.
  induction assets as [|x rest IH]; simpl.
  - apply always_ret; done.
  - apply always_bind; [done| |].
    + apply always_attempt, always_script; done.
    + intros [res|err].
      * destruct (negb res); [apply always_ret; done | exact IH].
      * destruct (negb _); [apply always_fail | apply always_ret]; done.
Qed.

Lemma always_saveTransactionIdByAddresses R `{!PreOrder R} addresses txID blockID :
  (∀ x r l, R l (l ++ [CallSaveTxIdByAddress x txID blockID r])) →
  always R (saveTransactionIdByAddresses env addresses txID blockID).
Proof.
  intros HR.
  induction addresses as [|x rest IH]; simpl.
  - apply always_ret; done.
  - apply always_bind; [done| |].
    + apply always_extern; done.
    + intros _. exact IH.
Qed.

End Logs.

Create HintDb runs.
#[global] Hint Resolve prefix_snoc : runs.
#[global] Hint Extern 1 (keeps _ _ (_ ++ [_])) => (apply keeps_snoc; reflexivity) : runs.

(** The methods without a loop are unfolded down to the calls. *)
Ltac unfold_methods :=
  unfold handleInvokeOrExchangeTransaction, handleDefaultTransaction, handleFallible,
    handleExchange, handleInvoke, countExchangeScriptsRuns, commitTxApplication,
    verifyWavesTxSigAndData, needToCheckOrdersSignatures, checkScriptsLimits, checkTransactionScripts, checkTxFees,
    checkProtobufVersion, checkDuplicateTxIds, checkDuplicateTxIdsImpl,
    diffApplierValidateTxDiff, blockDifferCreateTransactionDiff,
    blockDifferCreateFailedTransactionDiff, txHandlerCheckTx, scCallAssetScript,
    scCallAccountScriptWithOrder, scCallAccountScriptWithTx, isActivated, orderIsScripted,
    currentBlock, currentBlockInfo.

Ltac always_loops :=
  first
    [ rule always_checkTransactionScripts_assets; intros; solve [eauto with runs]
    | rule always_handleExchange_assets; intros; solve [eauto with runs]
    | rule always_saveTransactionIdByAddresses; intros; solve [eauto with runs] ].

Ltac always_auto := repeat (cbv beta iota zeta; first [always_step | always_loops]).

(** Running a method on all its paths: the combinators are unfolded, and the
    replies and the flags that decide the path are taken by cases. *)
Ltac unfold_monad :=
  unfold mbind, M_bind, mret, M_ret, lift, orReturn, attempt, extern, script, fail,
    modify, gets, notify.

Ltac run_case :=
  match goal with
  | |- context [match ?x with _ => _ end] =>
      lazymatch x with
      | context [match _ with _ => _ end] => fail
      | _ => destruct x eqn:?
      end
  end.

Ltac run_all := unfold_monad; simpl; repeat (run_case; simpl).

(** Runs of a bind, step by step. *)

Lemma bind_Ok {A B} (m : M A) (f : A → M B) a y a' :
  (m ≫= f) a = (Ok y, a') → ∃ x a1, m a = (Ok x, a1) ∧ f x a1 = (Ok y, a').
Proof.
  unfold mbind, M_bind. destruct (m a) as [[x|e] a1]; [eauto | done].
Qed.

Lemma bind_run_Ok {A B} (m : M A) (f : A → M B) a x a1 :
  m a = (Ok x, a1) → (m ≫= f) a = f x a1.
Proof. intros H. unfold mbind, M_bind. by rewrite H. Qed.

Lemma bind_run_Err {A B} (m : M A) (f : A → M B) a e a1 :
  m a = (Err e, a1) → (m ≫= f) a = (Err e, a1).
Proof. intros H. unfold mbind, M_bind. by rewrite H. Qed.

Lemma orReturn_Ok {A} (m : M A) f a x a' :
  orReturn m f a = (Ok x, a') → m a = (Ok x, a').
Proof. unfold orReturn. destruct (m a) as [[y|e] a1]; [done | done]. Qed.

(** ** The duplicate-ID check *)

(** C2. A transaction whose ID is in the recent-ID set or in durable storage
    is rejected by [checkDuplicateTxIds] with the duplicate-ID error, except
    that a Payment transaction always passes and a CreateAlias transaction
    passes when the block timestamp lies within the stolen-aliases window.
    The recent set is consulted first: when the ID is found there, durable
    storage is not read; otherwise it is read once. *)
Theorem checkDuplicateTxIds_rejects env tx recentIds timestamp a id :
  GetID tx = Ok id →
  id ∈ recentIds ∨ is_ok (readTransaction env (calls a) id) = true →
  let run := checkDuplicateTxIds env tx recentIds timestamp a in
  (txType tx = PaymentTransaction → run = (Ok tt, a)) ∧
  (txType tx = CreateAliasTransaction → inStolenAliasesWindow env timestamp = true →
   run = (Ok tt, a)) ∧
  (txType tx ≠ PaymentTransaction →
   ¬ (txType tx = CreateAliasTransaction ∧ inStolenAliasesWindow env timestamp = true) →
   run.1 = Err (duplicateIDError (txType tx) id) ∧
   calls run.2 =
     if decide (id ∈ recentIds) then calls a
     else calls a ++ [CallReadTransaction id (readTransaction env (calls a) id)]).
Proof.
  intros Hid Hdup run. subst run. unfold checkDuplicateTxIds, inStolenAliasesWindow.
  split; [|split].
  - intros ->. reflexivity.
  - intros Halias Hwin.
    destruct (decide (txType tx = PaymentTransaction)) as [Hp|_]; [congruence|].
    rewrite bool_decide_eq_true_2 by done.
    rewrite andb_true_l.
    apply andb_true_iff in Hwin as [-> ->]. reflexivity.
  - intros Hpay Hnot.
    destruct (decide (txType tx = PaymentTransaction)) as [Hp|_]; [done|].
    destruct (bool_decide _ && _ && _) eqn:Hex.
    { exfalso. apply Hnot.
      apply andb_true_iff in Hex as [[Ht%bool_decide_eq_true H1]%andb_true_iff H2].
      by rewrite H1, H2. }
    rewrite Hid. unfold duplicateIDError, checkDuplicateTxIdsImpl. simpl.
    unfold mbind, M_bind, lift, orReturn, attempt, extern, fail; simpl.
    destruct (decide (id ∈ recentIds)) as [Hin|Hnin]; simpl.
    + by destruct (decide (txType tx = CreateAliasTransaction)).
    + destruct Hdup as [Hin|Hdb]; [done|].
      destruct (readTransaction env (calls a) id) as [[]|e]; [|done]. simpl.
      by destruct (decide (txType tx = CreateAliasTransaction)).
Qed.

Lemma checkDuplicateTxIds_rejects_witness :
  (checkDuplicateTxIds (chain allFeatures ["t1"] passes enough [])
     (txOf TransferTransaction OtherBody "t1") ∅ 50 newTxAppender).1
  = Err (alreadyInState "t1").
Proof.
  refine (proj1 (proj2 (proj2
    (checkDuplicateTxIds_rejects (chain allFeatures ["t1"] passes enough [])
       (txOf TransferTransaction OtherBody "t1") ∅ 50 newTxAppender "t1"
       eq_refl (or_intror eq_refl))) _ _)).
  - discriminate.
  - intros [H _]. discriminate H.
Defined.

(** ** Reset *)

Lemma commitTxApplication_records env tx params inv res a id :
  GetID tx = Ok id →
  id ∈ recentTxIds (commitTxApplication env tx params inv res a).2.
Proof.
  intros Hid. unfold commitTxApplication. rewrite Hid.
  run_all; set_solver.
Qed.



(** ** The limits on scripts *)

(** C5. [checkScriptsLimits] has two regimes.  With Ride4DApps activated, a
    total complexity above the ceiling (which depends on RideV5) is an error
    when RideV6 is activated, and otherwise a logged warning and no error.
    Before Ride4DApps, with SmartAccounts activated, more script runs than
    the maximum per block is an error. *)
Theorem checkScriptsLimits_regimes env a scriptsRuns blockID sa r4 v5 v6 :
  activated env SmartAccounts sa →
  activated env Ride4DApps r4 →
  activated env RideV5 v5 →
  activated env RideV6 v6 →
  let run := checkScriptsLimits env scriptsRuns blockID a in
  let ceiling := GetMaxScriptsComplexityInBlock env v5 in
  let complexity := getTotalComplexity (sc a) in
  (r4 = true → uint64 ceiling < complexity → v6 = true →
   run.1 = Err (Errorf "complexity of scripts (%d) in block '%s' exceeds limit of %d"
                  [ArgZ complexity; ArgS blockID; ArgZ ceiling])) ∧
  (r4 = true → uint64 ceiling < complexity → v6 = false →
   run.1 = Ok tt ∧
   last (calls run.2)
   = Some (CallLog "warn" "Complexity of scripts (%d) in block '%s' exceeds limit of %d")) ∧
  (r4 = true → complexity ≤ uint64 ceiling → run.1 = Ok tt) ∧
  (r4 = false → sa = true → maxScriptsRunsInBlock env < scriptsRuns →
   run.1 = Err (Errorf "more scripts runs in block than allowed: %d > %d"
                  [ArgZ scriptsRuns; ArgZ (maxScriptsRunsInBlock env)])) ∧
  (r4 = false → sa = true → scriptsRuns ≤ maxScriptsRunsInBlock env → run.1 = Ok tt) ∧
  (r4 = false → sa = false → run.1 = Ok tt).
Proof.
  intros Hsa Hr4 Hv5 Hv6 run ceiling complexity. subst run ceiling complexity.
  unfold checkScriptsLimits, isActivated.
  unfold mbind, M_bind, mret, M_ret, orReturn, extern, fail, gets, notify; simpl.
  rewrite Hsa, Hr4.
  split_and!.
  - intros -> Hlt ->. rewrite Hv5. simpl.
    apply Z.ltb_lt in Hlt. rewrite Hlt, Hv6. reflexivity.
  - intros -> Hlt ->. rewrite Hv5. simpl.
    apply Z.ltb_lt in Hlt. rewrite Hlt, Hv6. simpl.
    split; [reflexivity | apply last_snoc].
  - intros -> Hle. rewrite Hv5. simpl.
    apply Z.ltb_ge in Hle. rewrite Hle. reflexivity.
  - intros -> -> Hlt. apply Z.ltb_lt in Hlt. rewrite Hlt. reflexivity.
  - intros -> -> Hle. apply Z.ltb_ge in Hle. rewrite Hle. reflexivity.
  - intros -> ->. reflexivity.
Qed.

Lemma checkScriptsLimits_regimes_witness :
  (checkScriptsLimits (chain allFeatures [] passes enough []) 4 "block" busyAppender).1
  = Err (Errorf "complexity of scripts (%d) in block '%s' exceeds limit of %d"
           [ArgZ 2500010; ArgS "block"; ArgZ 2500000]).
Proof.
  refine (proj1
    (checkScriptsLimits_regimes (chain allFeatures [] passes enough []) busyAppender
       4 "block" true true true true (λ h, eq_refl) (λ h, eq_refl) (λ h, eq_refl)
       (λ h, eq_refl)) eq_refl eq_refl eq_refl).
Defined.

(** ** What the dispatch of [appendTx] leaves behind *)

Section Dispatch.

Context (env : Collaborators).

Lemma handleExchange_returns tx info :
  returns
    (λ '(p, _),
       p = setAcceptFailed (blockV5Activated (appendTxParamsOf info)
                            && acceptFailed (appendTxParamsOf info))
                           (appendTxParamsOf info))
    (handleExchange env tx info).
Proof. unfold handleExchange. returns_steps. Qed.

Hint Resolve handleExchange_returns : returns.

Lemma handleInvoke_returns tx info :
  returns
    (λ '(p, _, _), p = setAcceptFailed (acceptFailed p) (appendTxParamsOf info))
    (handleInvoke env tx info).
Proof. unfold handleInvoke. returns_steps. Qed.

Hint Resolve handleInvoke_returns : returns.

(** The fallible path leaves [acceptFailed] and no other parameter changed;
    for an exchange it leaves [acceptFailed] as [handleExchange] sets it. *)
Lemma handleFallible_returns tx info :
  returns
    (λ '(p, _, _),
       p = setAcceptFailed (acceptFailed p) (appendTxParamsOf info)
       ∧ (txType tx = ExchangeTransaction →
          acceptFailed p = effectiveAcceptFailed info))
    (handleFallible env tx info).
Proof.
  unfold handleFallible, effectiveAcceptFailed.
  destruct (txType tx); returns_steps; by subst.
Qed.

Lemma handleInvokeOrExchangeTransaction_returns tx info :
  returns
    (λ '(p, _, _),
       p = setAcceptFailed (acceptFailed p) (appendTxParamsOf info)
       ∧ (txType tx = ExchangeTransaction →
          acceptFailed p = effectiveAcceptFailed info))
    (handleInvokeOrExchangeTransaction env tx info).
Proof. apply returns_orReturn, handleFallible_returns. Qed.

Hint Resolve handleInvokeOrExchangeTransaction_returns : returns.

Lemma appendTx_dispatch_returns tx params accountHasVerifierScript senderAddr :
  returns
    (λ d,
       validatingUtx (dParams d) = validatingUtx params
       ∧ GetID (dTx d) = GetID tx
       ∧ (needToValidateBalanceDiff d = true → validatingUtx params = true)
       ∧ (isDefaultType (txType tx) = true →
          needToValidateBalanceDiff d = validatingUtx params)
       ∧ (isFallibleType (txType tx) = true →
          needToValidateBalanceDiff d
          = validatingUtx params && negb (acceptFailed (dParams d)))
       ∧ (txType tx = ExchangeTransaction →
          acceptFailed (dParams d) = blockV5Activated params && acceptFailed params)
       ∧ dParams d = setAcceptFailed (acceptFailed (dParams d)) params)
    (appendTx_dispatch env tx params accountHasVerifierScript senderAddr).
Proof.
  assert (∀ p, p = setAcceptFailed (acceptFailed p) p) as Hsame by (by intros []).
  unfold appendTx_dispatch.
  destruct (txType tx) eqn:Htype; returns_steps;
    repeat match goal with
           | H : ?p = setAcceptFailed _ _ |- _ => rewrite H; clear H
           end;
    rewrite ?Htype; simpl; split_and?; try done;
    intros; try done; try (by destruct (validatingUtx params)).
  match goal with H : txType tx = _ → _ |- _ => exact (H Htype) end.
Qed.

(** The flag that the switch leaves for an Ethereum transaction. *)
Lemma appendTx_dispatch_ethereum_returns tx params accountHasVerifierScript senderAddr :
  txType tx = EthereumMetamaskTransaction →
  returns
    (λ d,
       ∃ kind, dTx d = setTxKind tx kind
         ∧ needToValidateBalanceDiff d = validatingUtx params && isEthereumTransfer kind)
    (appendTx_dispatch env tx params accountHasVerifierScript senderAddr).
Proof.
  intros Htype. unfold appendTx_dispatch. rewrite Htype.
  destruct (txBody tx); returns_steps.
  all: eexists; split; [reflexivity|]; simpl; by rewrite ?andb_true_r, ?andb_false_r.
Qed.

End Dispatch.

#[global] Hint Resolve appendTx_dispatch_returns : returns.

(** ** The commit *)

(** C4. A transaction committed with a failed application result is never
    performed: [commitTxApplication] makes no call to [performTx].  When the
    commit succeeds, the transaction ID is in the recent-ID set, the script
    runs of the result are added to the counter and the complexity of the
    transaction to the total, the diff of the result is saved, and the
    transaction is written as failed: to the in-memory storage in pool mode,
    and to the storage, after its miner fee is counted, in block mode. *)
Theorem commitTxApplication_failed env tx params inv res a :
  status res = false →
  let run := commitTxApplication env tx params inv res a in
  made isPerformTx run.2 = made isPerformTx a ∧
  (is_ok run.1 = true →
   (∃ id, GetID tx = Ok id ∧ recentTxIds run.2 = {[ id ]} ∪ recentTxIds a) ∧
   totalScriptsRuns run.2 = uint64 (totalScriptsRuns a + resTotalScriptsRuns res) ∧
   sc run.2 = addRecentTxComplexity (sc a) ∧
   diffStor run.2 = diffStor a ++ [diff (changes res)] ∧
   calls run.2 =
     calls a ++
     CallSaveTxDiff (diff (changes res)) (Ok tt) ::
     (if validatingUtx params
      then [CallWriteTransactionToMem tx true (Ok tt)]
      else [CallCountMinerFee tx (Ok tt); CallWriteTransaction tx true (Ok tt)])).
Proof.
  intros Hstatus run. subst run. split.
  - assert (always (keeps isPerformTx) (commitTxApplication env tx params inv res)) as H.
    { unfold commitTxApplication. always_auto. }
    apply H.
  - unfold commitTxApplication. rewrite Hstatus.
    run_all; try discriminate; intros _;
      repeat match goal with
             | u : unit |- _ => destruct u
             | H : _ = Ok _ |- _ => rewrite H
             end;
      rewrite <- ?app_assoc; simpl; split_and!; eauto.
Qed.

Lemma commitTxApplication_failed_witness :
  let run :=
    commitTxApplication (chain allFeatures [] passes enough []) exchangeTx
      (paramsOf false true true) None
      (newApplicationResult false 3 feeOnly {| smartAssets := [] |}) newTxAppender in
  made isPerformTx run.2 = 0 ∧ totalScriptsRuns run.2 = 3.
Proof.
  intros run.
  pose proof (commitTxApplication_failed (chain allFeatures [] passes enough []) exchangeTx
                (paramsOf false true true) None
                (newApplicationResult false 3 feeOnly {| smartAssets := [] |})
                newTxAppender eq_refl) as [H1 H2].
  split; [exact H1 | exact (proj1 (proj2 (H2 eq_refl)))].
Defined.

(** ** Pool validation *)

Section Pool.

Context (env : Collaborators).

Lemma appendTx_dispatch_prefix tx params scripted sender :
  always prefix (appendTx_dispatch env tx params scripted sender).
Proof. unfold appendTx_dispatch. unfold_methods. always_auto. Qed.

Lemma appendTx_dispatch_keeps_durable tx params scripted sender :
  always (keeps isDurableWrite) (appendTx_dispatch env tx params scripted sender).
Proof. unfold appendTx_dispatch. unfold_methods. always_auto. Qed.

Hint Resolve appendTx_dispatch_prefix appendTx_dispatch_keeps_durable : runs.

(** In pool mode nothing is written to the storage and no miner fee is
    counted. *)
Lemma appendTx_keeps_durable tx params :
  validatingUtx params = true → always (keeps isDurableWrite) (appendTx env tx params).
Proof.
  intros Hutx. unfold appendTx, appendTx_body. unfold_methods. always_auto.
Qed.

Lemma commitTxApplication_writes_mem tx tx' params inv res :
  validatingUtx params = true → GetID tx' = GetID tx →
  onOk (more (isWriteToMemOf tx)) (commitTxApplication env tx' params inv res).
Proof.
  intros Hutx Hid a x a'. unfold commitTxApplication. rewrite Hutx.
  run_all; intros [= <- <-]; unfold more; simpl;
    rewrite !countCalls_app; simpl;
    repeat match goal with
           | H : _ = Ok _ |- _ => rewrite H
           end;
    rewrite <- Hid;
    repeat match goal with
           | H : _ = Ok _ |- _ => rewrite H
           end;
    rewrite String.eqb_refl;
    repeat match goal with
           | |- context [countCalls ?p ?l] =>
               lazymatch goal with
               | H : 0 ≤ countCalls p l |- _ => fail
               | _ => pose proof (countCalls_nonneg p l)
               end
           | |- context [if ?b then _ else _] => destruct b
           end; lia.
Qed.

(** In pool mode a transaction that is accepted has been written to the
    in-memory storage. *)
Lemma appendTx_writes_mem tx params :
  validatingUtx params = true → onOk (more (isWriteToMemOf tx)) (appendTx env tx params).
Proof.
  intros Hutx. unfold appendTx.
  apply onOk_attempt_bind; [| intros r; always_auto | reflexivity].
  unfold appendTx_body.
  repeat (cbv beta zeta;
          lazymatch goal with
          | |- onOk _ (mbind _ (attempt _)) => fail
          | |- onOk _ (mbind _ (appendTx_dispatch _ _ _ _ _)) =>
              eapply onOk_bind_returns;
              [ apply appendTx_dispatch_prefix
              | apply appendTx_dispatch_returns
              | intros d (Hd & Hdid & _) ]
          | |- onOk _ (mbind _ _) =>
              apply onOk_bind_r; [unfold_methods; always_auto | intros ?]
          end).
  apply onOk_attempt_bind.
  - apply commitTxApplication_writes_mem; congruence.
  - intros r. unfold_methods. always_auto.
  - reflexivity.
Qed.

End Pool.

Opaque appendTx.

(** Two binds that start with the same step, the one being the other
    followed by [K]. *)
Lemma bind_step {A B C} (m : M A) (f : A → M B) (f' : A → M C)
    (K : result C * txAppender → result B * txAppender) a :
  (∀ e a', K (Err e, a') = (Err e, a')) →
  (∀ x a', f x a' = K (f' x a')) →
  (m ≫= f) a = K ((m ≫= f') a).
Proof.
  intros HK Hf. unfold mbind, M_bind.
  destruct (m a) as [[x|e] a']; [apply Hf | by rewrite HK].
Qed.

(** [validateNextTx] is its lookups, then [appendTx] with the parameters made
    of them, whose error it wraps. *)
Lemma validateNextTx_run env tx current parent version accept a :
  validateNextTx env tx current parent version accept a
  = match validateNextTx_params env current parent version accept a with
    | (Ok params, a1) => orReturn (appendTx env tx params) NewInfoMsg a1
    | (Err e, a1) => (Err e, a1)
    end.
Proof.
  set (K := λ ra : result appendTxParams * txAppender,
         match ra with
         | (Ok params, a1) => orReturn (appendTx env tx params) NewInfoMsg a1
         | (Err e, a1) => (Err e, a1)
         end).
  change (validateNextTx env tx current parent version accept a
          = K (validateNextTx_params env current parent version accept a)).
  unfold validateNextTx, validateNextTx_params.
  repeat (cbv beta zeta; apply (bind_step _ _ _ K); [done | intros ? ?]).
  reflexivity.
Qed.

(** The lookups of [validateNextTx]: the error of the first that fails is
    returned, extended; when none fails, the parameters are those of the pool
    mode, with the arguments of the call. *)
Lemma validateNextTx_params_run env current parent version accept a :
  let lookups := validateNextTx_params env current parent version accept a in
  match lookups.1 with
  | Err e =>
      ∃ e0 msg c,
        e = Extend e0 msg ∧ last (calls lookups.2) = Some c ∧ lookupError c = Some e0
  | Ok params =>
      validatingUtx params = true
      ∧ acceptFailed params = accept
      ∧ chans params = false
      ∧ currentTimestamp (checkerInfoOf params) = current
      ∧ parentTimestamp (checkerInfoOf params) = parent
      ∧ blockVersion (checkerInfoOf params) = version
  end.
Proof.
  unfold validateNextTx_params, currentBlock, currentBlockInfo, isActivated.
  unfold_monad. simpl.
  repeat (run_case; simpl); try (by split_and!).
  all: eexists _, _, _; split_and!; [reflexivity | apply last_snoc | reflexivity].
Qed.

(** C8.  [validateNextTx] makes its lookups, and when none of them fails
    runs [appendTx] on the appender as they left it, with [validatingUtx]
    set, no verifier channels, the caller's [acceptFailed] and timestamps: it
    returns no error when [appendTx] returns none, and every error of
    [appendTx] wrapped as an informational message.  The only other error it
    returns is the one of the lookup that failed, the last call then,
    extended.  It writes no transaction to the storage and counts no miner
    fee, and when it returns no error the transaction has been written to
    the in-memory storage. *)
Theorem validateNextTx_pool env tx current parent version accept a :
  let run := validateNextTx env tx current parent version accept a in
  let lookups := validateNextTx_params env current parent version accept a in
  (∀ e, lookups.1 = Err e →
     run = (Err e, lookups.2)
     ∧ ∃ e0 msg c,
         e = Extend e0 msg ∧ last (calls run.2) = Some c ∧ lookupError c = Some e0)
  ∧ (∀ params, lookups.1 = Ok params →
     validatingUtx params = true
     ∧ acceptFailed params = accept
     ∧ chans params = false
     ∧ currentTimestamp (checkerInfoOf params) = current
     ∧ parentTimestamp (checkerInfoOf params) = parent
     ∧ blockVersion (checkerInfoOf params) = version
     ∧ run.2 = (appendTx env tx params lookups.2).2
     ∧ run.1 = match (appendTx env tx params lookups.2).1 with
               | Ok _ => Ok tt
               | Err e => Err (NewInfoMsg e)
               end)
  ∧ made isDurableWrite run.2 = made isDurableWrite a
  ∧ (run.1 = Ok tt → made (isWriteToMemOf tx) a < made (isWriteToMemOf tx) run.2).
Proof.
  intros run lookups. subst run lookups.
  assert (made isDurableWrite
            (validateNextTx env tx current parent version accept a).2
          = made isDurableWrite a) as Hdurable.
  { assert (always (keeps isDurableWrite)
              (validateNextTx env tx current parent version accept)) as H.
    { unfold validateNextTx. unfold_methods. always_auto.
      by apply appendTx_keeps_durable. }
    apply H. }
  assert ((validateNextTx env tx current parent version accept a).1 = Ok tt →
          made (isWriteToMemOf tx) a
          < made (isWriteToMemOf tx)
              (validateNextTx env tx current parent version accept a).2) as Hmem.
  { intros Hok.
    assert (onOk (more (isWriteToMemOf tx))
              (validateNextTx env tx current parent version accept)) as H.
    { unfold validateNextTx.
      repeat (cbv beta zeta;
              lazymatch goal with
              | |- onOk _ (mbind _ _) =>
                  apply onOk_bind_r; [unfold_methods; always_auto | intros ?]
              end).
      by apply onOk_orReturn, appendTx_writes_mem. }
    destruct (validateNextTx _ _ _ _ _ _ a) as [r a'] eqn:Hrun'.
    simpl in Hok. subst r. exact (H _ _ _ Hrun'). }
  split_and!; [| | exact Hdurable | exact Hmem]; clear Hdurable Hmem.
  all: pose proof (validateNextTx_params_run env current parent version accept a) as Hparams.
  all: rewrite validateNextTx_run.
  all: simpl in Hparams.
  all: destruct (validateNextTx_params env current parent version accept a)
         as [[params|e] a1]; simpl in *.
  - by intros e [=].
  - intros ? [= <-]. destruct Hparams as (e0 & msg & c & -> & Hlast & Hc).
    split; [done|]. by exists e0, msg, c.
  - intros ? [= <-]. destruct Hparams as (? & ? & ? & ? & ? & ?).
    unfold orReturn.
    split_and!; try done; by destruct (appendTx _ _ _ _) as [[[]|e] a'].
  - by intros ? [=].
Qed.

Transparent appendTx.

Lemma validateNextTx_pool_witness :
  let tx := txOf TransferTransaction OtherBody "t1" in
  let accepted :=
    validateNextTx (chain allFeatures [] passes enough []) tx 60 50 5 false newTxAppender in
  let rejected :=
    validateNextTx (chain allFeatures [] passes insufficient []) tx 60 50 5 false
      newTxAppender in
  accepted.1 = Ok tt
  ∧ 0 < made (isWriteToMemOf tx) accepted.2
  ∧ made isDurableWrite accepted.2 = 0
  ∧ rejected.1
    = Err (NewInfoMsg (Extend (Errorf "negative balance" []) "validate transaction diff"))
  ∧ made isDurableWrite rejected.2 = 0.
Proof.
  intros tx accepted rejected.
  assert (accepted.1 = Ok tt) as Hok by (vm_compute; reflexivity).
  destruct (validateNextTx_pool (chain allFeatures [] passes enough []) tx 60 50 5 false
              newTxAppender) as (_ & _ & Hdurable & Hmem).
  destruct (validateNextTx_pool (chain allFeatures [] passes insufficient []) tx 60 50 5
              false newTxAppender) as (_ & Hwrapped & Hdurable' & _).
  pose (lookups := validateNextTx_params (chain allFeatures [] passes insufficient [])
                     60 50 5 false newTxAppender).
  vm_compute in lookups.
  lazymatch eval cbv delta [lookups] in lookups with
  | (Ok ?params, ?a1) =>
      assert ((validateNextTx_params (chain allFeatures [] passes insufficient [])
                 60 50 5 false newTxAppender).1 = Ok params) as Hlookups
        by (vm_compute; reflexivity);
      destruct (Hwrapped params Hlookups) as (_ & _ & _ & _ & _ & _ & _ & Herr)
  end.
  split_and!; [exact Hok | exact (Hmem Hok) | exact Hdurable | | exact Hdurable'].
  refine (eq_trans Herr _). vm_compute. reflexivity.
Defined.

(** ** The loops over the smart assets *)

Lemma countCalls_asset_runs tx cs :
  Forall (isAssetScriptRunOf tx) cs →
  countCalls isAssetScriptRun cs = Z.of_nat (length cs)
  ∧ countCalls isScriptRun cs = Z.of_nat (length cs)
  ∧ countCalls isAccountScriptRun cs = 0
  ∧ countCalls isValidateTxDiff cs = 0.
Proof.
  induction 1 as [|c cs (asset & reply & ->) _ IH]; simpl; [done|].
  destruct IH as (-> & -> & -> & ->). lia.
Qed.

Section Loops.

Context (env : Collaborators).

(** The loop of [handleExchange] runs the asset scripts in turn and stops at
    the first one that does not pass: its call is then the last one. *)
Lemma handleExchange_assets_run tx params assets a r a' :
  handleExchange_assets env tx params assets a = (r, a') →
  sameStores a a' ∧
  ∃ cs, calls a' = calls a ++ cs ∧ Forall (isAssetScriptRunOf tx) cs ∧
    match r with
    | Ok true =>
        length cs = length assets
        ∧ countCalls isFailedScriptRun cs = 0
        ∧ (cs = [] ∨ ∃ cs' asset, cs = cs' ++ [CallAssetScript tx asset (Ok true)])
    | Ok false =>
        ∃ cs' asset reply, cs = cs' ++ [CallAssetScript tx asset reply]
          ∧ countCalls isFailedScriptRun cs' = 0
          ∧ (reply = Ok false ∨ ∃ e, reply = Err e ∧ acceptFailed params = true)
    | Err e =>
        ∃ cs' asset, cs = cs' ++ [CallAssetScript tx asset (Err e)]
          ∧ countCalls isFailedScriptRun cs' = 0
          ∧ acceptFailed params = false
    end.
Proof.
  revert a. induction assets as [|x rest IH]; intros a; simpl.
  - intros [= <- <-]. split; [done|]. exists []. rewrite app_nil_r.
    split_and!; eauto.
  - unfold scCallAssetScript. unfold_monad. simpl.
    destruct (callAssetScript env (calls a) tx x params) as [[res|e] cost] eqn:Hreply;
      simpl.
    + destruct res; simpl.
      * intros Hrest. apply IH in Hrest as (Hsame & cs & Hcs & Hall & Hlast).
        split; [exact Hsame|].
        exists (CallAssetScript tx x (Ok true) :: cs).
        split; [rewrite Hcs; simpl; by rewrite <- app_assoc|].
        split; [constructor; [by eexists _, _ | done]|].
        destruct r as [[]|e].
        -- destruct Hlast as (Hlen & Hnone & Hlast). split; [simpl; by rewrite Hlen|].
           split; [simpl; by rewrite Hnone|].
           right. destruct Hlast as [->|(cs' & asset & ->)].
           ++ by exists [], x.
           ++ by exists (CallAssetScript tx x (Ok true) :: cs'), asset.
        -- destruct Hlast as (cs' & asset & reply & -> & Hnone & Hreply').
           exists (CallAssetScript tx x (Ok true) :: cs'), asset, reply.
           split_and!; [done | simpl; by rewrite Hnone | done].
        -- destruct Hlast as (cs' & asset & -> & Hnone & Hacc).
           exists (CallAssetScript tx x (Ok true) :: cs'), asset.
           split_and!; [done | simpl; by rewrite Hnone | done].
      * intros [= <- <-]. split; [done|].
        exists [CallAssetScript tx x (Ok false)].
        split; [done|]. split; [repeat constructor; by eexists _, _|].
        exists [], x, (Ok false). split_and!; eauto.
    + destruct (acceptFailed params) eqn:Hacc; simpl; intros [= <- <-];
        (split; [done|]);
        exists [CallAssetScript tx x (Err e)];
        (split; [done|]); (split; [repeat constructor; by eexists _, _|]).
      * exists [], x, (Err e). split_and!; eauto.
      * exists [], x. split_and!; eauto.
Qed.

(** The loop of [checkTransactionScripts] counts every asset script it runs,
    but for a SetAssetScript transaction before Ride4DApps. *)
Lemma checkTransactionScripts_assets_run tx params r4 assets n a m a' :
  checkTransactionScripts_assets env tx params r4 assets n a = (Ok m, a') →
  0 ≤ n → n + Z.of_nat (length assets) < 2 ^ 64 →
  m = n + (if bool_decide (txType tx = SetAssetScriptTransaction) && negb r4
           then 0 else Z.of_nat (length assets))
  ∧ made isAssetScriptRun a' = made isAssetScriptRun a + Z.of_nat (length assets).
Proof.
  revert n a. induction assets as [|x rest IH]; intros n a; simpl length.
  - simpl. intros [= <- <-] _ _. destruct (_ && _); lia.
  - simpl. unfold scCallAssetScript. unfold_monad. simpl.
    destruct (callAssetScript env (calls a) tx x params) as [[res|e] cost] eqn:Hreply;
      simpl; [|done].
    destruct res; simpl; [|done].
    destruct (bool_decide (txType tx = SetAssetScriptTransaction) && negb r4) eqn:Hskip;
      intros Hrest Hn Hbound.
    + apply IH in Hrest as [-> Hmade]; [|lia..].
      rewrite Hmade, made_logCall. simpl. split; [lia|].
      unfold made. simpl. lia.
    + assert (uint64 (n + 1) = n + 1) as Hwrap
          by (unfold uint64; apply Z.mod_small; lia).
      rewrite Hwrap in Hrest.
      apply IH in Hrest as [-> Hmade]; [|lia..].
      rewrite Hmade, made_logCall. simpl. split; [lia|].
      unfold made. simpl. lia.
Qed.

End Loops.

(** ** Script runs of a transaction that cannot fail *)

(** C6. For a SetAssetScript transaction, [checkTransactionScripts] runs the
    script of every smart asset of the transaction whether Ride4DApps is
    activated or not, and a run adds nothing to the returned count before the
    activation and one after it: the count is the account script, if any,
    plus, after the activation only, the asset scripts. *)
Theorem checkTransactionScripts_SetAssetScript env tx accountScripted params a r4 n cd a' :
  txType tx = SetAssetScriptTransaction →
  activated env Ride4DApps r4 →
  checkTransactionScripts env tx accountScripted params a = (Ok (n, cd), a') →
  Z.of_nat (length (smartAssets cd)) < 2 ^ 63 →
  made isAssetScriptRun a' = made isAssetScriptRun a + Z.of_nat (length (smartAssets cd))
  ∧ n = (if accountScripted then 1 else 0)
        + (if r4 then Z.of_nat (length (smartAssets cd)) else 0).
Proof.
  intros Htype Hr4 Hrun Hbound. revert Hrun.
  unfold checkTransactionScripts, scCallAccountScriptWithTx, txHandlerCheckTx, isActivated.
  unfold_monad. simpl.
  destruct accountScripted; simpl.
  - destruct (callAccountScriptWithTx env (calls a) tx params) as [[[]|e] cost]; simpl;
      [|done].
    destruct (checkTx env _ tx _) as [cd'|e]; simpl; [|done].
    rewrite Hr4.
    destruct (checkTransactionScripts_assets _ _ _ _ _ _ _) as [[m|e] a2] eqn:Hloop;
      simpl; [|done].
    intros [= <- <- <-].
    apply checkTransactionScripts_assets_run in Hloop as [-> Hmade]; [|lia..].
    rewrite Hmade, !made_logCall. simpl.
    rewrite Htype. simpl. split; [unfold made; simpl; lia|].
    destruct r4; simpl; lia.
  - destruct (checkTx env _ tx _) as [cd'|e]; simpl; [|done].
    rewrite Hr4.
    destruct (checkTransactionScripts_assets _ _ _ _ _ _ _) as [[m|e] a2] eqn:Hloop;
      simpl; [|done].
    intros [= <- <- <-].
    apply checkTransactionScripts_assets_run in Hloop as [-> Hmade]; [|lia..].
    rewrite Hmade, !made_logCall. simpl.
    rewrite Htype. simpl. split; [unfold made; simpl; lia|].
    destruct r4; simpl; lia.
Qed.

Lemma checkTransactionScripts_SetAssetScript_witness :
  let env := chain beforeRide4DApps [] passes enough ["A1"] in
  let run := checkTransactionScripts env setAssetScriptTx true (paramsOf false true true)
               newTxAppender in
  run.1 = Ok (1, {| smartAssets := ["A1"] |}) ∧ made isAssetScriptRun run.2 = 1.
Proof.
  intros env run. split; [reflexivity|].
  exact (proj1 (checkTransactionScripts_SetAssetScript env setAssetScriptTx true
                  (paramsOf false true true) newTxAppender false 1
                  {| smartAssets := ["A1"] |} run.2
                  eq_refl (λ h, eq_refl) eq_refl eq_refl)).
Defined.

(** ** The exchange transaction *)

Lemma uint64_small z : 0 ≤ z < 2 ^ 64 → uint64 z = z.
Proof. intros Hz. unfold uint64. by apply Z.mod_small. Qed.

(** Additions that do not wrap, innermost first. *)
Ltac uint64_simpl :=
  repeat match goal with
         | |- context [uint64 ?z] =>
             lazymatch z with
             | context [uint64 _] => fail
             | _ => rewrite (uint64_small z) by lia
             end
         end.

(** C7, as amended.  For an exchange transaction that [handleExchange]
    returns a result for: before the activation of Ride4DApps the reported
    count of script runs is zero; after it, the count is the account and
    order scripts run plus the smart assets of the transaction, whether the
    script of each asset was reached or not; when the result is a success,
    this is the number of the scripts run. *)
Theorem handleExchange_scriptsRuns env tx info a p res a' r4 :
  handleExchange env tx info a = (Ok (p, res), a') →
  activated env Ride4DApps r4 →
  Z.of_nat (length (smartAssets (checkerData res))) < 2 ^ 63 →
  (r4 = false → resTotalScriptsRuns res = 0)
  ∧ (r4 = true →
     resTotalScriptsRuns res
     = madeSince isAccountScriptRun a a' + Z.of_nat (length (smartAssets (checkerData res))))
  ∧ (r4 = true → status res = true →
     resTotalScriptsRuns res = madeSince isScriptRun a a').
Proof.
  intros Hrun Hr4 Hbound. revert Hrun Hbound.
  unfold handleExchange, countExchangeScriptsRuns, blockDifferCreateTransactionDiff,
    blockDifferCreateFailedTransactionDiff, diffApplierValidateTxDiff, txHandlerCheckTx,
    scCallAccountScriptWithOrder, scCallAccountScriptWithTx, isActivated, orderIsScripted.
  unfold_monad. simpl.
  repeat (first [rewrite Hr4 | run_case]; simpl); try discriminate;
    intros [= <- <- <-]; simpl; intros Hbound;
    match goal with
    | H : handleExchange_assets _ _ _ _ _ = _ |- _ =>
        apply handleExchange_assets_run in H as (_ & cs & Hcs & Hall & Hlast);
        apply countCalls_asset_runs in Hall as (Hc1 & Hc2 & Hc3 & Hc4)
    end;
    unfold madeSince, made; simpl; rewrite Hcs; simpl;
    rewrite ?countCalls_app; simpl; rewrite ?countCalls_app; simpl;
    rewrite ?Hc2, ?Hc3;
    (split_and!; [by intros -> | intros -> | intros -> Hstatus]); simpl;
    try discriminate;
    uint64_simpl; try lia;
    match type of Hlast with
    | context [if ?b then _ else _] => destruct b; try discriminate
    end;
    destruct Hlast as [Hlen _]; lia.
Qed.

Lemma handleExchange_scriptsRuns_witness :
  let env := chain allFeatures [] passes enough ["A1"; "A2"] in
  let run := handleExchange env exchangeTx (fallibleOf (paramsOf false true true))
               newTxAppender in
  ∃ p res, run.1 = Ok (p, res)
    ∧ resTotalScriptsRuns res = 5
    ∧ resTotalScriptsRuns res = madeSince isScriptRun newTxAppender run.2.
Proof.
  intros env run.
  pose (v := run). vm_compute in v.
  lazymatch eval cbv delta [v] in v with
  | (Ok (?p, ?res), _) =>
      exists p, res;
      assert (run = (Ok (p, res), run.2)) as Hrun by (vm_compute; reflexivity);
      assert (Z.of_nat (length (smartAssets (checkerData res))) < 2 ^ 63) as Hbound
        by (vm_compute; reflexivity);
      split; [vm_compute; reflexivity|]; split; [vm_compute; reflexivity|];
      exact (proj2 (proj2
        (handleExchange_scriptsRuns env exchangeTx (fallibleOf (paramsOf false true true))
           newTxAppender p res run.2 true Hrun (λ h, eq_refl) Hbound)) eq_refl eq_refl)
  end.
Defined.

(** C7, the claim as stated fails: with Ride4DApps activated and failed
    transactions accepted, an exchange with two smart assets whose first
    asset script returns a negative result is reported with five script runs
    (the sender's, two orders', two assets') while four scripts were run. *)
Lemma handleExchange_scriptsRuns_counterexample :
  let env := chain allFeatures [] rejectsA1 enough ["A1"; "A2"] in
  let run := handleExchange env exchangeTx (fallibleOf (paramsOf false true true))
               newTxAppender in
  newestIsActivated env [] Ride4DApps = Ok true
  ∧ ∃ p res, run.1 = Ok (p, res)
      ∧ status res = false
      ∧ resTotalScriptsRuns res = 5
      ∧ madeSince isScriptRun newTxAppender run.2 = 4
      ∧ resTotalScriptsRuns res ≠ madeSince isScriptRun newTxAppender run.2.
Proof.
  intros env run. split; [reflexivity|].
  vm_compute. eexists _, _. split_and!; try reflexivity. discriminate.
Qed.

Ltac find_call :=
  repeat first [apply list_elem_of_here | apply list_elem_of_further].

Lemma handleExchange_run env tx info a r a' :
  handleExchange env tx info a = (r, a') →
  ∃ cs, calls a' = calls a ++ cs
    ∧ (∀ p res, r = Ok (p, res) →
       ∃ failedChanges successfulChanges,
         CallCreateFailedTransactionDiff tx (Ok failedChanges) ∈ cs
         ∧ CallCreateTransactionDiff tx (Ok successfulChanges) ∈ cs
         ∧ changes res = if status res then successfulChanges else failedChanges)
    ∧ countCalls isFailedScriptRun (removelast cs) = 0
    ∧ match last cs with
      | Some c =>
          exchangeOutcome (effectiveAcceptFailed info) r c
          ∧ validatesSuccessfulDiff tx (diffStor a) (removelast cs) c
      | None => True
      end.
Proof.
  unfold effectiveAcceptFailed.
  unfold handleExchange, countExchangeScriptsRuns, blockDifferCreateTransactionDiff,
    blockDifferCreateFailedTransactionDiff, diffApplierValidateTxDiff, txHandlerCheckTx,
    scCallAccountScriptWithOrder, scCallAccountScriptWithTx, isActivated, orderIsScripted.
  unfold_monad. simpl.
  repeat (run_case; simpl); intros [= <- <-]; simpl;
    try match goal with
        | H : handleExchange_assets _ _ _ _ _ = _ |- _ =>
            apply handleExchange_assets_run in H as ((Hsame & _) & cs & Hcs & _ & Hlast);
            simpl in Hsame, Hcs, Hlast; rewrite Hcs, ?Hsame
        end;
    rewrite <- ?app_assoc; simpl.
  all: first [ exists []; split; [by rewrite app_nil_r|]
             | eexists; split; [reflexivity|] ].
  all: (split; [first [done | intros ? ? [= <- <-]; simpl; eexists _, _;
                               split_and!; [find_call | find_call | reflexivity]]|]).
  all: repeat match goal with
              | H : if ?b then _ else _ |- _ => destruct b
              | H : match ?x with _ => _ end |- _ => destruct x
              | H : _ ∧ _ |- _ => destruct H
              | H : _ ∨ _ |- _ => destruct H
              | H : ∃ _, _ |- _ => destruct H
              end; subst; simpl in * |-; try discriminate.
  all: (split;
        [ rewrite ?app_comm_cons, ?app_assoc, ?removelast_last; simpl;
          repeat match goal with
                 | H : countCalls _ (_ ++ _) = _ |- _ =>
                     rewrite countCalls_app in H; simpl in H
                 end;
          rewrite ?countCalls_app; simpl; lia |]).
  all: rewrite ?app_comm_cons, ?app_assoc, ?last_snoc, ?removelast_last; simpl; try exact I.
  all: unfold failedResult, successfulResult; simpl.
  all: try match goal with
           | H : ?b = _ |- context [if ?b then _ else _] => rewrite H
           end.
  all: try (split; [repeat esplit; simpl; congruence|]).
  all: try done.
  all: (split; [reflexivity|]; eexists; split; [find_call | reflexivity]).
Qed.

Section Contract.

Context (env : Collaborators).

(** Under the contract of [callAssetScript], the loop of [handleExchange]
    gives up the successful diff only when failed transactions are
    accepted. *)
Lemma handleExchange_assets_rejects tx params assets a a' :
  rejectsWithError env → acceptFailed params = false →
  handleExchange_assets env tx params assets a = (Ok false, a') → False.
Proof.
  intros Hcontract Haccept. revert a.
  induction assets as [|x rest IH]; intros a; simpl; [done|].
  unfold scCallAssetScript. unfold_monad. simpl.
  destruct (callAssetScript env (calls a) tx x params) as [[res|e] cost] eqn:Hreply;
    simpl.
  - destruct res; simpl; [apply IH|].
    intros _. apply (Hcontract (calls a) tx x params Haccept). by rewrite Hreply.
  - by rewrite Haccept.
Qed.

Lemma handleExchange_rejects tx info a p res a' :
  rejectsWithError env → effectiveAcceptFailed info = false →
  handleExchange env tx info a = (Ok (p, res), a') → status res = true.
Proof.
  unfold effectiveAcceptFailed. intros Hcontract Heff Hrun.
  unfold handleExchange in Hrun.
  destruct (asExchange tx) as [[o1 o2]|]; [|done].
  repeat (cbv beta zeta in Hrun;
          lazymatch type of Hrun with
          | (mbind _ (handleExchange_assets _ _ _ _)) _ = _ => fail
          | (mbind _ _) _ = _ =>
              let x := fresh "x" in
              let a1 := fresh "a" in
              apply bind_Ok in Hrun as (x & a1 & _ & Hrun)
          end).
  apply bind_Ok in Hrun as (passed & aL & Hloop & Hrun).
  destruct passed.
  - simpl in Hrun. rewrite Heff in Hrun. by injection Hrun as <- <- <-.
  - exfalso.
    eapply handleExchange_assets_rejects; [exact Hcontract | | exact Hloop]. exact Heff.
Qed.

End Contract.



(** The contract is needed: were an asset script to return a negative
    result and no error without accepting failed transactions (block mode,
    BlockV5 not activated), [handleExchange] would not reject but return the
    failed-diff result. *)
Lemma handleExchange_needs_contract :
  let env := chain allFeatures [] rejectsA1 enough ["A1"; "A2"] in
  let info := fallibleOf (paramsOf false false false) in
  let run := handleExchange env exchangeTx info newTxAppender in
  effectiveAcceptFailed info = false
  ∧ last (calls run.2) = Some (CallAssetScript exchangeTx "A1" (Ok false))
  ∧ ∃ p res, run.1 = Ok (p, res) ∧ status res = false ∧ changes res = feeOnly.
Proof.
  intros env info run. split; [reflexivity|].
  vm_compute. split; [reflexivity|]. eexists _, _. split_and!; reflexivity.
Qed.

(** ** BlockV5 and accepting failed exchanges *)

Lemma handleExchange_keeps_validate env tx info :
  effectiveAcceptFailed info = false →
  always (keeps isValidateTxDiff) (handleExchange env tx info).
Proof.
  unfold effectiveAcceptFailed. intros Heff. unfold handleExchange.
  destruct (asExchange tx) as [[o1 o2]|]; [|always_auto].
  cbv zeta.
  change (acceptFailed (setAcceptFailed ?b _)) with b. rewrite Heff.
  unfold_methods. always_auto.
Qed.

(** C10. [handleExchange] works with [acceptFailed] replaced by its
    conjunction with [blockV5Activated].  So when BlockV5 is not activated,
    whatever the caller passed: the parameters it leaves have [acceptFailed]
    unset, it makes no call to validate a diff, and an asset script that
    returns an error makes it return this error.  [handleFallible] however
    decides on the flag as the caller passed it: when it is set, the fees
    are checked first, a failure of this check is returned as it is, and
    [handleExchange] runs after a check that passed. *)
Theorem handleExchange_needs_BlockV5 env tx info a :
  blockV5Activated (appendTxParamsOf info) = false →
  let run := handleExchange env tx info a in
  (∀ p res, run.1 = Ok (p, res) → acceptFailed p = false)
  ∧ made isValidateTxDiff run.2 = made isValidateTxDiff a
  ∧ (∀ cs asset e, calls run.2 = calls a ++ cs ++ [CallAssetScript tx asset (Err e)] →
     run.1 = Err e)
  ∧ (txType tx = ExchangeTransaction → acceptFailed (appendTxParamsOf info) = true →
     let fees := checkTxFees env tx info a in
     let fallible := handleFallible env tx info a in
     made isFeeDiffForExchange fees.2 = made isFeeDiffForExchange a + 1
     ∧ (∀ e, fees.1 = Err e → fallible = (Err e, fees.2))
     ∧ (fees.1 = Ok tt →
        fallible.2 = (handleExchange env tx info fees.2).2
        ∧ fallible.1 = match (handleExchange env tx info fees.2).1 with
                       | Ok (p, res) => Ok (p, None, res)
                       | Err e => Err e
                       end)).
Proof.
  intros Hv5 run.
  assert (effectiveAcceptFailed info = false) as Heff
      by (unfold effectiveAcceptFailed; by rewrite Hv5).
  split_and!.
  - intros p res Hok. destruct run as [r a'] eqn:Hrun. simpl in Hok. subst r.
    pose proof (handleExchange_returns env tx info a _ a' Hrun) as Hp.
    simpl in Hp. subst p. simpl. by rewrite Hv5.
  - apply (handleExchange_keeps_validate env tx info Heff a).
  - intros cs asset e Hcalls. subst run.
    destruct (handleExchange env tx info a) as [r a'] eqn:Hrun. simpl in *.
    apply handleExchange_run in Hrun as (cs0 & Hcs0 & _ & _ & Hlast).
    rewrite Hcs0 in Hcalls. apply app_inv_head in Hcalls. subst cs0.
    rewrite last_snoc in Hlast. destruct Hlast as [Hlast _].
    simpl in Hlast. by rewrite Heff in Hlast.
  - intros Htype Haccept fees fallible. subst fees fallible. clear run.
    unfold handleFallible. rewrite Haccept, Htype.
    unfold checkTxFees. rewrite Htype.
    unfold diffApplierValidateTxDiff. unfold_monad. simpl.
    destruct (createDiffForExchangeFeeValidation env (calls a) tx) as [feeChanges|e];
      simpl.
    + destruct (validateTxDiff env _ _ _) as [[]|e]; simpl.
      * split_and!.
        -- rewrite !made_logCall; simpl. lia.
        -- intros ? [=].
        -- intros _.
           destruct (handleExchange env tx info _) as [[[p res]|e] a']; simpl;
             split; reflexivity.
      * split_and!.
        -- rewrite !made_logCall; simpl. lia.
        -- by intros e' [= <-].
        -- intros [=].
    + split_and!.
      * rewrite !made_logCall; simpl. lia.
      * by intros e' [= <-].
      * intros [=].
Qed.

Lemma handleExchange_needs_BlockV5_witness :
  let env := chain beforeBlockV5 [] failsA1 enough ["A1"] in
  let info := fallibleOf (paramsOf true true false) in
  let run := handleExchange env exchangeTx info newTxAppender in
  made isValidateTxDiff run.2 = 0
  ∧ made isValidateTxDiff (handleFallible env exchangeTx info newTxAppender).2 = 1.
Proof.
  intros env info run. split; [|vm_compute; reflexivity].
  exact (proj1 (proj2
    (handleExchange_needs_BlockV5 env exchangeTx info newTxAppender eq_refl))).
Defined.

(** ** The default path validates no diff *)

Section Validation.

Context (env : Collaborators).

Lemma appendTx_dispatch_keeps_validate tx params scripted sender :
  isDefaultType (txType tx) = true →
  always (keeps isValidateTxDiff) (appendTx_dispatch env tx params scripted sender).
Proof.
  intros Hdefault. unfold appendTx_dispatch.
  destruct (txType tx); try discriminate; unfold_methods; always_auto.
Qed.

(** In block mode [appendTx] validates no diff of a transaction that takes
    the default path. *)
Lemma appendTx_keeps_validate tx params :
  validatingUtx params = false → isDefaultType (txType tx) = true →
  always (keeps isValidateTxDiff) (appendTx env tx params).
Proof.
  intros Hutx Hdefault. unfold appendTx, appendTx_body.
  repeat (cbv beta iota zeta;
          lazymatch goal with
          | |- always _ (mbind _ (appendTx_dispatch _ _ _ _ _)) =>
              eapply always_bind_returns;
              [ typeclasses eauto
              | by apply appendTx_dispatch_keeps_validate
              | apply appendTx_dispatch_returns
              | intros d (Hd & _ & _ & Hflag & _);
                specialize (Hflag Hdefault); rewrite Hflag, Hutx ]
          | |- always _ (mbind _ _) => rule always_bind; [| intros ?]
          | |- _ => unfold_methods; first [always_step | always_loops]
          end).
Qed.

End Validation.

(** * Further properties of the appender *)

(** ** Reasoning about the state of the appender *)

#[global] Instance sameStores_preorder : PreOrder sameStores.
Proof.
  split.
  - intros a. by repeat split.
  - intros a1 a2 a3 (H1 & H2 & H3 & H4) (K1 & K2 & K3 & K4).
    repeat split; congruence.
Qed.

#[global] Instance unchanged_preorder : PreOrder unchanged.
Proof.
  split.
  - intros a. repeat split; reflexivity.
  - intros a1 a2 a3 (H1 & H2 & H3) (K1 & K2 & K3).
    split_and!; [by etrans | congruence | by etrans].
Qed.

#[global] Instance unchangedOrSaved_preorder : PreOrder unchangedOrSaved.
Proof.
  split.
  - intros a. left. reflexivity.
  - intros a1 a2 a3 [H|H] [K|K].
    + left. by etrans.
    + right. destruct H as (_ & _ & H). unfold keeps, more in *. lia.
    + right. destruct K as (_ & _ & K). unfold keeps, more in *. lia.
    + right. unfold more in *. lia.
Qed.

Section StateRules.

Context (R : relation txAppender) `{!PreOrder R}.

Lemma steady_ret {A} (x : A) : steady R (mret x).
Proof. intros a. reflexivity. Qed.

Lemma steady_fail {A} e : steady R (@fail A e).
Proof. intros a. reflexivity. Qed.

Lemma steady_lift {A} (r : result A) : steady R (lift r).
Proof. intros a. reflexivity. Qed.

Lemma steady_gets {A} (f : txAppender → A) : steady R (gets f).
Proof. intros a. reflexivity. Qed.

Lemma steady_modify f : (∀ a, R a (f a)) → steady R (modify f).
Proof. intros Hf a. apply Hf. Qed.

Lemma steady_extern {A} (c : result A → Call) reply :
  (∀ r a, R a (logCall (c r) a)) → steady R (extern c reply).
Proof. intros Hc a. apply Hc. Qed.

Lemma steady_script {A} (c : result A → Call) reply :
  (∀ r cost a, R a (logCall (c r) (withSc (addCost cost) a))) → steady R (script c reply).
Proof. intros Hc a. apply Hc. Qed.

Lemma steady_notify c : (∀ a, R a (logCall c a)) → steady R (notify c).
Proof. intros Hc a. apply Hc. Qed.

Lemma steady_bind {A B} (m : M A) (f : A → M B) :
  steady R m → (∀ x, steady R (f x)) → steady R (m ≫= f).
Proof.
  intros Hm Hf a. specialize (Hm a). unfold mbind, M_bind.
  destruct (m a) as [[x|e] a1]; simpl in *; [|done].
  etrans; [exact Hm | apply Hf].
Qed.

Lemma steady_bind_returns {A B} (Q : A → Prop) (m : M A) (f : A → M B) :
  steady R m → returns Q m → (∀ x, Q x → steady R (f x)) → steady R (m ≫= f).
Proof.
  intros Hm HQ Hf a. specialize (Hm a). unfold mbind, M_bind.
  destruct (m a) as [[x|e] a1] eqn:Hma; simpl in *; [|done].
  etrans; [exact Hm | apply Hf; by eapply HQ].
Qed.

Lemma steady_orReturn {A} (m : M A) f : steady R m → steady R (orReturn m f).
Proof.
  intros Hm a. specialize (Hm a). unfold orReturn.
  by destruct (m a) as [[x|e] a1].
Qed.

Lemma steady_attempt {A} (m : M A) : steady R m → steady R (attempt m).
Proof. intros Hm a. apply Hm. Qed.

Context (env : Collaborators).

Lemma steady_checkTransactionScripts_assets tx params r4 assets n :
  (∀ x r cost a, R a (logCall (CallAssetScript tx x r) (withSc (addCost cost) a))) →
  steady R (checkTransactionScripts_assets env tx params r4 assets n).
Proof.
  intros HR. revert n.
  induction assets as [|x rest IH]; intros n; simpl.
  - apply steady_ret.
  - apply steady_bind.
    + apply steady_orReturn, steady_script. intros. apply HR.
    + intros r. destruct (negb r); [apply steady_fail|].
      destruct (_ && _); apply IH.
Qed.

Lemma steady_handleExchange_assets tx params assets :
  (∀ x r cost a, R a (logCall (CallAssetScript tx x r) (withSc (addCost cost) a))) →
  steady R (handleExchange_assets env tx params assets).
Proof.
  intros HR.
  induction assets as [|x rest IH]; simpl.
  - apply steady_ret.
  - apply steady_bind.
    + apply steady_attempt, steady_script. intros. apply HR.
    + intros [res|err].
      * destruct (negb res); [apply steady_ret | exact IH].
      * destruct (negb _); [apply steady_fail | apply steady_ret].
Qed.

Lemma steady_saveTransactionIdByAddresses addresses txID blockID :
  (∀ x r a, R a (logCall (CallSaveTxIdByAddress x txID blockID r) a)) →
  steady R (saveTransactionIdByAddresses env addresses txID blockID).
Proof.
  intros HR.
  induction addresses as [|x rest IH]; simpl.
  - apply steady_ret.
  - apply steady_bind.
    + apply steady_extern. intros. apply HR.
    + intros _. exact IH.
Qed.

End StateRules.

Create HintDb steady.

(** One step of a proof of [steady R m], by the shape of [m]; [side] proves
    that a change of the state is within [R]. *)
Ltac steady_step side :=
  lazymatch goal with
  | |- steady _ (mbind _ _) =>
      first
        [ eapply steady_bind_returns;
          [ typeclasses eauto
          |
          | solve [eauto with returns]
          | intros ? ?; simpl in *; split_hyps ]
        | rule steady_bind; [| intros ?] ]
  | |- steady _ (mret _) => rule steady_ret
  | |- steady _ (fail _) => rule steady_fail
  | |- steady _ (lift _) => rule steady_lift
  | |- steady _ (gets _) => rule steady_gets
  | |- steady _ (modify _) => rule steady_modify; intros; side
  | |- steady _ (orReturn _ _) => rule steady_orReturn
  | |- steady _ (attempt _) => rule steady_attempt
  | |- steady _ (extern _ _) => rule steady_extern; intros; side
  | |- steady _ (script _ _) => rule steady_script; intros; side
  | |- steady _ (notify _) => rule steady_notify; intros; side
  | |- steady _ (checkTransactionScripts_assets _ _ _ _ _ _) =>
      rule steady_checkTransactionScripts_assets; intros; side
  | |- steady _ (handleExchange_assets _ _ _ _) =>
      rule steady_handleExchange_assets; intros; side
  | |- steady _ (saveTransactionIdByAddresses _ _ _ _) =>
      rule steady_saveTransactionIdByAddresses; intros; side
  | |- steady _ (if ?b then _ else _) =>
      first [ match goal with H : b = _ |- _ => rewrite H end | destruct b ]
  | |- steady _ (match ?x with _ => _ end) => destruct x
  | |- steady _ _ => solve [eauto with steady]
  end.

Ltac steady_auto side := repeat (cbv beta iota zeta; steady_step side).

(** A call that is not the saving of a diff, with or without the cost of a
    script, leaves the appender [unchanged]. *)
Ltac unchanged_side :=
  unfold unchanged, sameStores; simpl;
  split_and!; try reflexivity; apply keeps_snoc; reflexivity.

Ltac unchangedOrSaved_side := left; unchanged_side.

Section Stores.

Context (env : Collaborators).

Lemma appendTx_dispatch_unchanged tx params scripted sender :
  steady unchanged (appendTx_dispatch env tx params scripted sender).
Proof. unfold appendTx_dispatch. unfold_methods. steady_auto unchanged_side. Qed.

End Stores.

Lemma steady_run {A} R (m : M A) a r a' : steady R m → m a = (r, a') → R a a'.
Proof. intros Hm Hrun. specialize (Hm a). by rewrite Hrun in Hm. Qed.

Section Commit.

Context (env : Collaborators).

Lemma commitTxApplication_Ok tx params inv res a snapshot a' :
  commitTxApplication env tx params inv res a = (Ok snapshot, a') →
  ∃ id, GetID tx = Ok id
    ∧ recentTxIds a' = {[ id ]} ∪ recentTxIds a
    ∧ totalScriptsRuns a' = uint64 (totalScriptsRuns a + resTotalScriptsRuns res)
    ∧ sc a' = addRecentTxComplexity (sc a)
    ∧ diffStor a' = diffStor a ++ [diff (changes res)]
    ∧ buildApiData a' = buildApiData a
    ∧ calls a' =
        calls a ++
        CallSaveTxDiff (diff (changes res)) (Ok tt) ::
        (if status res then [CallPerformTx tx (diff (changes res)) (Ok snapshot)] else []) ++
        (if validatingUtx params
         then [CallWriteTransactionToMem tx (negb (status res)) (Ok tt)]
         else [CallCountMinerFee tx (Ok tt);
               CallWriteTransaction tx (negb (status res)) (Ok tt)]).
Proof.
  unfold commitTxApplication.
  run_all; try discriminate; intros [= <- <-];
    repeat match goal with
           | u : unit |- _ => destruct u
           | H : _ = Ok _ |- _ => rewrite H
           end;
    eexists; split_and!; eauto; simpl; by rewrite <- ?app_assoc.
Qed.

Lemma commitTxApplication_unchangedOrSaved tx params inv res :
  steady unchangedOrSaved (commitTxApplication env tx params inv res).
Proof.
  intros a. unfold unchangedOrSaved, commitTxApplication.
  run_all;
    first
      [ left; reflexivity
      | right; unfold more; simpl; rewrite ?countCalls_app; simpl;
        pose proof (countCalls_nonneg isSaveTxDiff (calls a)); lia ].
Qed.

End Commit.

Lemma steady_weaken {A} (R R' : relation txAppender) (m : M A) :
  (∀ a a', R a a' → R' a a') → steady R m → steady R' m.
Proof. intros HR Hm a. apply HR, Hm. Qed.

Lemma attempt_run {A} (m : M A) a r a' :
  attempt m a = (Ok r, a') → m a = (r, a').
Proof. unfold attempt. intros [= <- <-]. by destruct (m a). Qed.

(** The checks of [appendTx] that come before the commit, down to the calls. *)
Ltac unfold_checks :=
  unfold checkProtobufVersion, checkDuplicateTxIds, checkDuplicateTxIdsImpl,
    verifyWavesTxSigAndData, needToCheckOrdersSignatures, orderIsScripted,
    diffApplierValidateTxDiff, checkScriptsLimits, isActivated.

(** A step of a run that returned no error, taken off [H]: the step left
    the appender [unchanged], as did the steps before it, [Hacc]. *)
Ltac invert_unchanged H Hacc :=
  lazymatch type of H with
  | (mbind _ (appendTx_dispatch _ _ _ _ _)) _ = _ => fail
  | (mbind _ (attempt _)) _ = _ => fail
  | (mbind _ ?m) ?a0 = _ =>
      let x := fresh "x" in
      let a1 := fresh "a" in
      let Hstep := fresh "Hstep" in
      let Hnew := fresh "Hnew" in
      apply bind_Ok in H as (x & a1 & Hstep & H);
      assert (unchanged a0 a1) as Hnew
        by (eapply steady_run; [|exact Hstep];
            unfold_checks; steady_auto unchanged_side);
      apply (transitivity Hacc) in Hnew;
      clear Hstep Hacc; rename Hnew into Hacc
  end.

Section Append.

Context (env : Collaborators).

Lemma appendTx_unchangedOrSaved tx params :
  steady unchangedOrSaved (appendTx env tx params).
Proof.
  pose proof (commitTxApplication_unchangedOrSaved env) as Hcommit.
  assert (∀ scripted sender,
            steady unchangedOrSaved (appendTx_dispatch env tx params scripted sender))
    as Hdispatch.
  { intros. eapply steady_weaken; [|apply appendTx_dispatch_unchanged]. by left. }
  unfold appendTx, appendTx_body. unfold_checks.
  steady_auto ltac:(first [done | unchangedOrSaved_side]).
Qed.

(** A run of [appendTx] that returns no error: the checks, the dispatch, the
    last checks, the commit, and what comes after it. *)
Lemma appendTx_Ok tx params a a' :
  appendTx env tx params a = (Ok tt, a') →
  ∃ scripted sender a0 d a1 a2 snapshot a3,
    unchanged a a0
    ∧ appendTx_dispatch env tx params scripted sender a0 = (Ok d, a1)
    ∧ unchanged a1 a2
    ∧ commitTxApplication env (dTx d) (dParams d) (dInvocationResult d) (dApplicationRes d) a2
      = (Ok snapshot, a3)
    ∧ unchanged a3 a'.
Proof.
  unfold appendTx. intros Hrun.
  apply bind_Ok in Hrun as (r & a4 & Hbody%attempt_run & Hrun).
  unfold mbind, M_bind, modify, notify, lift in Hrun. simpl in Hrun.
  injection Hrun as Hr Ha. subst r a'.
  unfold appendTx_body in Hbody.
  assert (unchanged a a) as Hpre by reflexivity.
  repeat (cbv beta zeta in Hbody; invert_unchanged Hbody Hpre).
  apply bind_Ok in Hbody as (d & aD & Hdispatch & Hbody).
  assert (unchanged aD aD) as Hmid by reflexivity.
  repeat (cbv beta zeta in Hbody; invert_unchanged Hbody Hmid).
  apply bind_Ok in Hbody as ([snapshot|e] & aC & Hcommit%attempt_run & Hbody);
    [|apply bind_Ok in Hbody as (? & ? & Hfail & _);
      by apply bind_Ok in Hfail as (? & ? & _ & [=])].
  assert (unchanged aC aC) as Hpost by reflexivity.
  repeat (cbv beta zeta in Hbody; invert_unchanged Hbody Hpost).
  assert (unchanged aC (logCall CallDropUncertain (withSc resetRecentTxComplexity a4)))
    as Hend.
  { etrans; [exact Hpost|]. etrans; [|by unchanged_side].
    eapply steady_run; [|exact Hbody]. steady_auto unchanged_side. }
  eexists _, _, _, d, aD, _, snapshot, aC.
  split_and!; [exact Hpre | exact Hdispatch | exact Hmid | exact Hcommit | exact Hend].
Qed.

End Append.

Section Append2.

Context (env : Collaborators).

(** [appendTx] is its body followed by the deferred calls. *)
Lemma appendTx_run tx params a :
  appendTx env tx params a
  = ((appendTx_body env tx params a).1,
     logCall CallDropUncertain
       (withSc resetRecentTxComplexity (appendTx_body env tx params a).2)).
Proof.
  unfold appendTx, mbind, M_bind, attempt, modify, notify, lift.
  by destruct (appendTx_body env tx params a).
Qed.

Lemma appendTx_dispatch_keeps_drop tx params scripted sender :
  always (keeps isDropUncertain) (appendTx_dispatch env tx params scripted sender).
Proof. unfold appendTx_dispatch. unfold_methods. always_auto. Qed.

Lemma appendTx_body_keeps_drop tx params :
  always (keeps isDropUncertain) (appendTx_body env tx params).
Proof.
  pose proof appendTx_dispatch_keeps_drop.
  unfold appendTx_body. unfold_methods. always_auto.
Qed.

Lemma appendTx_body_prefix tx params :
  always prefix (appendTx_body env tx params).
Proof.
  pose proof (appendTx_dispatch_prefix env).
  unfold appendTx_body. unfold_methods. always_auto.
Qed.

(** What a run of [appendTx] that returns no error leaves in the stores. *)
Lemma appendTx_Ok_stores tx params a a' :
  appendTx env tx params a = (Ok tt, a') →
  ∃ id scripted sender a0 d a1,
    GetID tx = Ok id
    ∧ appendTx_dispatch env tx params scripted sender a0 = (Ok d, a1)
    ∧ recentTxIds a' = {[ id ]} ∪ recentTxIds a
    ∧ totalScriptsRuns a'
      = uint64 (totalScriptsRuns a + resTotalScriptsRuns (dApplicationRes d))
    ∧ diffStor a' = diffStor a ++ [diff (changes (dApplicationRes d))]
    ∧ buildApiData a' = buildApiData a
    ∧ made isSaveTxDiff a' = made isSaveTxDiff a + 1.
Proof.
  intros (scripted & sender & a0 & d & a1 & a2 & snapshot & a3
          & Hpre & Hdispatch & Hmid & Hcommit & Hpost)%appendTx_Ok.
  pose proof (steady_run _ _ _ _ _ (appendTx_dispatch_unchanged env tx params scripted sender)
                Hdispatch) as Hd.
  pose proof (appendTx_dispatch_returns env tx params scripted sender _ _ _ Hdispatch)
    as (_ & Hid & _).
  apply commitTxApplication_Ok in Hcommit
    as (id & Hid' & Hrecent & Htotal & _ & Hdiffs & Hapi & Hcalls).
  assert (unchanged a a2) as (Hs1 & _ & Hk1) by (etrans; [exact Hpre|]; by etrans).
  destruct Hpost as (Hs2 & _ & Hk2).
  destruct Hs1 as (Hs11 & Hs12 & Hs13 & Hs14), Hs2 as (Hs21 & Hs22 & Hs23 & Hs24).
  exists id, scripted, sender, a0, d, a1.
  split_and!; [congruence | exact Hdispatch | congruence.. |].
  unfold keeps, made in *. rewrite Hk2, Hcalls, countCalls_app. simpl.
  rewrite countCalls_app. destruct (status _), (validatingUtx _); simpl; lia.
Qed.

End Append2.

(** ** The checks of [appendTx] that reject, and what a rejection leaves *)

(** X1. A protobuf transaction that comes before the activation of BlockV5
    is rejected by [appendTx] with the error of the version check, before
    any other check: nothing is asked of a collaborator but to drop the
    uncertain state, and nothing changes in the appender but the complexity
    of the transaction at hand, which is reset. *)
Theorem appendTx_rejects_protobuf env tx params a :
  IsProtobufTx tx = true →
  blockV5Activated params = false →
  appendTx env tx params a
  = (Err (Errorf "bad transaction version %v before blockV5 activation"
            [ArgZ (GetVersion tx)]),
     logCall CallDropUncertain (withSc resetRecentTxComplexity a)).
Proof.
  intros Hproto Hv5. rewrite appendTx_run.
  unfold appendTx_body, checkProtobufVersion. rewrite Hproto, Hv5. reflexivity.
Qed.

Lemma appendTx_rejects_protobuf_witness :
  let tx := {| txType := TransferTransaction; txBody := OtherBody; GetID := Ok "t1";
               GetSender := Ok "alice"; IsProtobufTx := true; GetVersion := 3 |} in
  (appendTx (chain beforeBlockV5 [] passes enough []) tx (paramsOf false false false)
     newTxAppender).1
  = Err (Errorf "bad transaction version %v before blockV5 activation" [ArgZ 3]).
Proof.
  intros tx.
  exact (f_equal fst (appendTx_rejects_protobuf (chain beforeBlockV5 [] passes enough []) tx
                        (paramsOf false false false) newTxAppender eq_refl eq_refl)).
Defined.

(** X2. A run of [appendTx] that does not get to save a diff rejects the
    transaction and leaves no trace of it: the recent-ID set, the counter of
    script runs and the working set of diffs are as before, and the cost of
    the scripts it ran is dropped from the complexity of the block. *)
Theorem appendTx_rejected_untouched env tx params a :
  let run := appendTx env tx params a in
  made isSaveTxDiff run.2 = made isSaveTxDiff a →
  is_ok run.1 = false
  ∧ recentTxIds run.2 = recentTxIds a
  ∧ totalScriptsRuns run.2 = totalScriptsRuns a
  ∧ diffStor run.2 = diffStor a
  ∧ totalComplexity (sc run.2) = totalComplexity (sc a)
  ∧ recentTxComplexity (sc run.2) = 0.
Proof.
  intros run Hnone. subst run.
  destruct (appendTx env tx params a) as [r a'] eqn:Hrun. simpl in *.
  pose proof (steady_run _ _ _ _ _ (appendTx_unchangedOrSaved env tx params) Hrun)
    as [((Hids & Hdiffs & Htotal & _) & Hsc & _)|Hsaved];
    [|unfold more, made in *; lia].
  split_and!; try done.
  - destruct r as [[]|e]; [|done].
    apply appendTx_Ok_stores in Hrun as (? & ? & ? & ? & ? & ? & _ & _ & _ & _ & _ & _ & H).
    lia.
  - rewrite appendTx_run in Hrun. by injection Hrun as _ <-.
Qed.

Lemma appendTx_rejected_untouched_witness :
  let env := chain allFeatures [] failsA1 enough ["A1"] in
  let run := appendTx env (txOf TransferTransaction OtherBody "t1") (paramsOf true false true)
               (seenAppender "t0") in
  is_ok run.1 = false ∧ recentTxIds run.2 = {[ "t0" ]} ∧ totalScriptsRuns run.2 = 3.
Proof.
  intros env run.
  assert (made isSaveTxDiff run.2 = made isSaveTxDiff (seenAppender "t0")) as Hnone
    by (vm_compute; reflexivity).
  destruct (appendTx_rejected_untouched env (txOf TransferTransaction OtherBody "t1")
              (paramsOf true false true) (seenAppender "t0") Hnone)
    as (H1 & H2 & H3 & _).
  split_and!; [exact H1 | exact H2 | exact H3].
Defined.

(** X3. A transaction that [appendTx] accepts is committed once: its ID
    joins the recent-ID set, the script runs of its application result are
    added to the counter, the diff of this result is added to the working
    set, and exactly one diff was saved.  The result is the one the dispatch
    of [appendTx] returned. *)
Theorem appendTx_accepted env tx params a :
  let run := appendTx env tx params a in
  run.1 = Ok tt →
  ∃ id scripted sender a0 d a1,
    GetID tx = Ok id
    ∧ appendTx_dispatch env tx params scripted sender a0 = (Ok d, a1)
    ∧ recentTxIds run.2 = {[ id ]} ∪ recentTxIds a
    ∧ totalScriptsRuns run.2
      = uint64 (totalScriptsRuns a + resTotalScriptsRuns (dApplicationRes d))
    ∧ diffStor run.2 = diffStor a ++ [diff (changes (dApplicationRes d))]
    ∧ madeSince isSaveTxDiff a run.2 = 1.
Proof.
  intros run Hok. subst run.
  destruct (appendTx env tx params a) as [r a'] eqn:Hrun. simpl in *. subst r.
  apply appendTx_Ok_stores in Hrun
    as (id & scripted & sender & a0 & d & a1 & Hid & Hd & Hids & Htotal & Hdiffs & _ & Hsaved).
  exists id, scripted, sender, a0, d, a1.
  split_and!; try done. unfold madeSince. lia.
Qed.

Lemma appendTx_accepted_witness :
  let env := chain allFeatures [] passes enough ["A1"] in
  let run := appendTx env (txOf TransferTransaction OtherBody "t1") (paramsOf false true true)
               (seenAppender "t0") in
  ∃ id, GetID (txOf TransferTransaction OtherBody "t1") = Ok id
    ∧ recentTxIds run.2 = {[ id ]} ∪ recentTxIds (seenAppender "t0").
Proof.
  intros env run.
  assert (run.1 = Ok tt) as Hok by (vm_compute; reflexivity).
  destruct (appendTx_accepted env (txOf TransferTransaction OtherBody "t1")
              (paramsOf false true true) (seenAppender "t0") Hok)
    as (id & _ & _ & _ & _ & _ & Hid & _ & Hids & _).
  exists id. split; [exact Hid | exact Hids].
Defined.

Section Repeated.

Context (env : Collaborators).

(** [appendTx] on a transaction whose ID is in the recent-ID set. *)
Lemma appendTx_repeated tx params a id :
  GetID tx = Ok id →
  id ∈ recentTxIds a →
  exemptFromDuplicateCheck env tx (Timestamp (block params)) = false →
  appendTx env tx params a
  = (Err (repeatedError tx params id),
     logCall CallDropUncertain (withSc resetRecentTxComplexity a)).
Proof.
  intros Hid Hin Hexempt. rewrite appendTx_run.
  unfold exemptFromDuplicateCheck, inStolenAliasesWindow in Hexempt.
  apply orb_false_iff in Hexempt as [Hpay%bool_decide_eq_false Halias].
  unfold appendTx_body, repeatedError, checkProtobufVersion.
  destruct (IsProtobufTx tx); simpl.
  - destruct (blockV5Activated params); simpl; [|reflexivity].
    unfold checkDuplicateTxIds, checkDuplicateTxIdsImpl, duplicateIDError.
    unfold_monad. simpl.
    destruct (decide (txType tx = PaymentTransaction)) as [|_]; [done|].
    rewrite andb_assoc in Halias. rewrite Halias, Hid. simpl.
    destruct (decide (id ∈ recentTxIds a)) as [_|]; [|done]. simpl.
    by destruct (decide (txType tx = CreateAliasTransaction)).
  - unfold checkDuplicateTxIds, checkDuplicateTxIdsImpl, duplicateIDError.
    unfold_monad. simpl.
    destruct (decide (txType tx = PaymentTransaction)) as [|_]; [done|].
    rewrite andb_assoc in Halias. rewrite Halias, Hid. simpl.
    destruct (decide (id ∈ recentTxIds a)) as [_|]; [|done]. simpl.
    by destruct (decide (txType tx = CreateAliasTransaction)).
Qed.

End Repeated.

(** X4. After [appendTx] has accepted a transaction, appending again a
    transaction with the same ID is rejected, unless the duplicate check
    exempts it (Payment, and CreateAlias within the stolen-aliases window):
    with the error of the duplicate check, or with the error of the version
    check when this one fails first.  The rejection comes from the recent-ID
    set: no collaborator is asked anything but to drop the uncertain state,
    and the stores stay as the first run left them. *)
Theorem appendTx_twice env tx params a tx' params' id :
  (appendTx env tx params a).1 = Ok tt →
  GetID tx = Ok id →
  GetID tx' = Ok id →
  exemptFromDuplicateCheck env tx' (Timestamp (block params')) = false →
  let a1 := (appendTx env tx params a).2 in
  appendTx env tx' params' a1
  = (Err (repeatedError tx' params' id),
     logCall CallDropUncertain (withSc resetRecentTxComplexity a1)).
Proof.
  intros Hok Hid Hid' Hexempt a1. subst a1.
  destruct (appendTx env tx params a) as [r a1] eqn:Hrun. simpl in *. subst r.
  apply appendTx_Ok_stores in Hrun
    as (id0 & _ & _ & _ & _ & _ & Hid0 & _ & Hids & _).
  apply appendTx_repeated; [done| |done].
  rewrite Hids. assert (id0 = id) as -> by congruence.
  apply elem_of_union. left. by apply elem_of_singleton.
Qed.

Lemma appendTx_twice_witness :
  let env := chain allFeatures [] passes enough [] in
  let tx := txOf TransferTransaction OtherBody "t1" in
  let a1 := (appendTx env tx (paramsOf false true true) newTxAppender).2 in
  (appendTx env tx (paramsOf false true true) a1).1
  = Err (Extend (alreadyInState "t1") "check duplicate tx ids").
Proof.
  intros env tx a1.
  assert ((appendTx env tx (paramsOf false true true) newTxAppender).1 = Ok tt) as Hok
    by (vm_compute; reflexivity).
  exact (f_equal fst (appendTx_twice env tx (paramsOf false true true) newTxAppender tx
                        (paramsOf false true true) "t1" Hok eq_refl eq_refl eq_refl)).
Defined.

(** X5. The deferred calls of [appendTx]: whether the transaction is
    accepted or rejected, the run only adds to the log of calls, asks once to
    drop the uncertain state, as its last call, and ends with the complexity
    of the transaction at hand reset. *)
Theorem appendTx_deferred env tx params a :
  let run := appendTx env tx params a in
  calls a `prefix_of` calls run.2
  ∧ last (calls run.2) = Some CallDropUncertain
  ∧ made isDropUncertain run.2 = made isDropUncertain a + 1
  ∧ recentTxComplexity (sc run.2) = 0.
Proof.
  intros run. subst run. rewrite appendTx_run. simpl.
  split_and!.
  - etrans; [apply (appendTx_body_prefix env tx params a) | apply prefix_snoc].
  - apply last_snoc.
  - rewrite made_logCall. simpl. f_equal.
    apply (appendTx_body_keeps_drop env tx params a).
  - reflexivity.
Qed.

Lemma new_calls_nil (l cs : list Call) : l = l ++ cs → cs = [].
Proof. intros H. apply (app_inv_head l). by rewrite app_nil_r. Qed.

(** ** The commit of a successful result *)

(** X6. [commitTxApplication] on a result that is not failed.  Every error
    it returns is a commitment error.  When it returns no error, it saved the
    diff, performed the transaction, whose snapshot it returns, and wrote the
    transaction as not failed, in this order.  A failure of [performTx] ends
    the run: nothing is written.  The ID of the transaction and the script
    runs of the result are recorded as soon as the ID is known, so they stay
    recorded when a later step of the commit fails. *)
Theorem commitTxApplication_performs env tx params inv res a :
  status res = true →
  let run := commitTxApplication env tx params inv res a in
  (∀ e, run.1 = Err e → ∃ e', e = TxCommitmentError e')
  ∧ (∀ snapshot, run.1 = Ok snapshot →
     calls run.2 =
       calls a ++
       [CallSaveTxDiff (diff (changes res)) (Ok tt);
        CallPerformTx tx (diff (changes res)) (Ok snapshot)] ++ writesOf tx params false)
  ∧ (∀ cs e, calls run.2 = calls a ++ cs →
     CallPerformTx tx (diff (changes res)) (Err e) ∈ cs →
     countCalls isWrite cs = 0
     ∧ run.1 = Err (TxCommitmentError (Errorf "failed to perform: %v" [ArgE e])))
  ∧ (∀ id, GetID tx = Ok id →
     recentTxIds run.2 = {[ id ]} ∪ recentTxIds a
     ∧ totalScriptsRuns run.2 = uint64 (totalScriptsRuns a + resTotalScriptsRuns res)).
Proof.
  intros Hstatus run. subst run. unfold commitTxApplication, writesOf. rewrite Hstatus.
  split_and!.
  - intros e. run_all; intros [= <-]; eauto.
  - intros snapshot. run_all; intros [= <-];
      repeat match goal with
             | u : unit |- _ => destruct u
             end;
      by rewrite <- ?app_assoc.
  - intros cs e. run_all; rewrite <- ?app_assoc; intros Hcs;
      first [apply app_inv_head in Hcs | apply new_calls_nil in Hcs]; subst cs; simpl;
      intros Hin; repeat (apply elem_of_cons in Hin as [[=]|Hin]);
      try (by apply elem_of_nil in Hin); subst; done.
  - intros id Hid. rewrite Hid. by run_all.
Qed.

Lemma commitTxApplication_performs_witness :
  let run :=
    commitTxApplication (chain allFeatures [] passes enough []) exchangeTx
      (paramsOf false true true) None
      (newApplicationResult true 3 transfer {| smartAssets := [] |}) newTxAppender in
  calls run.2 =
    [CallSaveTxDiff (diff transfer) (Ok tt);
     CallPerformTx exchangeTx (diff transfer) (Ok {| regular := [] |});
     CallCountMinerFee exchangeTx (Ok tt);
     CallWriteTransaction exchangeTx false (Ok tt)].
Proof.
  intros run.
  exact (proj1 (proj2
    (commitTxApplication_performs (chain allFeatures [] passes enough []) exchangeTx
       (paramsOf false true true) None
       (newApplicationResult true 3 transfer {| smartAssets := [] |}) newTxAppender eq_refl))
    {| regular := [] |} eq_refl).
Defined.

Lemma countCalls_passedAssetScripts tx assets :
  countCalls isFailedScriptRun (passedAssetScripts tx assets) = 0.
Proof. induction assets as [|x rest IH]; simpl; [done | by rewrite IH]. Qed.

Section Scripts.

Context (env : Collaborators).

(** The loop of [checkTransactionScripts]: the scripts of the assets run in
    order, and the first that does not pass ends it with an error. *)
Lemma checkTransactionScripts_assets_calls tx params r4 assets n a r a' :
  checkTransactionScripts_assets env tx params r4 assets n a = (r, a') →
  sameStores a a' ∧
  match r with
  | Ok _ => calls a' = calls a ++ passedAssetScripts tx assets
  | Err e =>
      ∃ before asset reply after,
        assets = before ++ asset :: after
        ∧ calls a' = calls a ++ passedAssetScripts tx before ++ [CallAssetScript tx asset reply]
        ∧ isFailedScriptRun (CallAssetScript tx asset reply) = true
        ∧ e = scriptError (CallAssetScript tx asset reply)
  end.
Proof.
  revert n a. induction assets as [|x rest IH]; intros n a; simpl.
  - intros [= <- <-]. split; [done|]. by rewrite app_nil_r.
  - unfold scCallAssetScript. unfold_monad. simpl.
    destruct (callAssetScript env (calls a) tx x params) as [[res|e] cost] eqn:Hreply;
      simpl.
    + destruct res; simpl.
      * destruct (_ && _); intros [Hsame Hrun]%IH;
          (split; [exact Hsame|]); simpl in Hrun;
          (destruct r as [m|e];
           [ by rewrite Hrun, <- app_assoc
           | destruct Hrun as (before & asset & reply & after & -> & Hcalls & Hfailed & ->);
             exists (x :: before), asset, reply, after;
             split_and!; [done | by rewrite Hcalls, <- app_assoc | done | done] ]).
      * intros [= <- <-]. split; [done|].
        exists [], x, (Ok false), rest. by split_and!.
    + intros [= <- <-]. split; [done|].
      exists [], x, (Err e), rest. by split_and!.
Qed.

(** A run of [checkTransactionScripts]. *)
Lemma checkTransactionScripts_calls tx accountScripted params a r a' :
  checkTransactionScripts env tx accountScripted params a = (r, a') →
  sameStores a a' ∧
  ∃ cs, calls a' = calls a ++ cs ∧
    match r with
    | Ok (n, cd) =>
        ∃ r4, cs = checkedAgainstState tx accountScripted cd r4
                   ++ passedAssetScripts tx (smartAssets cd)
          ∧ (Z.of_nat (length (smartAssets cd)) < 2 ^ 63 →
             n = countedScriptsRuns tx accountScripted cd r4)
    | Err e =>
        countCalls isFailedScriptRun (removelast cs) = 0
        ∧ match last cs with
          | Some c => isFailedScriptRun c = true → e = scriptError c
          | None => True
          end
    end.
Proof.
  unfold checkTransactionScripts, scCallAccountScriptWithTx, txHandlerCheckTx, isActivated,
    checkedAgainstState, countedScriptsRuns.
  unfold_monad. simpl.
  repeat (run_case; simpl); intros ?; simplify_eq/=;
    try match goal with
        | H : checkTransactionScripts_assets _ _ _ _ _ _ _ = _ |- _ =>
            pose proof H as Hcount;
            apply checkTransactionScripts_assets_calls in H as [Hsame Hloop];
            simpl in Hsame, Hloop
        end;
    (split; [first [done | by etrans; [|exact Hsame]]|]);
    repeat match goal with u : unit |- _ => destruct u end.
  all: try (destruct Hloop as (before & asset & reply & after & Hassets & Hloop & Hfailed & ->)).
  all: rewrite ?Hloop, <- ?app_assoc; simpl.
  all: (eexists; split; [reflexivity|]).
  all: try (eexists; split; [reflexivity|]; intros Hbound;
            apply checkTransactionScripts_assets_run in Hcount as [-> _]; lia).
  all: rewrite ?app_comm_cons, ?app_assoc, ?removelast_last, ?last_snoc; simpl.
  all: rewrite ?countCalls_app, ?countCalls_passedAssetScripts; simpl.
  all: try (split; [lia | done]).
  all: done.
Qed.

End Scripts.

Lemma countCalls_removelast p (cs : list Call) :
  countCalls p cs = 0 → countCalls p (removelast cs) = 0.
Proof.
  destruct (decide (cs = [])) as [->|Hne]; [done|].
  destruct (exists_last Hne) as (cs' & c & ->).
  rewrite removelast_last, countCalls_app.
  pose proof (countCalls_nonneg p cs'). pose proof (countCalls_nonneg p [c]). lia.
Qed.

(** ** The scripts of a transaction that cannot fail *)

(** X7. [checkTransactionScripts] stops at the first script that does not
    pass.  In a run, no script run that failed or returned a negative result
    is followed by another call; when the last call is such a run, the error
    is the one of this run, extended with the name of the call; and a run
    that returns no error has no such run at all. *)
Theorem checkTransactionScripts_first_failure env tx accountScripted params a cs :
  let run := checkTransactionScripts env tx accountScripted params a in
  calls run.2 = calls a ++ cs →
  countCalls isFailedScriptRun (removelast cs) = 0
  ∧ (∀ c, last cs = Some c → isFailedScriptRun c = true → run.1 = Err (scriptError c))
  ∧ (is_ok run.1 = true → countCalls isFailedScriptRun cs = 0).
Proof.
  intros run Hcalls. subst run.
  destruct (checkTransactionScripts env tx accountScripted params a) as [r a'] eqn:Hrun.
  simpl in *.
  apply checkTransactionScripts_calls in Hrun as (_ & cs' & Hcs' & Hrun).
  rewrite Hcs' in Hcalls. apply app_inv_head in Hcalls. subst cs'.
  destruct r as [[n cd]|e].
  - destruct Hrun as (r4 & -> & _).
    assert (countCalls isFailedScriptRun
              (checkedAgainstState tx accountScripted cd r4
               ++ passedAssetScripts tx (smartAssets cd)) = 0) as Hnone.
    { rewrite countCalls_app, countCalls_passedAssetScripts.
      unfold checkedAgainstState. by destruct accountScripted. }
    split_and!; [by apply countCalls_removelast | | done].
    intros c Hlast Hfailed. exfalso.
    apply last_Some in Hlast as (cs0 & Hcs0).
    rewrite Hcs0, countCalls_app in Hnone. simpl in Hnone. rewrite Hfailed in Hnone.
    pose proof (countCalls_nonneg isFailedScriptRun cs0). lia.
  - destruct Hrun as (Hfirst & Hlast).
    split_and!; [done | | done].
    intros c Hc Hfailed. rewrite Hc in Hlast. by rewrite Hlast.
Qed.

Lemma checkTransactionScripts_first_failure_witness :
  let env := chain allFeatures [] rejectsA1 enough ["A0"; "A1"; "A2"] in
  let run := checkTransactionScripts env setAssetScriptTx true (paramsOf false true true)
               newTxAppender in
  run.1 = Err (Extend (Errorf "negative asset script result" []) "callAssetScript")
  ∧ made isAssetScriptRun run.2 = 2.
Proof.
  intros env run. split; [|vm_compute; reflexivity].
  pose (v := calls run.2). vm_compute in v.
  lazymatch eval cbv delta [v] in v with
  | ?l =>
      assert (calls run.2 = calls newTxAppender ++ l) as Hcalls by (vm_compute; reflexivity);
      exact (proj1 (proj2 (checkTransactionScripts_first_failure env setAssetScriptTx true
                             (paramsOf false true true) newTxAppender l Hcalls))
               (CallAssetScript setAssetScriptTx "A1" (Ok false)) eq_refl eq_refl)
  end.
Defined.

(** ** The default path *)

(** X8. A transaction that [handleDefaultTransaction] returns a result for
    is never failed: its account script, if the sender has one, and the
    scripts of all its smart assets ran, in this order, and passed; the diff
    of the result is the one the block differ created, as the last call; and
    nothing changed in the stores.  The reported count of script runs is
    the number of these runs, but for the asset scripts of a SetAssetScript
    transaction before Ride4DApps, which are not counted. *)
Theorem handleDefaultTransaction_accepts env tx params accountHasVerifierScript a res a' :
  handleDefaultTransaction env tx params accountHasVerifierScript a = (Ok res, a') →
  status res = true
  ∧ sameStores a a'
  ∧ ∃ r4,
      calls a' =
        calls a
        ++ checkedAgainstState tx accountHasVerifierScript (checkerData res) r4
        ++ passedAssetScripts tx (smartAssets (checkerData res))
        ++ [CallCreateTransactionDiff tx (Ok (changes res))]
      ∧ (Z.of_nat (length (smartAssets (checkerData res))) < 2 ^ 63 →
         resTotalScriptsRuns res
         = countedScriptsRuns tx accountHasVerifierScript (checkerData res) r4).
Proof.
  unfold handleDefaultTransaction, blockDifferCreateTransactionDiff.
  intros Hrun.
  apply bind_Ok in Hrun as ([n cd] & a1 & Hscripts & Hrun).
  apply checkTransactionScripts_calls in Hscripts as (Hsame & cs & Hcs & r4 & -> & Hcount).
  revert Hrun. unfold_monad. simpl.
  destruct (createTransactionDiff env (calls a1) tx (block params)) as [txChanges|e];
    [|done].
  intros [= <- <-]. simpl.
  split_and!; [done | done |].
  exists r4. split; [|done].
  by rewrite Hcs, <- !app_assoc.
Qed.

Lemma handleDefaultTransaction_accepts_witness :
  let env := chain allFeatures [] passes enough ["A1"; "A2"] in
  let run := handleDefaultTransaction env (txOf TransferTransaction OtherBody "t1")
               (paramsOf false true true) true newTxAppender in
  ∃ res, run.1 = Ok res ∧ status res = true ∧ resTotalScriptsRuns res = 3.
Proof.
  intros env run.
  pose (v := run). vm_compute in v.
  lazymatch eval cbv delta [v] in v with
  | (Ok ?res, ?a') =>
      exists res;
      assert (run = (Ok res, a')) as Hrun by (vm_compute; reflexivity);
      split; [vm_compute; reflexivity|];
      split; [|vm_compute; reflexivity];
      exact (proj1 (handleDefaultTransaction_accepts env
                      (txOf TransferTransaction OtherBody "t1") (paramsOf false true true)
                      true newTxAppender res a' Hrun))
  end.
Defined.

Lemma adds_prefix P l1 l2 l3 : adds P l1 l2 → l2 `prefix_of` l3 → adds P l1 l3.
Proof.
  intros (cs & -> & HP) [k ->]. exists (cs ++ k).
  split; [by rewrite app_assoc | by apply Exists_app; left].
Qed.

Lemma prefix_adds P l1 l2 l3 : l1 `prefix_of` l2 → adds P l2 l3 → adds P l1 l3.
Proof.
  intros [k ->] (cs & -> & HP). exists (k ++ cs).
  split; [by rewrite app_assoc | by apply Exists_app; right].
Qed.

(** Rules for a relation between logs that holds on when the log grows
    before or after. *)
Section Grows.

Context (S : relation (list Call)).
Context (S_prefix : ∀ l1 l2 l3, S l1 l2 → l2 `prefix_of` l3 → S l1 l3).
Context (prefix_S : ∀ l1 l2 l3, l1 `prefix_of` l2 → S l2 l3 → S l1 l3).

Lemma onOk_then {A B} (m : M A) (f : A → M B) :
  onOk S m → (∀ x, always prefix (f x)) → onOk S (m ≫= f).
Proof.
  intros Hm Hf a y a' Hrun. unfold mbind, M_bind in Hrun.
  destruct (m a) as [[x|e] a1] eqn:Hma; [|done].
  eapply S_prefix; [by eapply Hm|].
  specialize (Hf x a1). by rewrite Hrun in Hf.
Qed.

Lemma onOk_after {A B} (m : M A) (f : A → M B) :
  always prefix m → (∀ x, onOk S (f x)) → onOk S (m ≫= f).
Proof.
  intros Hm Hf a y a' Hrun. unfold mbind, M_bind in Hrun.
  specialize (Hm a).
  destruct (m a) as [[x|e] a1] eqn:Hma; [|done].
  eapply prefix_S; [exact Hm | by eapply Hf].
Qed.

Lemma onOk_attempt_then {A B} (m : M A) (k : result A → M B) :
  onOk S m → (∀ r, always prefix (k r)) → (∀ e a, is_ok (k (Err e) a).1 = false) →
  onOk S (attempt m ≫= k).
Proof.
  intros Hm Hk Herr a y a' Hrun. unfold mbind, M_bind, attempt in Hrun.
  destruct (m a) as [[x|e] a1] eqn:Hma; simpl in Hrun.
  - eapply S_prefix; [by eapply Hm|].
    specialize (Hk (Ok x) a1). by rewrite Hrun in Hk.
  - specialize (Herr e a1). by rewrite Hrun in Herr.
Qed.

End Grows.

(** ** The verification of signatures and data *)

(** X9. [verifyWavesTxSigAndData] asks for one verification of the
    transaction: on the spot in pool mode, through the verifier channels in
    block mode, never both.  When it returns no error this verification
    passed, and it was the last call.  Its task checks the signature of the
    transaction unless the sender has a verifier script, and the signature of
    an order of an exchange unless the account of the order is scripted, as
    the two lookups made before it answered; for a transaction that is not an
    exchange no lookup is made and no order is checked. *)
Theorem verifyWavesTxSigAndData_checks env tx params accountHasVerifierScript a :
  let run := verifyWavesTxSigAndData env tx params accountHasVerifierScript a in
  ∃ cs, calls run.2 = calls a ++ cs
    ∧ countCalls (if validatingUtx params then isTrySend else isVerifyCheckTx) cs = 0
    ∧ countCalls isVerifyCheckTx cs + countCalls isTrySend cs ≤ 1
    ∧ (is_ok run.1 = true →
       ∃ task, cs = orderLookups tx task ++ [verification params task (Ok tt)]
         ∧ taskTx task = tx
         ∧ checkTxSig task = negb accountHasVerifierScript
         ∧ (asExchange tx = None → checkOrder1 task = false ∧ checkOrder2 task = false)).
Proof.
  intros run. subst run.
  unfold verifyWavesTxSigAndData, needToCheckOrdersSignatures, orderIsScripted, orderLookups,
    verification.
  destruct (asExchange tx) as [[o1 o2]|]; run_all; rewrite <- ?app_assoc;
    (eexists; split; [first [reflexivity | symmetry; apply app_nil_r]|]);
    simpl; split_and!; try done;
    lazymatch goal with
    | |- context [CallVerifyCheckTx ?t ?r] => exists t; destruct r as [[]|]
    | |- context [CallTrySend ?t ?r] => exists t; destruct r as [[]|]
    end;
    try done; simpl; rewrite ?negb_involutive; split_and!; done.
Qed.

Section Sequential.

Context (env : Collaborators).

Lemma appendTx_dispatch_keeps_trySend tx params scripted sender :
  always (keeps isTrySend) (appendTx_dispatch env tx params scripted sender).
Proof. unfold appendTx_dispatch. unfold_methods. always_auto. Qed.

Lemma appendTx_dispatch_keeps_saveTxId tx params scripted sender :
  always (keeps isSaveTxIdByAddress) (appendTx_dispatch env tx params scripted sender).
Proof. unfold appendTx_dispatch. unfold_methods. always_auto. Qed.

Lemma appendTx_dispatch_keeps_verify tx params scripted sender :
  always (keeps isVerifyCheckTx) (appendTx_dispatch env tx params scripted sender).
Proof. unfold appendTx_dispatch. unfold_methods. always_auto. Qed.

Lemma appendTx_dispatch_keeps_writeToMem tx params scripted sender :
  always (keeps isWriteToMem) (appendTx_dispatch env tx params scripted sender).
Proof. unfold appendTx_dispatch. unfold_methods. always_auto. Qed.

Hint Resolve appendTx_dispatch_keeps_trySend appendTx_dispatch_keeps_saveTxId
  appendTx_dispatch_keeps_verify appendTx_dispatch_keeps_writeToMem
  appendTx_dispatch_prefix : runs.

(** In pool mode nothing is sent to the verifier channels. *)
Lemma appendTx_keeps_trySend tx params :
  validatingUtx params = true → always (keeps isTrySend) (appendTx env tx params).
Proof.
  intros Hutx. unfold appendTx, appendTx_body. unfold_methods. always_auto.
Qed.

(** In pool mode no transaction ID is saved by address. *)
Lemma appendTx_keeps_saveTxId tx params :
  validatingUtx params = true → always (keeps isSaveTxIdByAddress) (appendTx env tx params).
Proof.
  intros Hutx. unfold appendTx, appendTx_body.
  repeat (cbv beta iota zeta;
          lazymatch goal with
          | |- always _ (mbind _ (appendTx_dispatch _ _ _ _ _)) =>
              eapply always_bind_returns;
              [ typeclasses eauto
              | apply appendTx_dispatch_keeps_saveTxId
              | apply appendTx_dispatch_returns
              | intros d (Hd & _); cbv beta zeta; rewrite Hd, Hutx; cbn [negb andb] ]
          | |- always _ (mbind _ _) => rule always_bind; [| intros ?]
          | |- _ => unfold_methods; first [always_step | always_loops]
          end).
Qed.

(** In block mode nothing is verified on the spot, and nothing is written to
    the in-memory storage. *)
Lemma appendTx_keeps_verify tx params :
  validatingUtx params = false → always (keeps isVerifyCheckTx) (appendTx env tx params).
Proof.
  intros Hutx. unfold appendTx, appendTx_body. unfold_methods. always_auto.
Qed.

Lemma appendTx_keeps_writeToMem tx params :
  validatingUtx params = false → always (keeps isWriteToMem) (appendTx env tx params).
Proof.
  intros Hutx. unfold appendTx, appendTx_body.
  repeat (cbv beta iota zeta;
          lazymatch goal with
          | |- always _ (mbind _ (appendTx_dispatch _ _ _ _ _)) =>
              eapply always_bind_returns;
              [ typeclasses eauto
              | apply appendTx_dispatch_keeps_writeToMem
              | apply appendTx_dispatch_returns
              | intros d (Hd & _); cbv beta zeta; unfold commitTxApplication;
                rewrite Hd, Hutx ]
          | |- always _ (mbind _ _) => rule always_bind; [| intros ?]
          | |- _ => unfold_methods; first [always_step | always_loops]
          end).
Qed.

Lemma verifyWavesTxSigAndData_verifies tx params scripted :
  validatingUtx params = true →
  onOk (adds (isVerificationOnTheSpot tx)) (verifyWavesTxSigAndData env tx params scripted).
Proof.
  intros Hutx a x a'.
  unfold verifyWavesTxSigAndData, needToCheckOrdersSignatures, orderIsScripted.
  rewrite Hutx.
  destruct (asExchange tx) as [[o1 o2]|]; run_all; intros [= Hreply <-];
    rewrite Hreply; simpl; rewrite <- ?app_assoc;
    (eexists; split; [reflexivity|]);
    apply Exists_exists;
    lazymatch goal with
    | |- context [CallVerifyCheckTx ?t ?r] => exists (CallVerifyCheckTx t r)
    end;
    (split; [find_call|]); destruct x; by eexists.
Qed.

(** In pool mode a transaction is accepted only after its verification, made
    on the spot, passed. *)
Lemma appendTx_verifies tx params :
  validatingUtx params = true →
  onOk (adds (isVerificationOnTheSpot tx)) (appendTx env tx params).
Proof.
  intros Hutx. unfold appendTx.
  apply onOk_attempt_then; [apply adds_prefix | | intros r; always_auto | reflexivity].
  unfold appendTx_body.
  repeat (cbv beta zeta;
          lazymatch goal with
          | |- onOk _ (mbind _ (orReturn (verifyWavesTxSigAndData _ _ _ _) _)) => fail
          | |- onOk _ (mbind _ _) =>
              apply onOk_after;
              [apply prefix_adds | unfold_methods; always_auto | intros ?]
          end).
  apply onOk_then; [apply adds_prefix | |].
  - by apply onOk_orReturn, verifyWavesTxSigAndData_verifies.
  - intros _. unfold_methods. always_auto.
Qed.

End Sequential.

(** X10. [validateNextTx], which passes no verifier channels, sends nothing
    to them, and saves no transaction ID by address; a transaction that it
    accepts had its signatures and data verified on the spot, and the
    verification passed. *)
Theorem validateNextTx_verifies env tx currentTimestamp parentTimestamp version accept a :
  let run := validateNextTx env tx currentTimestamp parentTimestamp version accept a in
  made isTrySend run.2 = made isTrySend a
  ∧ made isSaveTxIdByAddress run.2 = made isSaveTxIdByAddress a
  ∧ (run.1 = Ok tt →
     ∃ cs task, calls run.2 = calls a ++ cs
       ∧ taskTx task = tx ∧ CallVerifyCheckTx task (Ok tt) ∈ cs).
Proof.
  intros run. subst run. split_and!.
  - assert (always (keeps isTrySend)
              (validateNextTx env tx currentTimestamp parentTimestamp version accept)) as H.
    { unfold validateNextTx. unfold_methods. always_auto.
      by apply appendTx_keeps_trySend. }
    apply H.
  - assert (always (keeps isSaveTxIdByAddress)
              (validateNextTx env tx currentTimestamp parentTimestamp version accept)) as H.
    { unfold validateNextTx. unfold_methods. always_auto.
      by apply appendTx_keeps_saveTxId. }
    apply H.
  - intros Hok.
    assert (onOk (adds (isVerificationOnTheSpot tx))
              (validateNextTx env tx currentTimestamp parentTimestamp version accept)) as H.
    { unfold validateNextTx.
      repeat (cbv beta zeta;
              lazymatch goal with
              | |- onOk _ (mbind _ _) =>
                  apply onOk_after;
                  [apply prefix_adds | unfold_methods; always_auto | intros ?]
              end).
      by apply onOk_orReturn, appendTx_verifies. }
    destruct (validateNextTx _ _ _ _ _ _ a) as [r a'] eqn:Hrun.
    simpl in Hok. subst r.
    destruct (H _ _ _ Hrun) as (cs & Hcs & (c & Hin & task & -> & Htask)%Exists_exists).
    by exists cs, task.
Qed.

(** ** The API data *)

(** X11. [saveTransactionIdByAddresses] saves the ID for the addresses in
    order and stops at the first saving that fails, whose error it returns:
    the addresses after it are not saved. *)
Theorem saveTransactionIdByAddresses_stops env addresses txID blockID a :
  let run := saveTransactionIdByAddresses env addresses txID blockID a in
  sameStores a run.2
  ∧ match run.1 with
    | Ok _ => calls run.2 = calls a ++ savedByAddresses addresses txID blockID
    | Err e =>
        ∃ saved addr rest,
          addresses = saved ++ addr :: rest
          ∧ calls run.2 =
              calls a ++ savedByAddresses saved txID blockID
              ++ [CallSaveTxIdByAddress addr txID blockID (Err e)]
    end.
Proof.
  intros run. subst run. revert a.
  induction addresses as [|addr rest IH]; intros a; simpl.
  - split; [done|]. by rewrite app_nil_r.
  - unfold_monad. simpl.
    destruct (saveTxIdByAddress env (calls a) addr txID blockID) as [[]|e]; simpl.
    + specialize (IH (logCall (CallSaveTxIdByAddress addr txID blockID (Ok tt)) a)).
      destruct IH as [Hsame IH]. split; [exact Hsame|].
      destruct (saveTransactionIdByAddresses env rest txID blockID _) as [[[]|e] a'];
        simpl in *.
      * by rewrite IH, <- app_assoc.
      * destruct IH as (saved & addr' & rest' & -> & ->).
        exists (addr :: saved), addr', rest'. by rewrite <- app_assoc.
    + split; [done|]. by exists [], addr, rest.
Qed.

(** ** The fees of a transaction that may fail *)

(** X12. [handleFallible] looks at the fees only when failed transactions
    are accepted.  Then the fee diff of the transaction is created first, by
    the function of its type, and validated against the working set of
    diffs; when either fails, the error is returned as it is and no script
    was run and no invocation applied.  Without accepting failed
    transactions no fee diff is created. *)
Theorem handleFallible_checks_fees env tx info a :
  let run := handleFallible env tx info a in
  (acceptFailed (appendTxParamsOf info) = false →
   made isCreateFeeDiff run.2 = made isCreateFeeDiff a)
  ∧ (acceptFailed (appendTxParamsOf info) = true →
     (is_ok run.1 = true →
      ∃ feeChanges call cs,
        feeDiffCall tx (Ok feeChanges) = Some call
        ∧ calls run.2 =
            calls a ++ call :: CallValidateTxDiff (diff feeChanges) (diffStor a) (Ok tt) :: cs)
     ∧ (∀ e, (checkTxFees env tx info a).1 = Err e →
        run.1 = Err e
        ∧ made isScriptRun run.2 = made isScriptRun a
        ∧ made isApplyInvokeScript run.2 = made isApplyInvokeScript a)).
Proof.
  intros run. subst run. split.
  - intros Haccept.
    assert (always (keeps isCreateFeeDiff) (handleFallible env tx info)) as H.
    { unfold handleFallible. rewrite Haccept. unfold_methods. always_auto. }
    apply H.
  - intros Haccept. unfold handleFallible. rewrite Haccept. split.
    + intros Hok.
      destruct (checkTxFees env tx info a) as [[[]|e] a1] eqn:Hfees.
      2:{ by rewrite (bind_run_Err _ _ _ _ _ Hfees) in Hok. }
      rewrite (bind_run_Ok _ _ _ _ _ Hfees).
      assert (∃ feeChanges call,
                feeDiffCall tx (Ok feeChanges) = Some call
                ∧ calls a1 = calls a ++ [call; CallValidateTxDiff (diff feeChanges)
                                                  (diffStor a) (Ok tt)])
        as (feeChanges & call & Hcall & Hcalls).
      { revert Hfees. unfold checkTxFees, feeDiffCall, diffApplierValidateTxDiff.
        destruct (txType tx); run_all; try done; intros [= Hreply <-];
          eexists _, _; (split; [reflexivity|]); simpl; by rewrite Hreply, <- app_assoc. }
      assert (always prefix
                (match txType tx with
                 | InvokeScriptTransaction | InvokeExpressionTransaction
                 | EthereumMetamaskTransaction =>
                     '(params, invocationRes, applicationRes) ← handleInvoke env tx info;
                     mret (params, Some invocationRes, applicationRes)
                 | ExchangeTransaction =>
                     '(params, applicationRes) ← handleExchange env tx info;
                     mret (params, None, applicationRes)
                 | _ => fail (Errorf "transaction is not fallible" [])
                 end)) as Hrest.
      { unfold_methods. always_auto. }
      destruct (Hrest a1) as [cs Hcs].
      exists feeChanges, call, cs. split; [exact Hcall|].
      by rewrite Hcs, Hcalls, <- app_assoc.
    + intros e Hfees.
      destruct (checkTxFees env tx info a) as [r a1] eqn:Hrun. simpl in Hfees. subst r.
      rewrite (bind_run_Err _ _ _ _ _ Hrun). simpl.
      assert (always (keeps isScriptRun) (checkTxFees env tx info)) as Hs
          by (unfold_methods; always_auto).
      assert (always (keeps isApplyInvokeScript) (checkTxFees env tx info)) as Hi
          by (unfold_methods; always_auto).
      specialize (Hs a). specialize (Hi a). rewrite Hrun in Hs, Hi. done.
Qed.

Lemma always_run {A} R (m : M A) a r a' :
  always R m → m a = (r, a') → R (calls a) (calls a').
Proof. intros Hm Hrun. specialize (Hm a). by rewrite Hrun in Hm. Qed.

Section Ethereum.

Context (env : Collaborators).

Lemma handleDefaultTransaction_status tx params scripted :
  returns (λ res, status res = true) (handleDefaultTransaction env tx params scripted).
Proof. unfold handleDefaultTransaction. returns_steps. Qed.

Lemma handleDefaultTransaction_prefix tx params scripted :
  always prefix (handleDefaultTransaction env tx params scripted).
Proof. unfold_methods. always_auto. Qed.

Lemma handleDefaultTransaction_keeps_invoke tx params scripted :
  always (keeps isApplyInvokeScript) (handleDefaultTransaction env tx params scripted).
Proof. unfold_methods. always_auto. Qed.

Lemma checkTxFees_prefix tx info : always prefix (checkTxFees env tx info).
Proof. unfold_methods. always_auto. Qed.

(** A run of [handleInvoke] that returns a result. *)
Lemma handleInvoke_Ok tx info a p inv res a' :
  handleInvoke env tx info a = (Ok (p, inv, res), a') →
  p = setAcceptFailed (acceptFailed p) (appendTxParamsOf info)
  ∧ calls a' = calls a ++ [CallApplyInvokeScript tx (Ok (acceptFailed p, inv, res))].
Proof.
  unfold handleInvoke.
  destruct (txBody tx) as [| | |[[]|]|]; run_all; try done;
    by intros [= <- <- <- <-].
Qed.

End Ethereum.

(** ** Ethereum transactions *)

(** X13. An Ethereum transaction is dispatched by the kind that the resolver
    returns, which is set on the transaction.  A transfer, of Waves or of
    assets, takes the default path: no invocation is applied, its result is
    never failed, and [appendTx] validates its diff in pool mode.  An
    invocation takes the fallible path: its result is the one that
    [applyInvokeScript] returned, as the last call, with the [acceptFailed]
    that this call left, and [appendTx] does not validate its diff itself, in
    pool mode either. *)
Theorem appendTx_dispatch_ethereum env tx params accountHasVerifierScript senderAddr a d a' :
  txType tx = EthereumMetamaskTransaction →
  appendTx_dispatch env tx params accountHasVerifierScript senderAddr a = (Ok d, a') →
  ∃ kind cs,
    calls a' = calls a ++ CallResolveTxKind tx (Ok kind) :: cs
    ∧ dTx d = setTxKind tx kind
    ∧ if isEthereumTransfer kind
      then dParams d = params
           ∧ needToValidateBalanceDiff d = validatingUtx params
           ∧ dInvocationResult d = None
           ∧ status (dApplicationRes d) = true
           ∧ countCalls isApplyInvokeScript cs = 0
      else dParams d = setAcceptFailed (acceptFailed (dParams d)) params
           ∧ needToValidateBalanceDiff d = false
           ∧ ∃ inv, dInvocationResult d = Some inv
               ∧ last cs = Some (CallApplyInvokeScript (setTxKind tx kind)
                                   (Ok (acceptFailed (dParams d), inv,
                                        dApplicationRes d))).
Proof.
  intros Htype. unfold appendTx_dispatch. rewrite Htype.
  destruct (txBody tx) as [| | |TxKind|]; try done.
  intros (kind & a1 & Hkind & Hrun)%bind_Ok.
  assert (a1 = logCall (CallResolveTxKind tx (Ok kind)) a) as ->.
  { revert Hkind. run_all; intros [= Hreply <-]; by rewrite ?Hreply. }
  clear Hkind. exists kind.
  destruct kind; cbv beta iota zeta in Hrun.
  1,2: apply bind_Ok in Hrun as (res & a2 & Hres%orReturn_Ok & [= <- <-]);
    pose proof (handleDefaultTransaction_status env _ _ _ _ _ _ Hres) as Hstatus;
    pose proof (always_run _ _ _ _ _ (handleDefaultTransaction_prefix env _ _ _) Hres)
      as [cs Hcs];
    pose proof (always_run _ _ _ _ _ (handleDefaultTransaction_keeps_invoke env _ _ _) Hres)
      as Hkeeps;
    simpl in Hcs, Hkeeps;
    exists cs; simpl; split_and!; try done;
    [ by rewrite Hcs, <- app_assoc
    | unfold keeps in Hkeeps; rewrite Hcs, !countCalls_app in Hkeeps; simpl in Hkeeps; lia ].
  apply bind_Ok in Hrun as ([[p inv] res] & a2 & Hres%orReturn_Ok%orReturn_Ok & [= <- <-]).
  unfold handleFallible in Hres. simpl in Hres. rewrite Htype in Hres.
  apply bind_Ok in Hres as ([] & a3 & Hfees & Hres).
  apply bind_Ok in Hres as ([[p' inv'] res'] & a4 & Hinvoke & [= <- <- <- <-]).
  apply handleInvoke_Ok in Hinvoke as [Hp Hinvoke].
  assert (calls (logCall (CallResolveTxKind tx (Ok EthereumInvokeScriptTxKind)) a)
          `prefix_of` calls a3) as [cs Hcs].
  { destruct (acceptFailed params).
    - exact (always_run _ _ _ _ _ (checkTxFees_prefix env _ _) Hfees).
    - by injection Hfees as <-. }
  exists (cs ++ [CallApplyInvokeScript (setTxKind tx EthereumInvokeScriptTxKind)
                   (Ok (acceptFailed p', inv', res'))]).
  simpl. split_and!; try done.
  - rewrite Hinvoke, Hcs. simpl. by rewrite <- !app_assoc.
  - exists inv'. split; [done | apply last_snoc].
Qed.

Lemma appendTx_dispatch_ethereum_witness :
  let env := chain allFeatures [] passes enough [] in
  let tx := txOf EthereumMetamaskTransaction (EthereumTransaction None) "e1" in
  let run := appendTx_dispatch env tx (paramsOf true false true) true "alice" newTxAppender in
  ∃ d kind cs, run.1 = Ok d
    ∧ calls run.2 = CallResolveTxKind tx (Ok kind) :: cs
    ∧ dTx d = setTxKind tx kind.
Proof.
  intros env tx run.
  pose (v := run). vm_compute in v.
  lazymatch eval cbv delta [v] in v with
  | (Ok ?d, ?a') =>
      assert (run = (Ok d, a')) as Hrun by (vm_compute; reflexivity);
      destruct (appendTx_dispatch_ethereum env tx (paramsOf true false true) true "alice"
                  newTxAppender d a' eq_refl Hrun) as (kind & cs & Hcalls & Htx & _);
      exists d, kind, cs;
      split; [vm_compute; reflexivity|];
      split; [|exact Htx];
      refine (eq_trans _ Hcalls); vm_compute; reflexivity
  end.
Defined.

(** ** The validation of the diff in [appendTx] *)

Section Validates.

Context (env : Collaborators).

Lemma appendTx_checks_unchanged tx params :
  steady unchanged (appendTx_checks env tx params).
Proof. unfold appendTx_checks. unfold_checks. steady_auto unchanged_side. Qed.

(** A run of the fallible path on an invocation that returns a result: the
    result and the [acceptFailed] it comes with are those of the reply of
    [applyInvokeScript], the last call. *)
Lemma handleFallible_invoke_Ok tx info a p inv res a' :
  txType tx = InvokeScriptTransaction ∨ txType tx = InvokeExpressionTransaction →
  handleFallible env tx info a = (Ok (p, inv, res), a') →
  ∃ i, inv = Some i
    ∧ last (calls a') = Some (CallApplyInvokeScript tx (Ok (acceptFailed p, i, res))).
Proof.
  intros Htype Hrun. unfold handleFallible in Hrun.
  apply bind_Ok in Hrun as ([] & a1 & _ & Hrun).
  assert (('(params, invocationRes, applicationRes) ← handleInvoke env tx info;
           mret (params, Some invocationRes, applicationRes)) a1 = (Ok (p, inv, res), a'))
    as Hinvoke by (by destruct Htype as [Htype|Htype]; rewrite Htype in Hrun).
  apply bind_Ok in Hinvoke as ([[p' i] res'] & a2 & Hinvoke & [= <- <- <- <-]).
  apply handleInvoke_Ok in Hinvoke as [_ ->].
  exists i. split; [done | apply last_snoc].
Qed.

Lemma appendTx_dispatch_invoke_Ok tx params scripted sender a d a' :
  txType tx = InvokeScriptTransaction ∨ txType tx = InvokeExpressionTransaction →
  appendTx_dispatch env tx params scripted sender a = (Ok d, a') →
  ∃ inv,
    last (calls a')
    = Some (CallApplyInvokeScript tx (Ok (acceptFailed (dParams d), inv, dApplicationRes d))).
Proof.
  intros Htype Hrun. unfold appendTx_dispatch in Hrun.
  assert (('(params', invocationResult, applicationRes) ←
             orReturn
               (handleInvokeOrExchangeTransaction env tx
                  {| appendTxParamsOf := params; senderScripted := scripted;
                     senderAddress := sender |})
               (λ err, Wrap err "failed to handle invoke or exchange transaction");
           mret {| dTx := tx; dParams := params'; dApplicationRes := applicationRes;
                   dInvocationResult := invocationResult;
                   needToValidateBalanceDiff :=
                     validatingUtx params' && negb (acceptFailed params') |}) a
          = (Ok d, a')) as Hfallible
    by (by destruct Htype as [Htype|Htype]; rewrite Htype in Hrun).
  apply bind_Ok in Hfallible
    as ([[p inv] res] & a1 & Hfallible%orReturn_Ok%orReturn_Ok & [= <- <-]).
  apply handleFallible_invoke_Ok in Hfallible as (i & _ & Hlast); [|done].
  by exists i.
Qed.

(** The validation that [appendTx] asks for itself, and what follows. *)
Lemma validate_run {B} d f (k : unit → M B) a :
  (orReturn (diffApplierValidateTxDiff env d) f ≫= k) a
  = match validateTxDiff env (calls a) d (diffStor a) with
    | Ok u => k u (logCall (CallValidateTxDiff d (diffStor a) (Ok u)) a)
    | Err e => (Err (f e), logCall (CallValidateTxDiff d (diffStor a) (Err e)) a)
    end.
Proof.
  unfold diffApplierValidateTxDiff. unfold_monad. simpl.
  by destruct (validateTxDiff env (calls a) d (diffStor a)).
Qed.

End Validates.

(** The calls that a run added, when it kept the count of the calls [p]. *)
Lemma new_calls_keep (p : Call → bool) (l l' : list Call) :
  l `prefix_of` l' → keeps p l l' → ∃ cs, l' = l ++ cs ∧ countCalls p cs = 0.
Proof.
  intros [cs ->] Hkeeps. exists cs. split; [done|].
  unfold keeps in Hkeeps. rewrite countCalls_app in Hkeeps. lia.
Qed.

(** C1, as amended.  Once the switch of [appendTx] has computed the diff of
    a transaction, [appendTx] validates this diff for negative balances
    itself exactly when [needToValidateBalanceDiff] is set: the validation
    is then the next call, of the diff of the application result against the
    working set of diffs, and a failure of it rejects the transaction with
    this error and leaves the stores as they were; when the flag is unset,
    [appendTx] asks for no validation after the switch.  The flag is set in
    pool mode only: for the kinds that take the default path always; for
    Exchange only when [acceptFailed && blockV5Activated] is false; for
    InvokeScript and InvokeExpression only when [acceptFailed], as
    [applyInvokeScript] leaves it, is false; for an Ethereum transaction
    only when the kind resolved is a transfer.  In block mode it is unset
    whatever the kind. *)
Theorem appendTx_validates_diff env tx params a accountHasVerifierScript senderAddr a0 d a1 :
  appendTx_checks env tx params a = (Ok (accountHasVerifierScript, senderAddr), a0) →
  appendTx_dispatch env tx params accountHasVerifierScript senderAddr a0 = (Ok d, a1) →
  let run := appendTx env tx params a in
  let txDiff := diff (changes (dApplicationRes d)) in
  ((validatingUtx params = false → needToValidateBalanceDiff d = false)
   ∧ (isDefaultType (txType tx) = true →
      needToValidateBalanceDiff d = validatingUtx params)
   ∧ (isFallibleType (txType tx) = true →
      needToValidateBalanceDiff d
      = validatingUtx params && negb (acceptFailed (dParams d)))
   ∧ (txType tx = ExchangeTransaction →
      acceptFailed (dParams d) = blockV5Activated params && acceptFailed params)
   ∧ (txType tx = InvokeScriptTransaction ∨ txType tx = InvokeExpressionTransaction →
      ∃ inv,
        last (calls a1)
        = Some (CallApplyInvokeScript tx
                  (Ok (acceptFailed (dParams d), inv, dApplicationRes d))))
   ∧ (txType tx = EthereumMetamaskTransaction →
      ∃ kind,
        dTx d = setTxKind tx kind
        ∧ needToValidateBalanceDiff d = validatingUtx params && isEthereumTransfer kind))
  ∧ (needToValidateBalanceDiff d = false →
     ∃ cs, calls run.2 = calls a1 ++ cs ∧ countCalls isValidateTxDiff cs = 0)
  ∧ (needToValidateBalanceDiff d = true →
     ∃ reply cs,
       calls run.2 = calls a1 ++ CallValidateTxDiff txDiff (diffStor a) reply :: cs
       ∧ countCalls isValidateTxDiff cs = 0
       ∧ ∀ e, reply = Err e →
           run.1 = Err (Extend e "validate transaction diff")
           ∧ cs = [CallDropUncertain]
           ∧ sameStores a run.2).
Proof.
  intros Hchecks Hdispatch run txDiff. subst run txDiff.
  pose proof (steady_run _ _ _ _ _ (appendTx_checks_unchanged env tx params) Hchecks)
    as Hpre.
  pose proof (steady_run _ _ _ _ _
                (appendTx_dispatch_unchanged env tx params accountHasVerifierScript senderAddr)
                Hdispatch) as Hmid.
  assert (unchanged a a1) as [Hstores _] by (by etrans).
  pose proof (appendTx_dispatch_returns env tx params _ _ _ _ _ Hdispatch)
    as (_ & _ & Hutx & Hdefault & Hfallible & Hexchange & _).
  split.
  { split_and!; [ | exact Hdefault | exact Hfallible | exact Hexchange | | ].
    - intros Hblock. destruct (needToValidateBalanceDiff d); [|done].
      rewrite Hutx in Hblock; done.
    - intros Htype. by eapply appendTx_dispatch_invoke_Ok.
    - intros Htype.
      exact (appendTx_dispatch_ethereum_returns env tx params _ _ Htype _ _ _ Hdispatch). }
  rewrite appendTx_run. unfold appendTx_body. unfold appendTx_checks in Hchecks.
  repeat (cbv beta zeta in Hchecks;
          lazymatch type of Hchecks with
          | (mbind _ _) _ = _ =>
              let x := fresh "x" in
              let a' := fresh "a" in
              let Hstep := fresh "Hstep" in
              apply bind_Ok in Hchecks as (x & a' & Hstep & Hchecks);
              cbv beta zeta;
              rewrite (bind_run_Ok _ _ _ _ _ Hstep); clear Hstep
          end).
  injection Hchecks as -> -> ->.
  rewrite (bind_run_Ok _ _ _ _ _ Hdispatch). cbv beta zeta.
  split.
  - intros Hflag. rewrite Hflag. simpl.
    lazymatch goal with
    | |- context [(?m a1).2] =>
        assert (always prefix m) as Hprefix by (unfold_methods; always_auto);
        assert (always (keeps isValidateTxDiff) m) as Hkeeps
          by (unfold_methods; always_auto);
        specialize (Hprefix a1); specialize (Hkeeps a1);
        destruct (m a1) as [r aR]
    end.
    simpl in *.
    destruct (new_calls_keep _ _ _ Hprefix Hkeeps) as (cs & -> & Hnone).
    exists (cs ++ [CallDropUncertain]).
    split; [by rewrite <- app_assoc|]. rewrite countCalls_app. simpl. lia.
  - intros Hflag. rewrite Hflag. rewrite validate_run.
    pose proof Hstores as (Hdiffs & _). rewrite Hdiffs.
    destruct (validateTxDiff env (calls a1) _ (diffStor a)) as [[]|e]; cbv beta.
    + lazymatch goal with
      | |- context [(?m (logCall ?c a1)).2] =>
          pose (aV := logCall c a1);
          assert (always prefix m) as Hprefix by (unfold_methods; always_auto);
          assert (always (keeps isValidateTxDiff) m) as Hkeeps
            by (unfold_methods; always_auto);
          specialize (Hprefix aV); specialize (Hkeeps aV); subst aV;
          destruct (m (logCall c a1)) as [r aR]
      end.
      simpl in *.
      destruct (new_calls_keep _ _ _ Hprefix Hkeeps) as (cs & -> & Hnone).
      eexists (Ok tt), (cs ++ [CallDropUncertain]).
      split_and!; [by rewrite <- !app_assoc | rewrite countCalls_app; simpl; lia | done].
    + eexists (Err e), [CallDropUncertain]. simpl.
      split_and!; [by rewrite <- app_assoc | done |].
      intros e' [= <-]. by split_and!.
Qed.

Lemma appendTx_validates_diff_witness :
  let env := chain allFeatures [] passes insufficient [] in
  let tx := txOf TransferTransaction OtherBody "t1" in
  let params := paramsOf true false true in
  let run := appendTx env tx params newTxAppender in
  run.1 = Err (Extend (Errorf "negative balance" []) "validate transaction diff")
  ∧ last (calls run.2) = Some CallDropUncertain
  ∧ sameStores newTxAppender run.2.
Proof.
  intros env tx params run.
  pose (checks := appendTx_checks env tx params newTxAppender). vm_compute in checks.
  lazymatch eval cbv delta [checks] in checks with
  | (Ok (?scripted, ?sender), ?a0) =>
      assert (appendTx_checks env tx params newTxAppender = (Ok (scripted, sender), a0))
        as Hchecks by (vm_compute; reflexivity);
      pose (dispatch := appendTx_dispatch env tx params scripted sender a0);
      vm_compute in dispatch;
      lazymatch eval cbv delta [dispatch] in dispatch with
      | (Ok ?d, ?a1) =>
          assert (appendTx_dispatch env tx params scripted sender a0 = (Ok d, a1))
            as Hdispatch by (vm_compute; reflexivity);
          destruct (appendTx_validates_diff env tx params newTxAppender scripted sender
                      a0 d a1 Hchecks Hdispatch) as (_ & _ & Hvalid);
          destruct (Hvalid eq_refl) as (reply & cs & Hcalls & _ & Hreject)
      end
  end.
  pose (l := calls run.2). vm_compute in l.
  assert (calls run.2 = l) as Hl by (vm_compute; reflexivity).
  subst l. unfold run in Hl. rewrite Hl in Hcalls. simpl in Hcalls.
  injection Hcalls as Hreply Hcs.
  destruct (Hreject _ (eq_sym Hreply)) as (Herr & -> & Hsame).
  split_and!; [exact Herr | | exact Hsame].
  unfold run. rewrite Hl. reflexivity.
Defined.

(** C1, the claim as stated fails: in block mode a Transfer transaction whose
    diff the diff applier would refuse for a negative balance is appended by
    [appendTx] with no validation of a diff, and written to the storage. *)
Lemma appendTx_validates_diff_counterexample :
  let env := chain allFeatures [] passes insufficient [] in
  let tx := txOf TransferTransaction OtherBody "t1" in
  let params := paramsOf false true true in
  let run := appendTx env tx params newTxAppender in
  validatingUtx params = false
  ∧ isFallibleType (txType tx) = false
  ∧ is_ok (validateTxDiff env (calls run.2) (diff transfer) (diffStor newTxAppender)) = false
  ∧ run.1 = Ok tt
  ∧ made isValidateTxDiff run.2 = 0
  ∧ CallSaveTxDiff (diff transfer) (Ok tt) ∈ calls run.2
  ∧ CallWriteTransaction tx false (Ok tt) ∈ calls run.2.
Proof.
  intros env tx params run. vm_compute.
  split_and!; try reflexivity; find_call.
Qed.

(** ** The monad of [appendBlock] *)

Lemma block_bind_Ok {A C} (m : B A) (f : A → B C) s y s' :
  (m ≫= f) s = (Ok y, s') → ∃ x s1, m s = (Ok x, s1) ∧ f x s1 = (Ok y, s').
Proof.
  unfold mbind, B_bind. destruct (m s) as [[x|e] s1]; [eauto | done].
Qed.

Lemma block_bind_run_Ok {A C} (m : B A) (f : A → B C) s x s1 :
  m s = (Ok x, s1) → (m ≫= f) s = f x s1.
Proof. intros H. unfold mbind, B_bind. by rewrite H. Qed.

Lemma block_bind_run_Err {A C} (m : B A) (f : A → B C) s e s1 :
  m s = (Err e, s1) → (m ≫= f) s = (Err e, s1).
Proof. intros H. unfold mbind, B_bind. by rewrite H. Qed.

Lemma blockOrReturn_Ok {A} (m : B A) f s x s' :
  blockOrReturn m f s = (Ok x, s') → m s = (Ok x, s').
Proof. unfold blockOrReturn. destruct (m s) as [[y|e] s1]; [done | done]. Qed.

Lemma inAppender_run {A} (m : M A) s r s' :
  inAppender m s = (r, s') →
  m (appender s) = (r, appender s') ∧ blockCalls s' = blockCalls s.
Proof.
  unfold inAppender. intros [= <- <-]. simpl. by destruct (m (appender s)).
Qed.

(** ** The initial snapshot of a block *)

(** The conversions of [createInitialBlockSnapshot] wrap around. *)
Lemma uint64_int64 z : uint64 (int64 z) = uint64 z.
Proof.
  unfold uint64, int64.
  rewrite Zminus_mod_idemp_l. f_equal. lia.
Qed.

Lemma uint64_int64_add b d : uint64 (int64 (int64 b + d)) = (b + d) mod 2 ^ 64.
Proof.
  rewrite uint64_int64. unfold uint64.
  rewrite <- Zplus_mod_idemp_l.
  change (int64 b mod 2 ^ 64) with (uint64 (int64 b)). rewrite uint64_int64.
  unfold uint64. by rewrite Zplus_mod_idemp_l.
Qed.

Section Snapshot.

Context (benv : BlockCollaborators).

Lemma createInitialBlockSnapshot_range_run entries snapshot s :
  let run := createInitialBlockSnapshot_range benv entries snapshot s in
  appender run.2 = appender s
  ∧ match run.1 with
    | Ok snapshot' =>
        ∃ balances,
          length balances = length entries
          ∧ blockCalls run.2 = blockCalls s ++ balanceLookups entries balances
          ∧ regular snapshot' = regular snapshot ++ newBalances entries balances
    | Err e =>
        ∃ e0 addr,
          e = Wrap e0 "failed to receive sender's waves balance"
          ∧ last (blockCalls run.2) = Some (CallNewestWavesBalance addr (Err e0))
    end.
Proof.
  revert snapshot s. induction entries as [|[addr d] rest IH]; intros snapshot s; simpl.
  - split; [done|]. exists []. by rewrite !app_nil_r.
  - unfold mbind, B_bind, blockOrReturn, blockExtern. simpl.
    destruct (newestWavesBalance benv _ _ addr) as [fullBalance|e0]; simpl.
    + match goal with
      | |- context [createInitialBlockSnapshot_range benv rest ?sn ?s1] =>
          specialize (IH sn s1)
      end.
      destruct IH as [Happ IH]. split; [exact Happ|].
      destruct (createInitialBlockSnapshot_range benv rest _ _) as [[snapshot'|e] s'];
        simpl in *.
      * destruct IH as (balances & Hlen & Hcalls & Hregular).
        exists (fullBalance :: balances). simpl.
        rewrite Hcalls, Hregular, <- !app_assoc, uint64_int64_add. by rewrite Hlen.
      * exact IH.
    + split; [done|]. exists e0, addr. by rewrite last_snoc.
Qed.

End Snapshot.

(** A run of [createInitialBlockSnapshot] that returns a snapshot. *)
Lemma createInitialBlockSnapshot_Ok benv minerAndRewardDiff s snapshot s' :
  createInitialBlockSnapshot benv minerAndRewardDiff s = (Ok snapshot, s') →
  appender s' = appender s
  ∧ ∃ entries balances,
      length balances = length entries
      ∧ blockCalls s' =
          blockCalls s
          ++ CallBalanceDiffFromTxDiff minerAndRewardDiff (Ok entries)
             :: balanceLookups entries balances
      ∧ regular snapshot = newBalances entries balances.
Proof.
  unfold createInitialBlockSnapshot.
  intros (entries & s1 & Hentries%blockOrReturn_Ok & Hrange)%block_bind_Ok.
  revert Hentries. unfold blockExtern. intros [= Hreply <-].
  pose proof (createInitialBlockSnapshot_range_run benv entries {| regular := [] |}
                {| appender := appender s;
                   blockCalls :=
                     blockCalls s ++
                     [CallBalanceDiffFromTxDiff minerAndRewardDiff
                        (balanceDiffFromTxDiff benv (calls (appender s)) (blockCalls s)
                           minerAndRewardDiff)] |}) as Hrun.
  rewrite Hrange in Hrun. simpl in Hrun.
  destruct Hrun as (Happ & balances & Hlen & Hcalls & Hregular).
  split; [exact Happ|]. exists entries, balances.
  split_and!; [done | by rewrite Hcalls, Hreply, <- app_assoc | done].
Qed.

(** X14. The initial snapshot of a block has one balance for each entry of
    the balance diff made of the miner and reward diff, in the order of the
    visit of the map: the newest balance of the address plus the amount of
    the diff, modulo [2 ^ 64], since the conversions to [int64] and back wrap
    around.  Building it reads one balance per entry, and changes nothing in
    the appender. *)
Theorem createInitialBlockSnapshot_balances benv minerAndRewardDiff s snapshot s' :
  createInitialBlockSnapshot benv minerAndRewardDiff s = (Ok snapshot, s') →
  appender s' = appender s
  ∧ ∃ entries balances,
      length balances = length entries
      ∧ blockCalls s' =
          blockCalls s
          ++ CallBalanceDiffFromTxDiff minerAndRewardDiff (Ok entries)
             :: balanceLookups entries balances
      ∧ regular snapshot = newBalances entries balances.
Proof. apply createInitialBlockSnapshot_Ok. Qed.

Lemma createInitialBlockSnapshot_balances_witness :
  let run := createInitialBlockSnapshot (blockChain (2 ^ 64 - 1)) minerDiff newBlockAppender in
  run.1 = Ok {| regular := [("miner", 5)] |}
  ∧ ∃ entries balances, regular {| regular := [("miner", 5)] |} = newBalances entries balances.
Proof.
  intros run. split; [vm_compute; reflexivity|].
  pose (v := run.2). vm_compute in v.
  lazymatch eval cbv delta [v] in v with
  | ?s' =>
      assert (run = (Ok {| regular := [("miner", 5)] |}, s')) as Hrun
        by (vm_compute; reflexivity);
      destruct (createInitialBlockSnapshot_balances (blockChain (2 ^ 64 - 1)) minerDiff
                  newBlockAppender _ s' Hrun) as (_ & entries & balances & _ & _ & Hregular);
      by exists entries, balances
  end.
Defined.

(** ** Reasoning about the appender of a block *)

#[global] Instance onCalls_preorder R `{!PreOrder R} : PreOrder (onCalls R).
Proof.
  split; unfold onCalls; [intros a; reflexivity | intros a1 a2 a3 H12 H23; by etrans].
Qed.

#[global] Instance onAppender_preorder R `{!PreOrder R} : PreOrder (onAppender R).
Proof.
  split; unfold onAppender; [intros a; reflexivity | intros a1 a2 a3 H12 H23; by etrans].
Qed.

Lemma steady_onCalls {A} R (m : M A) : always R m → steady (onCalls R) m.
Proof. intros Hm a. apply Hm. Qed.

Lemma countBlockCalls_app p cs1 cs2 :
  countBlockCalls p (cs1 ++ cs2) = countBlockCalls p cs1 + countBlockCalls p cs2.
Proof. induction cs1 as [|c cs1 IH]; simpl; [reflexivity | rewrite IH; lia]. Qed.

Section BlockRules.

Context (R : relation txAppender) `{!PreOrder R}.

Lemma blockSteady_ret {A} (x : A) : blockSteady (onAppender R) (mret x).
Proof. intros s. reflexivity. Qed.

Lemma blockSteady_inAppender {A} (m : M A) :
  steady R m → blockSteady (onAppender R) (inAppender m).
Proof. intros Hm s. apply Hm. Qed.

Lemma blockSteady_extern {A} (c : result A → BlockCall) reply :
  blockSteady (onAppender R) (blockExtern c reply).
Proof. intros s. unfold onAppender. simpl. reflexivity. Qed.

Lemma blockSteady_bind {A C} (m : B A) (f : A → B C) :
  blockSteady (onAppender R) m → (∀ x, blockSteady (onAppender R) (f x)) →
  blockSteady (onAppender R) (m ≫= f).
Proof.
  intros Hm Hf s. specialize (Hm s). unfold mbind, B_bind.
  destruct (m s) as [[x|e] s1]; simpl in *; [|done].
  etrans; [exact Hm | apply Hf].
Qed.

Lemma blockSteady_bind_inAppender {A C} (Q : A → Prop) (m : M A) (f : A → B C) :
  steady R m → returns Q m → (∀ x, Q x → blockSteady (onAppender R) (f x)) →
  blockSteady (onAppender R) (inAppender m ≫= f).
Proof.
  intros Hm HQ Hf s. specialize (Hm (appender s)). unfold mbind, B_bind, inAppender.
  destruct (m (appender s)) as [[x|e] a1] eqn:Hma; simpl in *; [|done].
  etrans; [|apply Hf; by eapply HQ]. exact Hm.
Qed.

Lemma blockSteady_orReturn {A} (m : B A) f :
  blockSteady (onAppender R) m → blockSteady (onAppender R) (blockOrReturn m f).
Proof.
  intros Hm s. specialize (Hm s). unfold blockOrReturn.
  by destruct (m s) as [[x|e] s1].
Qed.

Lemma blockSteady_attempt {A} (m : B A) :
  blockSteady (onAppender R) m → blockSteady (onAppender R) (blockAttempt m).
Proof. intros Hm s. apply Hm. Qed.

Context (env : Collaborators) (benv : BlockCollaborators).

Lemma blockSteady_createInitialBlockSnapshot d :
  blockSteady (onAppender R) (createInitialBlockSnapshot benv d).
Proof.
  intros s. unfold createInitialBlockSnapshot, mbind, B_bind, blockOrReturn, blockExtern.
  unfold onAppender.
  destruct (balanceDiffFromTxDiff benv _ _ d) as [entries|e]; simpl; [|reflexivity].
  match goal with
  | |- context [createInitialBlockSnapshot_range benv entries ?sn ?s1] =>
      destruct (createInitialBlockSnapshot_range_run benv entries sn s1) as [-> _]
  end.
  reflexivity.
Qed.

Lemma blockSteady_appendBlock_transactions txs appendTxArgs :
  (∀ tx, tx ∈ txs → steady R (appendTx env tx appendTxArgs)) →
  blockSteady (onAppender R) (appendBlock_transactions env txs appendTxArgs).
Proof.
  induction txs as [|tx rest IH]; intros Htx; simpl.
  - apply blockSteady_ret.
  - apply blockSteady_bind.
    + apply blockSteady_inAppender, Htx. left.
    + intros _. apply IH. intros tx' Hin. apply Htx. by right.
Qed.

End BlockRules.

Section Block.

Context (env : Collaborators) (benv : BlockCollaborators).

(** The loop of [appendBlock] makes no call of its own. *)
Lemma appendBlock_transactions_blockCalls txs appendTxArgs s :
  blockCalls (appendBlock_transactions env txs appendTxArgs s).2 = blockCalls s.
Proof.
  revert s. induction txs as [|tx rest IH]; intros s; simpl; [done|].
  unfold mbind, B_bind, inAppender.
  destruct (appendTx env tx appendTxArgs (appender s)) as [[[]|e] a1]; simpl; [|done].
  by rewrite IH.
Qed.

(** The loop of [appendBlock] over [txs ++ txs'] . *)
Lemma appendBlock_transactions_app txs txs' appendTxArgs s :
  appendBlock_transactions env (txs ++ txs') appendTxArgs s
  = match appendBlock_transactions env txs appendTxArgs s with
    | (Ok _, s1) => appendBlock_transactions env txs' appendTxArgs s1
    | (Err e, s1) => (Err e, s1)
    end.
Proof.
  revert s. induction txs as [|tx rest IH]; intros s; simpl; [done|].
  unfold mbind, B_bind.
  destruct (inAppender (appendTx env tx appendTxArgs) s) as [[[]|e] s1]; [|done].
  apply IH.
Qed.

(** A run of the loop that returns no error appended every transaction. *)
Lemma appendBlock_transactions_Ok txs appendTxArgs s s' :
  appendBlock_transactions env txs appendTxArgs s = (Ok tt, s') →
  recentTxIds (appender s) ⊆ recentTxIds (appender s')
  ∧ (∀ tx, tx ∈ txs → ∃ id, GetID tx = Ok id ∧ id ∈ recentTxIds (appender s'))
  ∧ (∃ diffs, diffStor (appender s') = diffStor (appender s) ++ diffs
              ∧ length diffs = length txs)
  ∧ made isSaveTxDiff (appender s') = made isSaveTxDiff (appender s) + Z.of_nat (length txs)
  ∧ made isDropUncertain (appender s')
    = made isDropUncertain (appender s) + Z.of_nat (length txs).
Proof.
  revert s. induction txs as [|tx rest IH]; intros s; simpl.
  - intros [= <-]. split_and!; [done | by intros tx ?%elem_of_nil | | lia | lia].
    exists []. by rewrite app_nil_r.
  - intros ([] & s1 & [Htx Hbc]%inAppender_run & Hrest)%block_bind_Ok.
    apply IH in Hrest as (Hsub & Hall & (diffs & Hdiffs & Hlen) & Hsaved & Hdropped).
    pose proof Htx as Hstores.
    apply appendTx_Ok_stores in Hstores
      as (id & _ & _ & _ & d & _ & Hid & _ & Hids & _ & Hd & _ & Hs).
    assert (made isDropUncertain (appender s1) = made isDropUncertain (appender s) + 1)
      as Hdrop.
    { rewrite appendTx_run in Htx. injection Htx as _ <-. rewrite made_logCall. simpl.
      f_equal. apply (appendTx_body_keeps_drop env tx appendTxArgs (appender s)). }
    split_and!.
    + etrans; [|exact Hsub]. rewrite Hids. apply union_subseteq_r.
    + intros tx' [->|Hin]%elem_of_cons; [|by apply Hall].
      exists id. split; [done|]. apply Hsub. rewrite Hids.
      apply elem_of_union. left. by apply elem_of_singleton.
    + exists (diff (changes (dApplicationRes d)) :: diffs).
      split; [by rewrite Hdiffs, Hd, <- app_assoc | simpl; by rewrite Hlen].
    + lia.
    + lia.
Qed.

End Block.

#[global] Instance blockUnchanged_preorder : PreOrder blockUnchanged.
Proof.
  split.
  - intros s. split; reflexivity.
  - intros s1 s2 s3 [H1 H2] [K1 K2]. split; [by etrans | congruence].
Qed.

(** A step of a run of [appendBlock] that returned no error, taken off [H]:
    the step was [blockUnchanged], as were the steps before it, [Hacc]. *)
Ltac block_invert_unchanged H Hacc :=
  lazymatch type of H with
  | (mbind _ (inAppender (diffStorSaveTxDiff _ _))) _ = _ => fail
  | (mbind _ (inAppender ?m)) ?s0 = _ =>
      let x := fresh "x" in
      let s1 := fresh "s" in
      let Hstep := fresh "Hstep" in
      let Hbc := fresh "Hbc" in
      let Hnew := fresh "Hnew" in
      apply block_bind_Ok in H as (x & s1 & [Hstep Hbc]%inAppender_run & H);
      assert (blockUnchanged s0 s1) as Hnew
        by (split; [|exact Hbc];
            eapply steady_run; [|exact Hstep];
            unfold_methods; steady_auto unchanged_side);
      apply (transitivity Hacc) in Hnew;
      clear Hstep Hbc Hacc; rename Hnew into Hacc
  end.

Section Block2.

Context (env : Collaborators) (benv : BlockCollaborators).

(** [appendBlock] is its body followed by the deferred calls. *)
Lemma appendBlock_run params s :
  appendBlock env benv params s
  = ((appendBlock_body env benv params s).1,
     {| appender :=
          withTotalScriptsRuns (λ _, 0)
            (withSc resetComplexity (appender (appendBlock_body env benv params s).2));
        blockCalls := blockCalls (appendBlock_body env benv params s).2 |}).
Proof.
  unfold appendBlock, mbind, B_bind, blockAttempt, inAppender, modify, lift.
  by destruct (appendBlock_body env benv params s).
Qed.

(** A run of the body of [appendBlock] that returns no error. *)
Lemma appendBlock_body_Ok params s s' :
  appendBlock_body env benv params s = (Ok tt, s') →
  ∃ minerAndRewardDiff entries balances appendTxArgs s1 s2,
    blockModeParams params appendTxArgs
    ∧ recentTxIds (appender s1) = recentTxIds (appender s)
    ∧ diffStor (appender s1) = diffStor (appender s) ++ [minerAndRewardDiff]
    ∧ made isSaveTxDiff (appender s1) = made isSaveTxDiff (appender s) + 1
    ∧ appendBlock_transactions env (appendBlockParams.transactions params) appendTxArgs s1
      = (Ok tt, s2)
    ∧ appender s' = appender s2
    ∧ length balances = length entries
    ∧ blockCalls s' = blockCalls s ++ blockCallsOf params minerAndRewardDiff entries balances.
Proof.
  unfold appendBlock_body. intros Hbody.
  assert (blockUnchanged s s) as Hpre by reflexivity.
  repeat (cbv beta zeta in Hbody; block_invert_unchanged Hbody Hpre).
  apply block_bind_Ok in Hbody as (minerAndRewardDiff & sM & Hminer & Hbody).
  revert Hminer. unfold blockExtern. intros [= Hminer <-].
  apply block_bind_Ok in Hbody
    as (snapshot & sS & Hsnapshot%blockOrReturn_Ok%createInitialBlockSnapshot_Ok & Hbody).
  simpl in Hsnapshot.
  destruct Hsnapshot as (HappS & entries & balances & Hlen & HcallsS & _).
  apply block_bind_Ok in Hbody as ([] & sD & [Hsave HbcD]%inAppender_run & Hbody).
  assert (appender sD
          = withDiffStor (λ ds, ds ++ [minerAndRewardDiff])
              (logCall (CallSaveTxDiff minerAndRewardDiff (Ok tt)) (appender sS)))
    as HappD.
  { revert Hsave. unfold diffStorSaveTxDiff. run_all; [|done].
    intros [= <-]. by repeat match goal with u : unit |- _ => destruct u end. }
  assert (blockUnchanged sD sD) as Hmid by reflexivity.
  repeat (cbv beta zeta in Hbody; block_invert_unchanged Hbody Hmid).
  apply block_bind_Ok in Hbody as ([] & sL & Hloop & Hbody).
  revert Hbody. unfold blockExtern.
  destruct (saveCurFeeDistr benv _ _ _) as [[]|e] eqn:Hfee; [|done]. intros [= <-].
  lazymatch type of Hloop with
  | appendBlock_transactions _ ?txs ?args ?s0 = _ =>
      pose proof (appendBlock_transactions_blockCalls env txs args s0) as HbcL
  end.
  rewrite Hloop in HbcL. simpl in HbcL, HappS.
  destruct Hpre as [(Hpre1 & _ & Hpre2) Hpre3].
  destruct Hmid as [(Hmid1 & _ & Hmid2) Hmid3].
  destruct Hpre1 as (Hp1 & Hp2 & _), Hmid1 as (Hm1 & Hm2 & _).
  eexists minerAndRewardDiff, entries, balances, _, _, sL.
  split_and!; [| | | | exact Hloop | done | done |].
  - by repeat split.
  - rewrite Hm2, HappD. simpl. by rewrite HappS.
  - rewrite Hm1, HappD. simpl. by rewrite HappS, Hp1.
  - unfold keeps, made in *. rewrite Hmid2, HappD. simpl.
    rewrite countCalls_app, HappS. simpl. lia.
  - simpl. rewrite HbcL, Hmid3, HbcD, HcallsS, Hminer, Hpre3.
    unfold blockCallsOf. by rewrite <- !app_assoc.
Qed.

End Block2.

Section Saves.

Context (env : Collaborators) (benv : BlockCollaborators).

Lemma savesNot_ret {A} (x : A) : savesNot (mret x : B A).
Proof. intros s. reflexivity. Qed.

Lemma savesNot_inAppender {A} (m : M A) : savesNot (inAppender m).
Proof. intros s. reflexivity. Qed.

Lemma savesNot_extern {A} (c : result A → BlockCall) reply :
  (∀ r, isSavedCurFeeDistr (c r) = false) → savesNot (blockExtern c reply).
Proof.
  intros Hc s. unfold blockExtern. simpl. rewrite countBlockCalls_app. simpl.
  rewrite Hc. lia.
Qed.

Lemma savesNot_bind {A C} (m : B A) (f : A → B C) :
  savesNot m → (∀ x, savesNot (f x)) → savesNot (m ≫= f).
Proof.
  intros Hm Hf s. specialize (Hm s). unfold mbind, B_bind.
  destruct (m s) as [[x|e] s1]; simpl in *; [|done].
  by rewrite Hf.
Qed.

Lemma savesNot_orReturn {A} (m : B A) f : savesNot m → savesNot (blockOrReturn m f).
Proof.
  intros Hm s. specialize (Hm s). unfold blockOrReturn.
  by destruct (m s) as [[x|e] s1].
Qed.

Lemma savesNot_createInitialBlockSnapshot d : savesNot (createInitialBlockSnapshot benv d).
Proof.
  unfold createInitialBlockSnapshot.
  apply savesNot_bind; [by apply savesNot_orReturn, savesNot_extern|].
  intros entries. generalize {| regular := [] |}.
  induction entries as [|[addr diffAmount] rest IH]; intros snapshot; simpl.
  - apply savesNot_ret.
  - apply savesNot_bind; [by apply savesNot_orReturn, savesNot_extern|].
    intros fullBalance. apply IH.
Qed.

Lemma savesNot_appendBlock_transactions txs appendTxArgs :
  savesNot (appendBlock_transactions env txs appendTxArgs).
Proof.
  intros s. by rewrite appendBlock_transactions_blockCalls.
Qed.

Lemma savesOnce_bind {A C} (m : B A) (f : A → B C) :
  savesNot m → (∀ x, savesOnce (f x)) → savesOnce (m ≫= f).
Proof.
  intros Hm Hf s. specialize (Hm s). unfold mbind, B_bind.
  destruct (m s) as [[x|e] s1]; simpl in *; [|lia].
  by rewrite Hf, Hm.
Qed.

Lemma savesOnce_appendBlock_body params : savesOnce (appendBlock_body env benv params).
Proof.
  unfold appendBlock_body.
  repeat (cbv beta zeta;
          lazymatch goal with
          | |- savesOnce (mbind _ _) =>
              apply savesOnce_bind;
              [ first [ apply savesNot_inAppender
                      | by apply savesNot_extern
                      | apply savesNot_orReturn, savesNot_createInitialBlockSnapshot
                      | apply savesNot_appendBlock_transactions ]
              | intros ? ]
          end).
  intros s. unfold blockExtern. simpl. rewrite countBlockCalls_app. simpl.
  destruct (saveCurFeeDistr benv _ _ _); simpl; lia.
Qed.

End Saves.

(** ** The outcome of [appendBlock] *)

(** X15. [appendBlock] saves the fee distribution of the block exactly when
    it returns no error, and in both cases ends with the counter of script
    runs and the total complexity at zero.  When it returns no error, its own
    calls were: the creation of the miner and reward diff, the balance diff
    of this diff and a balance lookup for each of its entries, and last the
    saving of the fee distribution; the working set of diffs got the miner
    and reward diff first, then one diff for each transaction; and the ID of
    every transaction of the block is in the recent-ID set. *)
Theorem appendBlock_outcome env benv params s :
  let run := appendBlock env benv params s in
  totalScriptsRuns (appender run.2) = 0
  ∧ getTotalComplexity (sc (appender run.2)) = 0
  ∧ countBlockCalls isSavedCurFeeDistr (blockCalls run.2)
    = countBlockCalls isSavedCurFeeDistr (blockCalls s) + (if is_ok run.1 then 1 else 0)
  ∧ (run.1 = Ok tt →
     ∃ minerAndRewardDiff entries balances diffs,
       blockCalls run.2
       = blockCalls s ++ blockCallsOf params minerAndRewardDiff entries balances
       ∧ diffStor (appender run.2) = diffStor (appender s) ++ minerAndRewardDiff :: diffs
       ∧ length diffs = length (appendBlockParams.transactions params)
       ∧ ∀ tx, tx ∈ appendBlockParams.transactions params →
           ∃ id, GetID tx = Ok id ∧ id ∈ recentTxIds (appender run.2)).
Proof.
  intros run. subst run. rewrite appendBlock_run. simpl.
  split_and!; [done | done | apply savesOnce_appendBlock_body |].
  intros Hok.
  destruct (appendBlock_body env benv params s) as [r s'] eqn:Hbody. simpl in *. subst r.
  apply appendBlock_body_Ok in Hbody
    as (minerAndRewardDiff & entries & balances & appendTxArgs & s1 & s2
        & _ & Hids & Hdiffs & _ & Hloop & Happ & _ & Hcalls).
  apply appendBlock_transactions_Ok in Hloop as (_ & Hall & (diffs & Hdiffs' & Hlen) & _).
  exists minerAndRewardDiff, entries, balances, diffs.
  rewrite Happ. split_and!; [done | | done | done].
  by rewrite Hdiffs', Hdiffs, <- app_assoc.
Qed.

(** X16. A block that holds two transactions with the same ID is rejected by
    [appendBlock], unless the duplicate check exempts the second one
    (Payment, and CreateAlias when the timestamp of the block lies within the
    stolen-aliases window). *)
Theorem appendBlock_rejects_duplicate env benv params s txs1 tx txs2 tx' txs3 id :
  appendBlockParams.transactions params = txs1 ++ tx :: txs2 ++ tx' :: txs3 →
  GetID tx = Ok id →
  GetID tx' = Ok id →
  exemptFromDuplicateCheck env tx' (Timestamp (appendBlockParams.block params)) = false →
  is_ok (appendBlock env benv params s).1 = false.
Proof.
  intros Htxs Hid Hid' Hexempt. rewrite appendBlock_run. simpl.
  destruct (appendBlock_body env benv params s) as [[[]|e] s'] eqn:Hbody; [|done].
  exfalso.
  apply appendBlock_body_Ok in Hbody
    as (_ & _ & _ & appendTxArgs & s1 & s2 & (_ & _ & Hblock & _) & _ & _ & _ & Hloop & _).
  assert (txs1 ++ tx :: txs2 ++ tx' :: txs3 = (txs1 ++ tx :: txs2) ++ tx' :: txs3) as Hsplit
    by (by rewrite <- app_assoc).
  rewrite Htxs, Hsplit, appendBlock_transactions_app in Hloop.
  destruct (appendBlock_transactions env (txs1 ++ tx :: txs2) appendTxArgs s1)
    as [[[]|e] s3] eqn:Hfirst; [|done].
  apply appendBlock_transactions_Ok in Hfirst as (_ & Hall & _).
  destruct (Hall tx) as (id0 & Hid0 & Hin).
  { apply elem_of_app. right. left. }
  assert (id0 = id) as -> by congruence.
  simpl in Hloop. rewrite <- Hblock in Hexempt.
  pose proof (appendTx_repeated env tx' appendTxArgs (appender s3) id Hid' Hin Hexempt)
    as Hrepeated.
  revert Hloop. unfold mbind, B_bind, inAppender. by rewrite Hrepeated.
Qed.

Lemma appendBlock_rejects_duplicate_witness :
  let env := chain allFeatures [] passes enough [] in
  let tx := txOf TransferTransaction OtherBody "t1" in
  is_ok (appendBlock env (blockChain 100) (blockOf [tx; exchangeTx; tx]) newBlockAppender).1
  = false.
Proof.
  intros env tx.
  exact (appendBlock_rejects_duplicate env (blockChain 100) (blockOf [tx; exchangeTx; tx])
           newBlockAppender [] tx [exchangeTx] tx [] "t1" eq_refl eq_refl eq_refl eq_refl).
Defined.

Section BlockMode.

Context (env : Collaborators) (benv : BlockCollaborators).

Lemma appendTx_dispatch_keeps_validate_rejecting tx params scripted sender :
  acceptFailed params = false →
  always (keeps isValidateTxDiff) (appendTx_dispatch env tx params scripted sender).
Proof.
  intros Haccept.
  assert (∀ tx,
            always (keeps isValidateTxDiff)
              (handleExchange env tx
                 {| appendTxParamsOf := params; senderScripted := scripted;
                    senderAddress := sender |})) as Hexchange.
  { intros tx0. apply handleExchange_keeps_validate. unfold effectiveAcceptFailed. simpl.
    rewrite Haccept. apply andb_false_r. }
  unfold appendTx_dispatch, handleInvokeOrExchangeTransaction, handleFallible. simpl.
  rewrite Haccept.
  unfold handleDefaultTransaction, handleInvoke, checkTransactionScripts,
    blockDifferCreateTransactionDiff, txHandlerCheckTx, scCallAccountScriptWithTx, isActivated.
  always_auto.
Qed.

(** In block mode, without accepting failed transactions, [appendTx]
    validates no diff. *)
Lemma appendTx_keeps_validate_rejecting tx params :
  validatingUtx params = false → acceptFailed params = false →
  always (keeps isValidateTxDiff) (appendTx env tx params).
Proof.
  intros Hutx Haccept. unfold appendTx, appendTx_body.
  repeat (cbv beta iota zeta;
          lazymatch goal with
          | |- always _ (mbind _ (appendTx_dispatch _ _ _ _ _)) =>
              eapply always_bind_returns;
              [ typeclasses eauto
              | by apply appendTx_dispatch_keeps_validate_rejecting
              | apply appendTx_dispatch_returns
              | intros d (_ & _ & Hflag & _);
                destruct (needToValidateBalanceDiff d);
                [by rewrite Hflag in Hutx|] ]
          | |- always _ (mbind _ _) => rule always_bind; [| intros ?]
          | |- _ => unfold_methods; first [always_step | always_loops]
          end).
Qed.

Lemma isActivated_returns f b :
  activated env f b → returns (λ x, x = b) (isActivated env f).
Proof.
  intros Hf a x a'. unfold isActivated, extern. rewrite Hf. by intros [= <- _].
Qed.

End BlockMode.

(** One step of a proof of [blockSteady (onAppender R) m]; [tac] proves that
    a method of the appender is [steady]. *)
Ltac blockSteady_step tac :=
  lazymatch goal with
  | |- blockSteady _ (mbind _ _) => rule blockSteady_bind; [| intros ?]
  | |- blockSteady _ (mret _) => rule blockSteady_ret
  | |- blockSteady _ (inAppender _) => rule blockSteady_inAppender; tac
  | |- blockSteady _ (blockExtern _ _) => rule blockSteady_extern
  | |- blockSteady _ (blockOrReturn _ _) => rule blockSteady_orReturn
  | |- blockSteady _ (blockAttempt _) => rule blockSteady_attempt
  | |- blockSteady _ (createInitialBlockSnapshot _ _) =>
      rule blockSteady_createInitialBlockSnapshot
  end.

Ltac blockSteady_auto tac := repeat (cbv beta zeta; blockSteady_step tac).

(** A method of the appender that keeps the count of the calls [p]. *)
Ltac steady_keeps :=
  apply steady_onCalls; unfold diffStorSaveTxDiff; unfold_methods; always_auto.

(** ** The transactions of a block are appended in block mode *)


(** ** The validation list of the pool *)

Section ValidationList.

Context (env : Collaborators).

(** A run of [validateNextTx] that returns no error: the lookups, which
    leave the appender [unchanged], then [appendTx] in pool mode. *)
Lemma validateNextTx_Ok tx currentTimestamp parentTimestamp version accept a a' :
  validateNextTx env tx currentTimestamp parentTimestamp version accept a = (Ok tt, a') →
  ∃ params a0,
    unchanged a a0
    ∧ validatingUtx params = true
    ∧ acceptFailed params = accept
    ∧ appendTx env tx params a0 = (Ok tt, a').
Proof.
  unfold validateNextTx. intros Hrun.
  assert (unchanged a a) as Hpre by reflexivity.
  repeat (cbv beta zeta in Hrun;
          lazymatch type of Hrun with
          | (mbind _ ?m) ?a0 = _ =>
              let x := fresh "x" in
              let a1 := fresh "a" in
              let Hstep := fresh "Hstep" in
              let Hnew := fresh "Hnew" in
              apply bind_Ok in Hrun as (x & a1 & Hstep & Hrun);
              assert (unchanged a0 a1) as Hnew
                by (eapply steady_run; [|exact Hstep];
                    unfold_methods; steady_auto unchanged_side);
              apply (transitivity Hpre) in Hnew;
              clear Hstep Hpre; rename Hnew into Hpre
          end).
  apply orReturn_Ok in Hrun.
  eexists _, _. split_and!; [exact Hpre | | | exact Hrun]; reflexivity.
Qed.

Opaque appendTx.

(** [validateNextTx] on a transaction whose ID is in the recent-ID set. *)
Lemma validateNextTx_repeated tx currentTimestamp parentTimestamp version accept a id :
  GetID tx = Ok id →
  id ∈ recentTxIds a →
  (∀ block, readNewestBlockHeaderByHeight env (calls a) = Ok block →
     exemptFromDuplicateCheck env tx (Timestamp block) = false) →
  let run := validateNextTx env tx currentTimestamp parentTimestamp version accept a in
  ((∃ e msg, run.1 = Err (Extend e msg))
   ∨ (∃ params, run.1 = Err (NewInfoMsg (repeatedError tx params id))))
  ∧ sameStores a run.2
  ∧ made isScriptRun run.2 = made isScriptRun a
  ∧ made isVerifyCheckTx run.2 = made isVerifyCheckTx a.
Proof.
  intros Hid Hin Hexempt run. subst run.
  unfold validateNextTx, currentBlock, currentBlockInfo, isActivated.
  unfold_monad. simpl.
  repeat match goal with
         | |- context [match ?x with _ => _ end] =>
             lazymatch x with
             | context [appendTx] => fail
             | context [match _ with _ => _ end] => fail
             | _ => destruct x eqn:?
             end
         end;
    simpl;
    try (split_and!;
         [ left; by eexists _, _
         | done
         | unfold made; simpl; rewrite ?countCalls_app; simpl; lia
         | unfold made; simpl; rewrite ?countCalls_app; simpl; lia ]).
  match goal with
  | |- context [appendTx env tx ?p ?a1] =>
      rewrite (appendTx_repeated env tx p a1 id Hid Hin (Hexempt _ eq_refl))
  end.
  simpl. split_and!.
  - right. by eexists.
  - done.
  - unfold made; simpl; rewrite ?countCalls_app; simpl; lia.
  - unfold made; simpl; rewrite ?countCalls_app; simpl; lia.
Qed.

Transparent appendTx.

End ValidationList.

(** X18. The validation list of the pool holds no transaction twice: after
    [validateNextTx] has accepted a transaction, it rejects a transaction
    with the same ID, unless the duplicate check exempts it: a payment, or
    an alias creation when the timestamp of the block that [currentBlock]
    returns to the second validation is in the window of the stolen aliases.
    The error is the one of a lookup made before [appendTx], or the
    informational message of the duplicate check (of the version check when
    this one fails first).  The rejection runs no script and verifies
    nothing, and the stores stay as the first validation left them. *)
Theorem validateNextTx_twice env tx currentTimestamp parentTimestamp version accept a
    tx' currentTimestamp' parentTimestamp' version' accept' id :
  (validateNextTx env tx currentTimestamp parentTimestamp version accept a).1 = Ok tt →
  GetID tx = Ok id →
  GetID tx' = Ok id →
  let a1 := (validateNextTx env tx currentTimestamp parentTimestamp version accept a).2 in
  (∀ block, readNewestBlockHeaderByHeight env (calls a1) = Ok block →
     exemptFromDuplicateCheck env tx' (Timestamp block) = false) →
  let run := validateNextTx env tx' currentTimestamp' parentTimestamp' version' accept' a1 in
  ((∃ e msg, run.1 = Err (Extend e msg))
   ∨ (∃ params, run.1 = Err (NewInfoMsg (repeatedError tx' params id))))
  ∧ sameStores a1 run.2
  ∧ made isScriptRun run.2 = made isScriptRun a1
  ∧ made isVerifyCheckTx run.2 = made isVerifyCheckTx a1.
Proof.
  intros Hok Hid Hid' a1 Hexempt. subst a1.
  destruct (validateNextTx env tx currentTimestamp parentTimestamp version accept a)
    as [r a1] eqn:Hrun.
  simpl in *. subst r.
  apply validateNextTx_Ok in Hrun as (params & a0 & _ & _ & _ & Hrun).
  apply appendTx_Ok_stores in Hrun as (id0 & _ & _ & _ & _ & _ & Hid0 & _ & Hids & _).
  apply validateNextTx_repeated; [done | | done].
  rewrite Hids. assert (id0 = id) as -> by congruence.
  apply elem_of_union. left. by apply elem_of_singleton.
Qed.

Lemma validateNextTx_twice_witness :
  let env := chain allFeatures [] passes enough [] in
  let tx := txOf CreateAliasTransaction OtherBody "t1" in
  let a1 := (validateNextTx env tx 60 40 5 true newTxAppender).2 in
  let run := validateNextTx env tx 61 40 5 true a1 in
  inStolenAliasesWindow env 150 = true
  ∧ (∃ e, run.1 = Err e) ∧ recentTxIds run.2 = recentTxIds a1.
Proof.
  intros env tx a1 run.
  assert ((validateNextTx env tx 60 40 5 true newTxAppender).1 = Ok tt) as Hok
    by (vm_compute; reflexivity).
  assert (∀ block,
            readNewestBlockHeaderByHeight env
              (calls (validateNextTx env tx 60 40 5 true newTxAppender).2) = Ok block →
            exemptFromDuplicateCheck env tx (Timestamp block) = false) as Hexempt
    by (intros block [= <-]; reflexivity).
  destruct (validateNextTx_twice env tx 60 40 5 true newTxAppender tx 61 40 5 true "t1"
              Hok eq_refl eq_refl Hexempt) as (Herr & (_ & Hids & _) & _).
  split; [reflexivity|]. split; [|exact Hids].
  destruct Herr as [(e & msg & He)|(params & He)]; eexists; exact He.
Defined.

(** * The miner *)

Module miner_theory.
Import miner.

Lemma validated_app cs1 cs2 : validated (cs1 ++ cs2) = validated cs1 ++ validated cs2.
Proof.
  induction cs1 as [|c cs1 IH]; simpl; [done|].
  destruct c; try done. destruct reply; [simpl; by rewrite IH | done].
Qed.

Ltac unfold_miner :=
  unfold mbind, Mn_bind, mret, Mn_ret, call, tell, exit, orLogAndReturn.

Lemma validatesWith_other t lastKnownBlock v c :
  isValidateNextTx c = false → validatesWith t lastKnownBlock v c.
Proof. by intros Hc ? ? ? ? ? ->. Qed.

Lemma validatesWith_same t lastKnownBlock v tx reply :
  validatesWith t lastKnownBlock v
    (CallValidateNextTx tx t (Timestamp lastKnownBlock) v reply).
Proof. by intros ? ? ? ? ? [= _ <- <- <- _]. Qed.

(** Every call of an explicit list satisfies a predicate that [tac] proves. *)
Ltac each_call tac :=
  repeat (apply Forall_cons_2; [tac|]); try apply Forall_nil.

Section Loop.

Context (env : Collaborators).

(** The loop of [Mine]: at most [n] transactions are popped, each is
    validated once unless the interrupt is seen, and the accepted ones are
    kept in order. *)
Lemma Mine_loop_run n t lastKnownBlock v transactions h r h' :
  Mine_loop env n t lastKnownBlock v transactions h = (r, h') →
  ∃ cs, h' = h ++ cs
    ∧ (length (validated cs) ≤ n)%nat
    ∧ Forall (validatesWith t lastKnownBlock v) cs
    ∧ match r with
      | Next transactions' =>
          transactions' = transactions ++ validated cs
          ∧ Forall (λ c, isPoolCall c = true ∧ isInterrupt c = false) cs
      | Return =>
          ∃ cs' tx,
            cs = cs' ++ [CallPop (Some tx); CallInterruptLoad true;
                         CallResetValidationList; CallUnlock]
            ∧ Forall (λ c, isPoolCall c = true ∧ isInterrupt c = false) cs'
      end.
Proof.
  revert transactions h.
  induction n as [|n IH]; intros transactions h; simpl.
  - intros [= <- <-]. exists []. rewrite !app_nil_r. by split_and!.
  - unfold_miner. simpl.
    destruct (Pop env h) as [tx|] eqn:Hpop; simpl.
    2:{ intros [= <- <-]. exists [CallPop None]. simpl. rewrite app_nil_r.
        split_and!; [done | lia | | done | by each_call done].
        by each_call ltac:(by apply validatesWith_other). }
    destruct (interruptLoad env _) eqn:Hload; simpl.
    { intros [= <- <-]. rewrite <- !app_assoc. simpl.
      eexists. split; [reflexivity|]. simpl.
      split_and!; [lia | |].
      - by each_call ltac:(by apply validatesWith_other).
      - by exists [], tx. }
    destruct (ValidateNextTx env _ _ _ _ _) as [[]|e] eqn:Hvalid; simpl;
      intros (cs & -> & Hlen & Hwith & Hr)%IH; rewrite <- !app_assoc; simpl;
      (eexists; split; [reflexivity|]); simpl;
      (split_and!;
       [ lia
       | repeat (apply Forall_cons_2;
                 [first [by apply validatesWith_other | apply validatesWith_same]|]);
         exact Hwith
       | ]);
      (destruct r as [transactions'|];
       [ destruct Hr as [-> Hall]; split; [by rewrite <- ?app_assoc|];
         by repeat (apply Forall_cons_2; [done|])
       | destruct Hr as (cs' & dropped & -> & Hall);
         eexists (_ :: _ :: _ :: cs'), dropped; split; [reflexivity|];
         by repeat (apply Forall_cons_2; [done|]) ]).
Qed.

End Loop.

Opaque Mine_loop.

(** A run of the body of [Mine] on all its paths, with the calls of the loop
    as the loop lemma gives them. *)
Ltac run_miner :=
  unfold Mine_body, blockVersion; unfold_miner; simpl; repeat (run_case; simpl);
  try match goal with
      | H : Mine_loop _ _ _ _ _ _ _ = _ |- _ =>
          apply Mine_loop_run in H as (locked & -> & Hlen & Hwith & Hr);
          first [ destruct Hr as (locked' & dropped & -> & Hpool) | destruct Hr as (-> & Hpool) ]
      end;
  repeat match goal with u : unit |- _ => destruct u end;
  rewrite <- ?app_assoc; simpl.

Lemma Forall_pool_locked cs :
  Forall (λ c, isPoolCall c = true ∧ isInterrupt c = false) cs →
  Forall (λ c, isPoolCall c = true) cs.
Proof. intros H. eapply Forall_impl; [exact H|]. by intros c [? _]. Qed.

Lemma Mine_run env t k parent baseTarget GenSignature h :
  (Mine env t k parent baseTarget GenSignature h).2
  = (Mine_body env t k parent baseTarget GenSignature h).2 ++ [CallReschedule].
Proof. reflexivity. Qed.

Lemma Mine_body_locks env t k parent baseTarget GenSignature h :
  ∃ cs, (Mine_body env t k parent baseTarget GenSignature h).2 = h ++ cs
    ∧ (Forall (λ c, isLockedCall c = false) cs
       ∨ ∃ before locked after,
           cs = before ++ [CallLock] ++ locked
                ++ [CallResetValidationList; CallUnlock] ++ after
           ∧ Forall (λ c, isLockedCall c = false) before
           ∧ Forall (λ c, isPoolCall c = true) locked
           ∧ Forall (λ c, isLockedCall c = false) after).
Proof.
  run_miner.
  all: (eexists; split; [reflexivity|]).
  all: first
         [ left; by each_call done
         | right;
           eexists [_; _; _], (locked' ++ [CallPop (Some dropped); CallInterruptLoad true]), [];
           split_and!;
           [ by rewrite <- ?app_assoc
           | by each_call done
           | apply Forall_app; split; [by apply Forall_pool_locked | by each_call done]
           | done ]
         | right; eexists [_; _; _], locked, _;
           split_and!;
           [ reflexivity
           | by each_call done
           | by apply Forall_pool_locked
           | by each_call done ] ].
Qed.

(** X19. The state is locked once at most; the pool, the interrupt flag and
    the validation are only used with the state locked; and the lock is
    released once, right after the validation list is reset, on every path,
    the interrupted one included.  [Mine] ends by rescheduling. *)
Theorem Mine_locks env t k parent baseTarget GenSignature h :
  let run := Mine env t k parent baseTarget GenSignature h in
  ∃ cs, run.2 = h ++ cs ++ [CallReschedule]
    ∧ (Forall (λ c, isLockedCall c = false) cs
       ∨ ∃ before locked after,
           cs = before ++ [CallLock] ++ locked
                ++ [CallResetValidationList; CallUnlock] ++ after
           ∧ Forall (λ c, isLockedCall c = false) before
           ∧ Forall (λ c, isPoolCall c = true) locked
           ∧ Forall (λ c, isLockedCall c = false) after).
Proof.
  intros run. subst run. rewrite Mine_run.
  destruct (Mine_body_locks env t k parent baseTarget GenSignature h) as (cs & -> & Hcs).
  exists cs. by rewrite <- app_assoc.
Qed.

(** Where a call is in the calls of a run: [H] says it is there, [Hpool]
    what the calls of the loop are. *)
Ltac locate H Hpool :=
  repeat first
    [ apply elem_of_nil in H; destruct H
    | apply elem_of_cons in H as [H|H]; [try discriminate H|]
    | apply elem_of_app in H as [H|H];
      [ exfalso; eapply Forall_forall in Hpool; [|exact H];
        simpl in Hpool; destruct Hpool; discriminate
      | ] ].

Ltac in_calls :=
  repeat first
    [ apply list_elem_of_here
    | apply list_elem_of_further
    | apply elem_of_app; right ].

Lemma Mine_body_block env t k parent baseTarget GenSignature h :
  ∃ cs, (Mine_body env t k parent baseTarget GenSignature h).2 = h ++ cs
    ∧ ∀ txs t' parent' pub nxt v reply,
        CallCreateBlock txs t' parent' pub nxt v reply ∈ cs →
        txs = validated cs
        ∧ (length txs ≤ 100)%nat
        ∧ t' = t ∧ parent' = parent
        ∧ nxt = {| BaseTarget := baseTarget; GenSignature := GenSignature |}
        ∧ (∃ lastKnownBlock,
             CallBlock parent (Ok lastKnownBlock) ∈ cs
             ∧ Forall (validatesWith t lastKnownBlock v) cs)
        ∧ (∃ activated,
             CallIsActivated BlockReward (Ok activated) ∈ cs
             ∧ v = if activated then RewardBlockVersion else NgBlockVersion)
        ∧ CallPublic k (Ok pub) ∈ cs
        ∧ CallWriteTo txs (Ok tt) ∈ cs.
Proof.
  run_miner.
  all: (eexists; split; [reflexivity|]).
  all: intros txs t' parent' pub nxt v reply Hin.
  all: try (locate Hin Hpool; fail).
  all: try (exfalso; locate Hin Hpool;
            apply elem_of_app in Hin as [Hin|Hin]; locate Hin Hpool; fail).
  all: locate Hin Hpool; injection Hin as -> -> -> -> -> -> ->.
  all: simpl; rewrite ?validated_app; simpl; rewrite ?app_nil_r.
  all: split_and!; try done.
  all: try (eexists; split; [in_calls|];
            repeat (apply Forall_cons_2; [by apply validatesWith_other|]);
            apply Forall_app; split; [exact Hwith|];
            by each_call ltac:(by apply validatesWith_other)).
  all: try (by eexists; split; [in_calls|]).
  all: in_calls.
Qed.

(** X20. The block that [Mine] makes holds the transactions that the state
    validated, in the order in which they were popped, and no other: at most
    a hundred.  Each was validated with the timestamp that [Mine] was given,
    the timestamp of the parent block and the version that the block is made
    with, which is the reward version exactly when BlockReward is activated;
    the block is made for the same timestamp and parent, of the base target
    and generation signature given and with the public key of the key pair,
    in a run in which writing these transactions to a buffer gave no error. *)
Theorem Mine_block env t k parent baseTarget GenSignature h :
  let run := Mine env t k parent baseTarget GenSignature h in
  ∃ cs, run.2 = h ++ cs ++ [CallReschedule]
    ∧ ∀ txs t' parent' pub nxt v reply,
        CallCreateBlock txs t' parent' pub nxt v reply ∈ cs →
        txs = validated cs
        ∧ (length txs ≤ 100)%nat
        ∧ t' = t ∧ parent' = parent
        ∧ nxt = {| BaseTarget := baseTarget; GenSignature := GenSignature |}
        ∧ (∃ lastKnownBlock,
             CallBlock parent (Ok lastKnownBlock) ∈ cs
             ∧ Forall (validatesWith t lastKnownBlock v) cs)
        ∧ (∃ activated,
             CallIsActivated BlockReward (Ok activated) ∈ cs
             ∧ v = if activated then RewardBlockVersion else NgBlockVersion)
        ∧ CallPublic k (Ok pub) ∈ cs
        ∧ CallWriteTo txs (Ok tt) ∈ cs.
Proof.
  intros run. subst run. rewrite Mine_run.
  destruct (Mine_body_block env t k parent baseTarget GenSignature h) as (cs & -> & Hcs).
  exists cs. by rewrite <- app_assoc.
Qed.

Lemma Forall_pool_not_block cs :
  Forall (λ c, isPoolCall c = true ∧ isInterrupt c = false) cs →
  Forall (λ c, isBlockCall c = false) cs.
Proof. intros H. eapply Forall_impl; [exact H|]. intros c [? _]. by destruct c. Qed.

Lemma Mine_body_interrupted env t k parent baseTarget GenSignature h :
  ∃ cs, (Mine_body env t k parent baseTarget GenSignature h).2 = h ++ cs
    ∧ (CallInterruptLoad true ∈ cs →
       Forall (λ c, isBlockCall c = false) cs
       ∧ ∃ cs' tx,
           cs = cs' ++ [CallPop (Some tx); CallInterruptLoad true;
                        CallResetValidationList; CallUnlock]).
Proof.
  run_miner.
  all: (eexists; split; [reflexivity|]).
  all: intros Hin.
  all: try (locate Hin Hpool; fail).
  all: try (exfalso; locate Hin Hpool;
            apply elem_of_app in Hin as [Hin|Hin]; locate Hin Hpool; fail).
  all: split;
    [ repeat (apply Forall_cons_2; [done|]);
      apply Forall_app; split; [by apply Forall_pool_not_block | by each_call done]
    | by eexists (_ :: _ :: _ :: _ :: locked'), dropped ].
Qed.

(** X21. When [Mine] sees the interrupt, it makes no block: the transaction
    it had just popped is left unvalidated, the validation list is reset, the
    lock released, and nothing is written, created, signed or applied. *)
Theorem Mine_interrupted env t k parent baseTarget GenSignature h cs :
  (Mine env t k parent baseTarget GenSignature h).2 = h ++ cs →
  CallInterruptLoad true ∈ cs →
  Forall (λ c, isBlockCall c = false) cs
  ∧ ∃ cs' tx,
      cs = cs' ++ [CallPop (Some tx); CallInterruptLoad true;
                   CallResetValidationList; CallUnlock; CallReschedule].
Proof.
  rewrite Mine_run.
  destruct (Mine_body_interrupted env t k parent baseTarget GenSignature h)
    as (cs0 & -> & Hcs0).
  rewrite <- app_assoc. intros <-%app_inv_head Hin.
  apply elem_of_app in Hin as [Hin|Hin]; [|locate Hin Hin].
  destruct (Hcs0 Hin) as (Hnone & cs' & tx & ->).
  split; [apply Forall_app; split; [done | by each_call done]|].
  exists cs', tx. by rewrite <- app_assoc.
Qed.

Lemma Mine_interrupted_witness :
  let txs := [txOf TransferTransaction OtherBody "t1"; txOf TransferTransaction OtherBody "t2";
              txOf TransferTransaction OtherBody "t3"] in
  let run := Mine (pool txs (λ _, true) 2) 60 "keys" "parent" 1 "gen" [] in
  ∃ cs' tx,
    run.2 = cs' ++ [CallPop (Some tx); CallInterruptLoad true;
                    CallResetValidationList; CallUnlock; CallReschedule].
Proof.
  intros txs run.
  pose (calls := run.2). vm_compute in calls.
  lazymatch eval cbv delta [calls] in calls with
  | ?l =>
      assert (run.2 = [] ++ l) as Hrun by (vm_compute; reflexivity);
      assert (CallInterruptLoad true ∈ l) as Hin by in_calls;
      destruct (Mine_interrupted (pool txs (λ _, true) 2) 60 "keys" "parent" 1 "gen" [] l
                  Hrun Hin) as (_ & cs' & tx & Hl);
      exists cs', tx; exact (eq_trans Hrun Hl)
  end.
Defined.

Lemma Mine_body_applies env t k parent baseTarget GenSignature h :
  ∃ cs, (Mine_body env t k parent baseTarget GenSignature h).2 = h ++ cs
    ∧ ∀ b reply, CallApply b reply ∈ cs →
        ∃ cs' txs pub nxt v priv,
          cs = cs' ++ [CallCreateBlock txs t parent pub nxt v (Ok b);
                       CallPrivate k (Ok priv); CallSign b priv (Ok tt); CallApply b reply]
               ++ match reply with Ok _ => [] | Err err => [CallError err] end.
Proof.
  run_miner.
  all: (eexists; split; [reflexivity|]).
  all: intros b reply Hin.
  all: try (locate Hin Hpool; fail).
  all: try (exfalso; locate Hin Hpool;
            apply elem_of_app in Hin as [Hin|Hin]; locate Hin Hpool; fail).
  all: locate Hin Hpool; injection Hin as -> ->.
  all: eexists (_ :: _ :: _ :: _ :: locked ++ [_; _; _; _]), _, _, _, _, _.
  all: simpl; by rewrite <- app_assoc.
Qed.

(** X22. [Mine] applies a block only when it was made, signed and given next
    to the block applier: the calls before the application are the creation
    that returned this block, the reading of the private key and a signing
    of this block that returned no error.  An error of the application is
    logged, and [Mine] ends by rescheduling in both cases. *)
Theorem Mine_applies_signed env t k parent baseTarget GenSignature h cs b reply :
  (Mine env t k parent baseTarget GenSignature h).2 = h ++ cs →
  CallApply b reply ∈ cs →
  ∃ cs' txs pub nxt v priv,
    cs = cs' ++ [CallCreateBlock txs t parent pub nxt v (Ok b);
                 CallPrivate k (Ok priv); CallSign b priv (Ok tt); CallApply b reply]
         ++ match reply with Ok _ => [] | Err err => [CallError err] end
         ++ [CallReschedule].
Proof.
  rewrite Mine_run.
  destruct (Mine_body_applies env t k parent baseTarget GenSignature h) as (cs0 & -> & Hcs0).
  rewrite <- app_assoc. intros <-%app_inv_head Hin.
  apply elem_of_app in Hin as [Hin|Hin]; [|locate Hin Hin].
  destruct (Hcs0 b reply Hin) as (cs' & txs & pub & nxt & v & priv & ->).
  exists cs', txs, pub, nxt, v, priv. by rewrite <- !app_assoc.
Qed.

Lemma Mine_applies_signed_witness :
  let txs := [txOf TransferTransaction OtherBody "t1"; txOf TransferTransaction OtherBody "t2";
              txOf TransferTransaction OtherBody "t3"] in
  let valid := λ tx : Transaction,
    match GetID tx with Ok id => negb (String.eqb id "t2") | Err _ => false end in
  let run := Mine (pool txs valid 7) 60 "keys" "parent" 1 "gen" [] in
  ∃ cs' txs' pub nxt v priv,
    run.2 = cs' ++ [CallCreateBlock txs' 60 "parent" pub nxt v (Ok {| blockRef := 1 |});
                    CallPrivate "keys" (Ok priv);
                    CallSign {| blockRef := 1 |} priv (Ok tt);
                    CallApply {| blockRef := 1 |} (Ok tt); CallReschedule].
Proof.
  intros txs valid run.
  pose (calls := run.2). vm_compute in calls.
  lazymatch eval cbv delta [calls] in calls with
  | ?l =>
      assert (run.2 = [] ++ l) as Hrun by (vm_compute; reflexivity);
      assert (CallApply {| blockRef := 1 |} (Ok tt) ∈ l) as Hin by in_calls;
      destruct (Mine_applies_signed (pool txs valid 7) 60 "keys" "parent" 1 "gen" [] l
                  {| blockRef := 1 |} (Ok tt) Hrun Hin)
        as (cs' & txs' & pub & nxt & v' & priv & Hl);
      exists cs', txs', pub, nxt, v', priv; exact (eq_trans Hrun Hl)
  end.
Defined.

Transparent Mine_loop.

End miner_theory.
